(** * WeatherVoyager: balloon history pipeline

    A shallow embedding of the server pipeline of WeatherVoyager
    (app/api/balloon-history/route.ts, lib/windborne.ts, lib/weather.ts,
    lib/redis.ts) and the properties of its specification.

    - JavaScript numbers are IEEE 754 binary64 values: they are modelled by
      [spec_float] with the operations of the Standard Library's [SpecFloat]
      at precision 53 and maximal exponent 1024.
    - Values parsed from JSON are an inductive type.
    - Objects are used as dictionaries.  Those whose enumeration order the
      code relies on ([balloons], [cellsMap], [latestPositions]) are
      insertion-ordered association lists, the others are [gmap]s.  The
      keys of this program are [balloon-<n>] and formatted coordinates, never
      names inherited from [Object.prototype]; inherited properties are not
      modelled.
    - Remote services (the snapshot source, Open-Meteo, Redis) answer as an
      environment decides; the handler's requests, timers and clock are
      threaded through a state and error monad.

    The file has the model first (one module per source file), then the
    concrete inputs and the vocabulary of the properties, then the
    properties C1-C10 with the lemmas they rest on. *)

From Stdlib Require Import ZArith Lia Bool String DecimalString DecimalNat.
From Stdlib Require Import Sorted Permutation.
From Stdlib Require Import Floats.SpecFloat.
From stdpp Require Import base list strings gmap.
From Equations Require Import Equations.

Set Default Proof Using "Type".
Local Open Scope Z_scope.

(** ** JavaScript numbers *)

Module JsNumber.

Definition prec : Z := 53.
Definition emax : Z := 1024.

Definition number : Type := spec_float.

(** A [spec_float] denotes a binary64 value when its mantissa is
    canonical and its exponent in range. *)
Definition is_binary64 (x : number) : bool := valid_binary prec emax x.

Definition num_div : number -> number -> number := SFdiv prec emax.
Definition num_mul : number -> number -> number := SFmul prec emax.
Definition num_lt : number -> number -> bool := SFltb.
Definition num_eq : number -> number -> bool := SFeqb.

(** The integer [z] as a number (rounded to nearest even beyond 2^53). *)
Definition num_of_Z (z : Z) : number := binary_normalize prec emax z 0 false.

Definition Number_isNaN (x : number) : bool :=
  match x with S754_nan => true | _ => false end.

Definition Number_isFinite (x : number) : bool :=
  match x with S754_zero _ | S754_finite _ _ _ => true | _ => false end.

(** [Math.round]: the integer closest to [x], ties towards +infinity; a
    result of zero keeps the sign of [x]; integers, infinities and NaN are
    returned unchanged.  For [e < 0] the value is [m * 2^e], and
    [floor (m * 2^e + 1/2)] is computed on integers. *)
Definition Math_round (x : number) : number :=
  match x with
  | S754_finite s m e =>
      if 0 <=? e then x
      else binary_normalize prec emax
             (Z.shiftr (cond_Zopp s (Zpos m) + 2 ^ (- e - 1)) (- e)) 0 s
  | _ => x
  end.

(** The literal [3.6]: the binary64 value closest to 36/10. *)
Definition lit_3_6 : number := S754_finite false 8106479329266893 (-51).

(** Truthiness of a number: [0], [-0] and [NaN] are falsy. *)
Definition num_truthy (x : number) : bool :=
  match x with S754_zero _ | S754_nan => false | _ => true end.

End JsNumber.
Export JsNumber.

(** ** Values parsed from JSON *)

#[warnings="-register-all"]
Inductive JsVal : Type :=
| JNull
| JBool (b : bool)
| JNum (n : number)
| JStr (s : string)
| JArr (items : list JsVal)
| JObj (fields : list (string * JsVal)).

(** ToBoolean. *)
Definition truthy (v : JsVal) : bool :=
  match v with
  | JNull => false
  | JBool b => b
  | JNum n => num_truthy n
  | JStr s => negb (String.eqb s "")
  | JArr _ | JObj _ => true
  end.

(** Property read [v.name] on a value that is neither [null] nor
    [undefined]; [None] is [undefined].  Arrays and primitives have no such
    own property for the names the pipeline reads. *)
Fixpoint assoc_get {V} (k : string) (o : list (string * V)) : option V :=
  match o with
  | [] => None
  | (k', v) :: o' => if String.eqb k k' then Some v else assoc_get k o'
  end.

Definition js_prop (name : string) (v : JsVal) : option JsVal :=
  match v with
  | JObj fields => assoc_get name fields
  | _ => None
  end.

(** ** Objects used as insertion-ordered dictionaries

    [Record<string, V>] with non-numeric keys: [Object.values] enumerates in
    insertion order, an assignment to an existing key keeps its place. *)

Module JsObj.

Abbreviation jsobj V := (list (string * V)).

Definition obj_get {V} (k : string) (o : jsobj V) : option V := assoc_get k o.

Fixpoint obj_set {V} (k : string) (v : V) (o : jsobj V) : jsobj V :=
  match o with
  | [] => [(k, v)]
  | (k', v') :: o' =>
      if String.eqb k k' then (k', v) :: o' else (k', v') :: obj_set k v o'
  end.

Definition obj_keys {V} (o : jsobj V) : list string := map fst o.
Definition obj_values {V} (o : jsobj V) : list V := map snd o.

End JsObj.
Export JsObj.

(** ** lib/types.ts *)

Record BalloonPoint : Type := {
  balloonId : string;
  (** the time value (ms since the epoch) that [toISOString] renders *)
  timestamp : Z;
  lat : number;
  lon : number;
  alt : option number;
  snapshotIndex : nat
}.

Record BalloonTrack : Type := {
  id : string;
  points : list BalloonPoint
}.

Record BalloonWeather : Type := {
  temperatureC : option number;
  windSpeedMs : option number;
  windDirectionDeg : option number
}.

(** [`balloon-${idx}`] *)
Definition balloon_name (idx : nat) : string :=
  "balloon-" +:+ NilEmpty.string_of_uint (Nat.to_uint idx).

(** [Array.prototype.sort] with a comparator [(a, b) => key a - key b] on
    integer keys: a stable sort by [key]. *)
Section ArraySort.
Context {A : Type} (key : A -> Z).

Fixpoint sort_insert (x : A) (l : list A) : list A :=
  match l with
  | [] => [x]
  | y :: l' => if key y <=? key x then y :: sort_insert x l' else x :: y :: l'
  end.

Definition Array_sort (l : list A) : list A :=
  fold_left (fun acc x => sort_insert x acc) l [].
End ArraySort.

(** ** Built-ins of the JavaScript runtime that the pipeline calls

    They are an interface: every property below holds for any
    implementation of it. *)
Class JsBuiltins : Type := {
  (** [Number(v)] on a value that is not a number (ToNumber) *)
  Number_ : JsVal -> number;
  (** [n.toFixed(digits)] *)
  toFixed : nat -> number -> string;
  (** [JSON.parse(s)]; [None] when it throws a SyntaxError *)
  JSON_parse : string -> option JsVal;
  (** [JSON.stringify(wx)] of a weather reading *)
  JSON_stringify : BalloonWeather -> string
}.

(** [forEach((x, idx) => ...)] and [for (let i = 0; i < l.length; i++)]:
    a left fold that also passes the index. *)
Fixpoint foldi {A St : Type} (f : St -> nat -> A -> St) (i : nat) (l : list A) (s : St) : St :=
  match l with
  | [] => s
  | x :: l' => foldi f (S i) l' (f s i x)
  end.

(** [res.ok]: the status is in the range 200-299. *)
Definition res_ok (status : nat) : bool :=
  ((200 <=? status) && (status <=? 299))%nat.

(** ** app/api/balloon-history/route.ts: snapshots and tracks *)

Module Route.
Section TrackBuilder.
Context `{JsBuiltins}.

Definition HOURS_BACK : nat := 24.
Definition WEATHER_BATCH_SIZE : nat := 50.
Definition GRID_DEGREES : number := S754_finite false 4503599627370496 (-52).
Definition MAX_REQUESTS_PER_WINDOW : Z := 500.
Definition WINDOW_MS : Z := 60000.

(** What the upstream answered for one hour. *)
Inductive TreasureReply : Type :=
| TreasureNetworkError
| TreasureHttp (status : nat) (body : option JsVal).

(** [fetchTreasureSnapshot]: [None] is [null].  [body = None] is a body
    on which [res.json()] throws. *)
Definition fetchTreasureSnapshot (reply : TreasureReply) : option (list JsVal) :=
  match reply with
  | TreasureNetworkError => None
  | TreasureHttp status body =>
      if negb (res_ok status) then None
      else match body with
           | Some (JArr data) => Some data
           | _ => None
           end
  end.

(** [typeof v === "number" ? v : Number(v)] *)
Definition toNum (v : JsVal) : number :=
  match v with JNum n => n | _ => Number_ v end.

(** The body of [snapshot.forEach((entry, idx) => ...)] in
    [buildBalloonHistory].  The track is created on first sight and the
    point pushed to it: [obj_set] appends an absent key and updates a
    present one in place. *)
Definition addEntry (timestamp : Z) (hour : nat)
    (balloons : jsobj BalloonTrack) (idx : nat) (entry : JsVal) : jsobj BalloonTrack :=
  match entry with
  | JArr (latRaw :: lonRaw :: rest) =>
      let lat := toNum latRaw in
      let lon := toNum lonRaw in
      let altNum :=
        match rest with
        | [] => None
        | JNull :: _ => None
        | altRaw :: _ => Some (toNum altRaw)
        end in
      if Number_isNaN lat || Number_isNaN lon
         || negb (Number_isFinite lat) || negb (Number_isFinite lon)
      then balloons
      else
        let balloonId := balloon_name idx in
        let track :=
          match obj_get balloonId balloons with
          | Some t => t
          | None => {| id := balloonId; points := [] |}
          end in
        let point :=
          {| balloonId := balloonId;
             timestamp := timestamp;
             lat := lat;
             lon := lon;
             alt := match altNum with
                    | Some a => if Number_isFinite a then Some a else None
                    | None => None
                    end;
             snapshotIndex := hour |} in
        obj_set balloonId {| id := id track; points := points track ++ [point] |} balloons
  | _ => balloons
  end.

(** One iteration of [for (let hour = 0; ...)]; [now hour] is what
    [Date.now()] returns in that iteration. *)
Definition addSnapshot (now : nat -> Z)
    (balloons : jsobj BalloonTrack) (hour : nat) (snapshot : option (list JsVal))
    : jsobj BalloonTrack :=
  match snapshot with
  | None => balloons
  | Some entries =>
      let timestamp := now hour - Z.of_nat hour * 60 * 60 * 1000 in
      foldi (addEntry timestamp hour) 0 entries balloons
  end.

Definition sortTrack (track : BalloonTrack) : BalloonTrack :=
  {| id := id track;
     points := Array_sort (fun p => Z.of_nat (snapshotIndex p)) (points track) |}.

Definition buildBalloonHistory (now : nat -> Z)
    (rawSnapshots : list (option (list JsVal))) : jsobj BalloonTrack :=
  let balloons := foldi (addSnapshot now) 0 rawSnapshots [] in
  map (fun kv => (fst kv, sortTrack (snd kv))) balloons.

(** The snapshot part of [GET]: the replies of the [HOURS_BACK] requests, in
    hour order, then [rawSnapshots.filter((s) => !!s)] and the track
    builder. *)
Definition rawSnapshotsOf (treasure : nat -> TreasureReply) : list (option (list JsVal)) :=
  map (fun h => fetchTreasureSnapshot (treasure h)) (seq 0 HOURS_BACK).

Definition filterAvailable (rawSnapshots : list (option (list JsVal)))
    : list (option (list JsVal)) :=
  List.filter (fun s => match s with Some _ => true | None => false end) rawSnapshots.

Definition GET_balloons (now : nat -> Z) (treasure : nat -> TreasureReply)
    : jsobj BalloonTrack :=
  buildBalloonHistory now (filterAvailable (rawSnapshotsOf treasure)).

End TrackBuilder.
End Route.

(** ** lib/windborne.ts: snapshots and tracks *)

Module Windborne.

Definition HISTORY_HOURS : nat := 24.

Definition n90 : number := num_of_Z 90.
Definition n180 : number := num_of_Z 180.
Definition neg (x : number) : number := SFopp x.

(** The body of [raw.forEach((entry, idx) => ...)]: destructuring a short
    array leaves [undefined], whose [typeof] is not ["number"]. *)
Definition extractEntry (snapshotTimestamp : Z) (hourIndex : nat)
    (points : list BalloonPoint) (idx : nat) (entry : JsVal) : list BalloonPoint :=
  match entry with
  | JArr (JNum lat :: JNum lon :: rest) =>
      if num_lt lat (neg n90) || num_lt n90 lat
         || num_lt lon (neg n180) || num_lt n180 lon
      then points
      else
        let alt := match rest with JNum a :: _ => Some a | _ => None end in
        points ++ [{| balloonId := balloon_name idx;
                      timestamp := snapshotTimestamp;
                      lat := lat;
                      lon := lon;
                      alt := alt;
                      snapshotIndex := hourIndex |}]
  | _ => points
  end.

Definition extractPointsFromSnapshot (now : Z) (raw : JsVal) (hourIndex : nat)
    : list BalloonPoint :=
  match raw with
  | JArr entries =>
      let snapshotTimestamp := now - Z.of_nat hourIndex * 3600000 in
      foldi (extractEntry snapshotTimestamp hourIndex) 0 entries []
  | _ => []
  end.

(** [snapshots.forEach((raw, hourIndex) => ...)]: [None] is the [null] of a
    failed fetch; a falsy body is skipped as well. *)
Definition addSnapshotPoints (now : nat -> Z)
    (allPoints : list BalloonPoint) (hourIndex : nat) (raw : option JsVal)
    : list BalloonPoint :=
  match raw with
  | None => allPoints
  | Some v =>
      if truthy v
      then allPoints ++ extractPointsFromSnapshot (now hourIndex) v hourIndex
      else allPoints
  end.

Definition groupPoint (balloons : jsobj BalloonTrack) (p : BalloonPoint)
    : jsobj BalloonTrack :=
  let track :=
    match obj_get (balloonId p) balloons with
    | Some t => t
    | None => {| id := balloonId p; points := [] |}
    end in
  obj_set (balloonId p) {| id := id track; points := points track ++ [p] |} balloons.

Record BalloonHistoryResponse : Type := {
  history_points : list BalloonPoint;
  history_balloons : jsobj BalloonTrack
}.

Definition buildBalloonHistory (now : nat -> Z) (snapshots : list (option JsVal))
    : BalloonHistoryResponse :=
  let allPoints := foldi (addSnapshotPoints now) 0 snapshots [] in
  let sorted := Array_sort timestamp allPoints in
  {| history_points := sorted;
     history_balloons := fold_left groupPoint sorted [] |}.

(** [getLatestPositions]: the last point of every track. *)
Definition getLatestPositions (history : BalloonHistoryResponse)
    : jsobj (number * number) :=
  fold_left
    (fun latest track =>
       match last (points track) with
       | None => latest
       | Some p => obj_set (id track) (lat p, lon p) latest
       end)
    (obj_values (history_balloons history)) [].

End Windborne.

(** ** The world outside the request handler

    Remote services answer as the environment decides; the handler's own
    effects (requests, timers, the clock it reads) are threaded through a
    state and error monad. *)

Module Effects.

Inductive MeteoReply : Type :=
| MeteoNetworkError
| MeteoHttp (status : nat) (body : option JsVal).

Record Env : Type := {
  (** [process.env.REDIS_URL] and [process.env.REDIS_WEATHER_TTL_SECONDS] *)
  REDIS_URL : option string;
  REDIS_WEATHER_TTL_SECONDS : option string;
  (** the reply to [redis.mget(keys)]; [None] when the promise rejects.
      A [None] item is the [null] of an absent key. *)
  redis_mget : list string -> option (list (option string));
  (** whether [pipeline.exec()] of these writes resolves *)
  redis_exec : list (string * string) -> bool;
  (** the answer to the k-th request sent to Open-Meteo *)
  open_meteo : nat -> MeteoReply;
  (** the time the n-th awaited operation takes on top of its nominal
      duration *)
  latency : nat -> Z
}.

Inductive Event : Type :=
| EvFetch (latitudes longitudes : list string) (attempt : nat)
| EvSleep (ms : Z)
| EvMget (keys : list string)
| EvPipeline (writes : list (string * string)) (ttlSeconds : number).

Record World : Type := {
  clock : Z;
  trace : list Event
}.

Inductive Exn : Type :=
| RedisRejected.

Inductive Outcome (A : Type) : Type :=
| Ok (a : A)
| Throw (e : Exn).
Arguments Ok {A} a.
Arguments Throw {A} e.

Definition M (A : Type) : Type := World -> Outcome A * World.

Definition ret {A} (a : A) : M A := fun w => (Ok a, w).

Definition bind {A B} (c : M A) (k : A -> M B) : M B :=
  fun w =>
    match c w with
    | (Ok a, w') => k a w'
    | (Throw e, w') => (Throw e, w')
    end.

(** An awaited operation: it is logged and the clock advances. *)
Definition await (env : Env) (ev : Event) (nominal : Z) (w : World) : World :=
  {| clock := clock w + nominal + latency env (length (trace w));
     trace := trace w ++ [ev] |}.

Definition Date_now : M Z := fun w => (Ok (clock w), w).

Definition sleep (env : Env) (ms : Z) : M unit :=
  fun w => (Ok tt, await env (EvSleep ms) ms w).

(** The number of Open-Meteo requests sent so far. *)
Definition requests_sent (w : World) : nat :=
  length (List.filter (fun ev => match ev with EvFetch _ _ _ => true | _ => false end)
            (trace w)).

End Effects.
Export Effects.

Declare Scope monad_scope.
Delimit Scope monad_scope with monad.
Notation "'let*' x ':=' c 'in' k" := (bind c (fun x => k))
  (at level 10, x name, c at level 100, k at level 200) : monad_scope.
Notation "c ';;' k" := (bind c (fun _ => k))
  (at level 100, k at level 200, right associativity) : monad_scope.

(** ** app/api/balloon-history/route.ts: grid cells and weather *)

Module Weather.
Import Route.
Local Open Scope monad_scope.

Record Cell : Type := {
  key : string;
  cell_lat : number;
  cell_lon : number;
  balloonIds : list string
}.

(** A value of [cellWeather] and of [latestWeather]: a reading built from a
    provider answer, or whatever [JSON.parse] returned for a cached string
    (the cast [as BalloonWeather] checks nothing). *)
Inductive Reading : Type :=
| FromProvider (wx : BalloonWeather)
| FromCache (v : JsVal).

Definition reading_truthy (r : Reading) : bool :=
  match r with
  | FromProvider _ => true
  | FromCache v => truthy v
  end.

Definition roundToGrid (value gridDeg : number) : number :=
  num_mul (Math_round (num_div value gridDeg)) gridDeg.

Definition maxRetries : nat := 5.

Section WeatherFetcher.
Context `{JsBuiltins} (env : Env).

Definition cellKeyOf (latCenter lonCenter : number) : string :=
  toFixed 1 latCenter +:+ "," +:+ toFixed 1 lonCenter.

(** The body of [for (const track of Object.values(balloons))] in
    [clusterLatestPointsIntoCells]. *)
Definition addToCell (cellsMap : jsobj Cell) (track : BalloonTrack) : jsobj Cell :=
  match points track with
  | [] => cellsMap
  | latest :: _ =>
      let latCenter := roundToGrid (lat latest) GRID_DEGREES in
      let lonCenter := roundToGrid (lon latest) GRID_DEGREES in
      let key := cellKeyOf latCenter lonCenter in
      let cell :=
        match obj_get key cellsMap with
        | Some c => c
        | None => {| key := key; cell_lat := latCenter; cell_lon := lonCenter;
                     balloonIds := [] |}
        end in
      obj_set key
        {| key := Weather.key cell; cell_lat := cell_lat cell; cell_lon := cell_lon cell;
           balloonIds := balloonIds cell ++ [id track] |}
        cellsMap
  end.

Definition clusterLatestPointsIntoCells (balloons : jsobj BalloonTrack) : list Cell :=
  obj_values (fold_left addToCell (obj_values balloons) []).

Definition weatherCacheKey (cell : Cell) : string :=
  "wx:" +:+ toFixed 1 (cell_lat cell) +:+ ":" +:+ toFixed 1 (cell_lon cell).

(** [typeof v === "number" ? v : null] on a property that may be missing *)
Definition numberOrNull (v : option JsVal) : option number :=
  match v with Some (JNum n) => Some n | _ => None end.

(** The reading built from a truthy [cw]. *)
Definition weatherOf (cw : JsVal) : BalloonWeather :=
  {| temperatureC := numberOrNull (js_prop "temperature" cw);
     windSpeedMs :=
       match js_prop "windspeed" cw with
       | Some (JNum n) => Some (num_div n lit_3_6)
       | _ => None
       end;
     windDirectionDeg := numberOrNull (js_prop "winddirection" cw) |}.

(** [items] from the parsed body; [None] when reading [data.current_weather]
    throws a TypeError ([data] is [null]). *)
Definition itemsOf (data : JsVal) : option (list JsVal) :=
  match data with
  | JArr items => Some items
  | JNull => None
  | _ =>
      match js_prop "current_weather" data with
      | Some (JArr cws) => Some (map (fun cw => JObj [("current_weather", cw)]) cws)
      | _ => Some [data]
      end
  end.

(** [item?.current_weather] where [item = items[idx]] *)
Definition currentWeatherAt (items : list JsVal) (idx : nat) : option JsVal :=
  match items !! idx with
  | None | Some JNull => None
  | Some item => js_prop "current_weather" item
  end.

(** The body of [cells.forEach((cell, idx) => ...)]. *)
Definition addItem (items : list JsVal)
    (result : gmap string BalloonWeather) (idx : nat) (cell : Cell)
    : gmap string BalloonWeather :=
  match currentWeatherAt items idx with
  | None => result
  | Some cw => if truthy cw then <[key cell := weatherOf cw]> result else result
  end.

(** What one attempt yields from the provider's reply: [Some result] when
    the function returns [result], [None] when the attempt is one that is
    retried (status 429 or 5xx, or an exception reaching the [catch]). *)
Definition attemptResult (cells : list Cell) (reply : MeteoReply)
    : option (gmap string BalloonWeather) :=
  match reply with
  | MeteoNetworkError => None
  | MeteoHttp status body =>
      if ((status =? 429) || (500 <=? status))%nat then None
      else if negb (res_ok status) then Some ∅
      else
        match body with
        | None => None
        | Some data =>
            match itemsOf data with
            | None => None
            | Some items => Some (foldi (addItem items) 0 cells ∅)
            end
        end
  end.

(** [await fetch(url)]: the request carries the cells' coordinates. *)
Definition fetchMeteo (cells : list Cell) (attempt : nat) (w : World)
    : MeteoReply * World :=
  (open_meteo env (requests_sent w),
   await env (EvFetch (map (fun c => toFixed 4 (cell_lat c)) cells)
                      (map (fun c => toFixed 4 (cell_lon c)) cells) attempt) 0 w).

Equations fetchOpenMeteoBatch (cells : list Cell) (attempt : nat) (w : World)
    : Outcome (gmap string BalloonWeather) * World
    by wf (maxRetries - attempt)%nat lt :=
fetchOpenMeteoBatch [] attempt w := (Ok ∅, w);
fetchOpenMeteoBatch (c :: cs) attempt w with fetchMeteo (c :: cs) attempt w := {
  | (reply, w1) with attemptResult (c :: cs) reply := {
    | Some result := (Ok result, w1);
    | None with lt_dec attempt maxRetries := {
      | left _ :=
          let delay := 500 * (Z.of_nat attempt + 1) in
          fetchOpenMeteoBatch (c :: cs) (S attempt) (await env (EvSleep delay) delay w1);
      | right _ := (Ok ∅, w1) } } }.
Next Obligation. unfold maxRetries in *. lia. Qed.

(** lib/redis.ts: [getRedisClient] returns [null] when [REDIS_URL] is unset
    or empty, the shared client otherwise. *)
Inductive Redis : Type :=
| RedisClient (url : string).

Definition getRedisClient : option Redis :=
  match REDIS_URL env with
  | None => None
  | Some url => if String.eqb url "" then None else Some (RedisClient url)
  end.

(** [Number(process.env.REDIS_WEATHER_TTL_SECONDS ?? "900")] *)
Definition ttlSecondsOf : number :=
  Number_ (JStr (default "900"%string (REDIS_WEATHER_TTL_SECONDS env))).

(** [await redis.mget(keys)] *)
Definition mget (keys : list string) : M (list (option string)) :=
  fun w =>
    match redis_mget env keys with
    | Some cached => (Ok cached, await env (EvMget keys) 0 w)
    | None => (Throw RedisRejected, await env (EvMget keys) 0 w)
    end.

(** The body of [cells.forEach((cell, idx) => ...)] over the cached
    strings: an absent, [null] or empty string and an unparsable one are
    misses. *)
Definition readCached (cached : list (option string))
    (acc : gmap string Reading * list Cell) (idx : nat) (cell : Cell)
    : gmap string Reading * list Cell :=
  let '(cellWeather, missingCells) := acc in
  match cached !! idx with
  | Some (Some raw) =>
      if String.eqb raw "" then (cellWeather, missingCells ++ [cell])
      else
        match JSON_parse raw with
        | Some wx => (<[key cell := FromCache wx]> cellWeather, missingCells)
        | None => (cellWeather, missingCells ++ [cell])
        end
  | _ => (cellWeather, missingCells ++ [cell])
  end.

(** Step 1 of [fetchWeatherForAllBalloons]: the cells found in the cache
    and the cells to fetch. *)
Definition lookupCache (redis : option Redis) (cells : list Cell)
    : M (gmap string Reading * list Cell) :=
  match redis with
  | None => ret (∅, cells)
  | Some _ =>
      let* cached := mget (map weatherCacheKey cells) in
      ret (foldi (readCached cached) 0 cells (∅, []))
  end.

(** The variables of the batch loop. *)
Record LoopState : Type := {
  requestsInWindow : Z;
  windowStart : Z;
  cellWeather : gmap string Reading
}.

(** The head of the loop body: the fixed-window rate limiter. *)
Definition rateLimit (st : LoopState) : M LoopState :=
  let* now := Date_now in
  let elapsed := now - windowStart st in
  if (MAX_REQUESTS_PER_WINDOW <=? requestsInWindow st) && (elapsed <? WINDOW_MS) then
    let waitMs := WINDOW_MS - elapsed in
    sleep env waitMs ;;
    let* now' := Date_now in
    ret {| requestsInWindow := 0; windowStart := now'; cellWeather := cellWeather st |}
  else if WINDOW_MS <=? elapsed then
    ret {| requestsInWindow := 0; windowStart := now; cellWeather := cellWeather st |}
  else ret st.

(** The writes queued on the pipeline for a batch. *)
Definition cacheWrites (batch : list Cell) (batchResult : gmap string BalloonWeather)
    : list (string * string) :=
  omap (fun cell =>
          match batchResult !! key cell with
          | Some wx => Some (weatherCacheKey cell, JSON_stringify wx)
          | None => None
          end) batch.

(** [await pipeline.exec()] *)
Definition pipelineExec (writes : list (string * string)) (ttlSeconds : number) : M unit :=
  fun w =>
    (if redis_exec env writes then Ok tt else Throw RedisRejected,
     await env (EvPipeline writes ttlSeconds) 0 w).

(** The [Object.entries(batchResult).forEach] of the loop body: every fetched
    reading replaces what [cellWeather] had for that key. *)
Definition mergeBatch (batchResult : gmap string BalloonWeather)
    (cellWeather : gmap string Reading) : gmap string Reading :=
  (FromProvider <$> batchResult) ∪ cellWeather.

(** The rest of the loop body: the batch is fetched, counted as one
    request, merged into [cellWeather] and written to the cache. *)
Definition issueBatch (redis : option Redis) (ttlSeconds : number)
    (batch : list Cell) (st1 : LoopState) : M LoopState :=
  let* batchResult := fetchOpenMeteoBatch batch 0 in
  let st2 := {| requestsInWindow := requestsInWindow st1 + 1;
                windowStart := windowStart st1;
                cellWeather := mergeBatch batchResult (cellWeather st1) |} in
  match redis with
  | Some _ =>
      if num_lt (S754_zero false) ttlSeconds
      then pipelineExec (cacheWrites batch batchResult) ttlSeconds ;; ret st2
      else ret st2
  | None => ret st2
  end.

(** One iteration of the batch loop. *)
Definition processBatch (redis : option Redis) (ttlSeconds : number)
    (st : LoopState) (batch : list Cell) : M LoopState :=
  let* st1 := rateLimit st in
  issueBatch redis ttlSeconds batch st1.

(** [missingCells.slice(i, i + WEATHER_BATCH_SIZE)] for
    [i = 0, WEATHER_BATCH_SIZE, ...] while [i < missingCells.length]. *)
Definition batchesOf (missingCells : list Cell) : list (list Cell) :=
  map (fun k => take WEATHER_BATCH_SIZE (drop (k * WEATHER_BATCH_SIZE) missingCells))
      (seq 0 ((length missingCells + (WEATHER_BATCH_SIZE - 1)) / WEATHER_BATCH_SIZE)%nat).

Fixpoint runBatches (redis : option Redis) (ttlSeconds : number)
    (batches : list (list Cell)) (st : LoopState) : M LoopState :=
  match batches with
  | [] => ret st
  | batch :: rest =>
      let* st' := processBatch redis ttlSeconds st batch in
      runBatches redis ttlSeconds rest st'
  end.

(** Step 3: the reading of a cell goes to every balloon of the cell. *)
Definition fanOutCell (cellWeather : gmap string Reading)
    (latestWeather : gmap string Reading) (cell : Cell) : gmap string Reading :=
  match cellWeather !! key cell with
  | None => latestWeather
  | Some wx =>
      if reading_truthy wx
      then fold_left (fun lw balloonId => <[balloonId := wx]> lw)
             (balloonIds cell) latestWeather
      else latestWeather
  end.

Definition fanOut (cells : list Cell) (cellWeather : gmap string Reading)
    : gmap string Reading :=
  fold_left (fanOutCell cellWeather) cells ∅.

(** Steps 1 and 2 of [fetchWeatherForAllBalloons]: the cache lookup, then the
    batch loop over the cells it missed. *)
Definition resolveCells (cells : list Cell) : M LoopState :=
  let redis := getRedisClient in
  let ttlSeconds := ttlSecondsOf in
  let* looked := lookupCache redis cells in
  let* start := Date_now in
  runBatches redis ttlSeconds (batchesOf (snd looked))
    {| requestsInWindow := 0; windowStart := start; cellWeather := fst looked |}.

Definition fetchWeatherForAllBalloons (balloons : jsobj BalloonTrack)
    : M (gmap string Reading) :=
  let cells := clusterLatestPointsIntoCells balloons in
  let* st := resolveCells cells in
  ret (fanOut cells (cellWeather st)).

(** The route handler. *)
Record Payload : Type := {
  generatedAt : Z;
  payload_points : list BalloonPoint;
  payload_balloons : jsobj BalloonTrack;
  latestWeather : gmap string Reading
}.

Inductive HttpResponse : Type :=
| Response200 (payload : Payload)
| Response500 (error : string).

Definition GET (treasure : nat -> TreasureReply) (w : World) : HttpResponse * World :=
  let balloons := GET_balloons (fun _ => clock w) treasure in
  match fetchWeatherForAllBalloons balloons w with
  | (Ok latestWeather, w') =>
      (Response200
         {| generatedAt := clock w';
            payload_points := concat (map points (obj_values balloons));
            payload_balloons := balloons;
            latestWeather := latestWeather |}, w')
  | (Throw _, w') => (Response500 "Failed to build balloon history", w')
  end.

End WeatherFetcher.
End Weather.

(** ** lib/weather.ts: one provider request per balloon *)

Module LibWeather.

Definition MAX_BALLOONS_WITH_WEATHER : nat := 50.

Definition nullWeather : BalloonWeather :=
  {| temperatureC := None; windSpeedMs := None; windDirectionDeg := None |}.

(** [fetchWeatherForCoord] as a function of the provider's reply; [None] is
    [null].  The request asks for m/s, so the wind speed is taken as is. *)
Definition fetchWeatherForCoord (reply : MeteoReply) : option BalloonWeather :=
  match reply with
  | MeteoNetworkError => None
  | MeteoHttp status body =>
      if negb (res_ok status) then None
      else
        match body with
        | None | Some JNull => None
        | Some data =>
            match js_prop "current_weather" data with
            | None => None
            | Some cw =>
                if truthy cw
                then Some {| temperatureC := Weather.numberOrNull (js_prop "temperature" cw);
                             windSpeedMs := Weather.numberOrNull (js_prop "windspeed" cw);
                             windDirectionDeg :=
                               Weather.numberOrNull (js_prop "winddirection" cw) |}
                else None
            end
        end
  end.

(** The property names that a plain object inherits from
    [Object.prototype]: the members of ECMAScript and of its Annex B.  Read
    on a plain object each of them gives a function, or for [__proto__] the
    prototype itself: a truthy value. *)
Definition Object_prototype_names : list string :=
  [ "constructor"; "hasOwnProperty"; "isPrototypeOf"; "propertyIsEnumerable";
    "toLocaleString"; "toString"; "valueOf"; "__proto__";
    "__defineGetter__"; "__defineSetter__"; "__lookupGetter__"; "__lookupSetter__" ]%string.

Definition inherited (k : string) : bool :=
  existsb (String.eqb k) Object_prototype_names.

(** The object [results], created by [{}]: its own properties, and the
    object that an assignment to [__proto__] has put in front of
    [Object.prototype], if any. *)
Record ResultsObject : Type := {
  own : gmap string BalloonWeather;
  proto : option BalloonWeather
}.

Definition emptyObject : ResultsObject := {| own := ∅; proto := None |}.

(** [results[k] = v] for an object [v]: an own property is created or
    updated, except for [__proto__], whose inherited setter replaces the
    prototype of [results] and creates no property. *)
Definition assign (k : string) (v : BalloonWeather) (o : ResultsObject) : ResultsObject :=
  if String.eqb k "__proto__"
  then {| own := own o; proto := Some v |}
  else {| own := <[k := v]> (own o); proto := proto o |}.

(** The own property [k] of a reading object; [None] when it has none. *)
Definition readingField (k : string) (wx : BalloonWeather) : option (option number) :=
  if String.eqb k "temperatureC" then Some (temperatureC wx)
  else if String.eqb k "windSpeedMs" then Some (windSpeedMs wx)
  else if String.eqb k "windDirectionDeg" then Some (windDirectionDeg wx)
  else None.

(** Whether [results[k]] is truthy: an own property is an object; a name
    that is not an own property is looked up along the prototype chain. *)
Definition hasTruthy (o : ResultsObject) (k : string) : bool :=
  match own o !! k with
  | Some _ => true
  | None =>
      match proto o with
      | Some wx =>
          match readingField k wx with
          | Some (Some n) => num_truthy n
          | Some None => false
          | None => inherited k
          end
      | None => inherited k
      end
  end.

(** What [fetchWeatherForBalloons] returns, and the coordinates it asked
    the provider about. *)
Record WeatherLookup : Type := {
  results : ResultsObject;
  queried : list (number * number)
}.

(** The callback of [toQuery.map]: [replies k] answers the request made for
    [toQuery[k]].  The callbacks write distinct keys of [results], so the
    order in which the answers arrive does not show in the object. *)
Definition storeQueried (replies : nat -> MeteoReply)
    (results : ResultsObject) (k : nat) (entry : string * (number * number))
    : ResultsObject :=
  assign (fst entry) (default nullWeather (fetchWeatherForCoord (replies k))) results.

(** The body of [for (const [balloonId] of toSkip)]:
    [if (!results[balloonId]) results[balloonId] = {...}]. *)
Definition storeSkipped (results : ResultsObject)
    (entry : string * (number * number)) : ResultsObject :=
  if hasTruthy results (fst entry) then results
  else assign (fst entry) nullWeather results.

Definition fetchWeatherForBalloons (replies : nat -> MeteoReply)
    (latestPositions : jsobj (number * number)) : WeatherLookup :=
  let entries := latestPositions in
  let toQuery := take MAX_BALLOONS_WITH_WEATHER entries in
  let toSkip := drop MAX_BALLOONS_WITH_WEATHER entries in
  let results := foldi (storeQueried replies) 0 toQuery emptyObject in
  {| results := fold_left storeSkipped toSkip results;
     queried := map snd toQuery |}.

(** lib/windborne.ts: [buildBalloonHistoryWithWeather]. *)
Definition buildBalloonHistoryWithWeather (now : nat -> Z)
    (snapshots : list (option JsVal)) (replies : nat -> MeteoReply)
    : Windborne.BalloonHistoryResponse * WeatherLookup :=
  let history := Windborne.buildBalloonHistory now snapshots in
  let latestPositions := Windborne.getLatestPositions history in
  (history, fetchWeatherForBalloons replies latestPositions).

End LibWeather.

(** ** A runtime for concrete runs

    An implementation of [JsBuiltins] on which the pipeline can be evaluated.
    [toFixed] is the exact decimal rendering of ECMAScript for magnitudes
    below 10^21 (above, where ECMAScript switches to exponent notation, it
    keeps printing digits).  The concrete runs below feed numeric records
    and an empty cache, so the conversions from strings are not exercised:
    here [Number] maps [null] and the booleans as ECMAScript does and
    everything else to NaN, and [JSON.parse] accepts only ["null"]. *)

Module Runtime.

Definition digitsOf (n : Z) : string :=
  NilEmpty.string_of_uint (N.to_uint (Z.to_N n)).

Fixpoint zeros (k : nat) : string :=
  match k with O => "" | S k' => "0" +:+ zeros k' end.

(** [n] printed with a point before its last [d] digits. *)
Definition pointed (d : nat) (n : Z) : string :=
  let s := digitsOf n in
  let s := zeros (S d - String.length s) +:+ s in
  let cut := (String.length s - d)%nat in
  if (d =? 0)%nat then s
  else substring 0 cut s +:+ "." +:+ substring cut d s.

(** The integer closest to [m * 2^e * 10^d], ties upwards. *)
Definition scaled (d : nat) (m : positive) (e : Z) : Z :=
  let k := Zpos m * 10 ^ Z.of_nat d in
  if 0 <=? e then k * 2 ^ e
  else (2 * k + 2 ^ (- e)) / 2 ^ (1 - e).

Definition toFixed_impl (d : nat) (x : number) : string :=
  match x with
  | S754_nan => "NaN"
  | S754_infinity false => "Infinity"
  | S754_infinity true => "-Infinity"
  | S754_zero _ => pointed d 0
  | S754_finite s m e => (if s then "-" else "") +:+ pointed d (scaled d m e)
  end.

Definition Number_impl (v : JsVal) : number :=
  match v with
  | JNum n => n
  | JNull | JBool false => S754_zero false
  | JBool true => num_of_Z 1
  | _ => S754_nan
  end.

Definition JSON_parse_impl (s : string) : option JsVal :=
  if String.eqb s "null" then Some JNull else None.

Definition quote : string := String (Ascii.ascii_of_nat 34) EmptyString.

Definition field_impl (name : string) (v : option number) : string :=
  quote +:+ name +:+ quote +:+ ":" +:+
  match v with
  | None => "null"
  | Some n => toFixed_impl 6 n
  end.

Definition JSON_stringify_impl (wx : BalloonWeather) : string :=
  "{" +:+ field_impl "temperatureC" (temperatureC wx) +:+ ","
      +:+ field_impl "windSpeedMs" (windSpeedMs wx) +:+ ","
      +:+ field_impl "windDirectionDeg" (windDirectionDeg wx) +:+ "}".

#[export] Instance builtins : JsBuiltins := {|
  Number_ := Number_impl;
  toFixed := toFixed_impl;
  JSON_parse := JSON_parse_impl;
  JSON_stringify := JSON_stringify_impl
|}.

End Runtime.

(** ** Concrete inputs *)

Module Inputs.

(** The decimal [a/10] as the closest number, as a literal denotes it. *)
Definition tenths (a : Z) : number := num_div (num_of_Z a) (num_of_Z 10).

(** Snapshot hour 0 of the specification:
    [[[10.2, 20.5, 5.0], [91, 20, 5], ["bad"]]]. *)
Definition mixedSnapshot : list JsVal :=
  [ JArr [JNum (tenths 102); JNum (tenths 205); JNum (num_of_Z 5)];
    JArr [JNum (num_of_Z 91); JNum (num_of_Z 20); JNum (num_of_Z 5)];
    JArr [JStr "bad"] ].

Definition goodPoint (ts : Z) : BalloonPoint :=
  {| balloonId := "balloon-0"; timestamp := ts;
     lat := tenths 102; lon := tenths 205; alt := Some (num_of_Z 5);
     snapshotIndex := 0 |}.

Definition outOfRangePoint (ts : Z) : BalloonPoint :=
  {| balloonId := "balloon-1"; timestamp := ts;
     lat := num_of_Z 91; lon := num_of_Z 20; alt := Some (num_of_Z 5);
     snapshotIndex := 0 |}.

(** The upstream fails for hour 0 and serves [[[10, 20, 5]]] for hour 1;
    every other hour fails as well. *)
Definition onlyHourOne (h : nat) : Route.TreasureReply :=
  match h with
  | 1%nat => Route.TreasureHttp 200
               (Some (JArr [JArr [JNum (num_of_Z 10); JNum (num_of_Z 20);
                                  JNum (num_of_Z 5)]]))
  | _ => Route.TreasureNetworkError
  end.

Definition hourOnePoint (ts : Z) (index : nat) : BalloonPoint :=
  {| balloonId := "balloon-0"; timestamp := ts;
     lat := num_of_Z 10; lon := num_of_Z 20; alt := Some (num_of_Z 5);
     snapshotIndex := index |}.

(** The reading the batch fetcher builds from [currentWeather] below. *)
Definition convertedReading : BalloonWeather :=
  {| temperatureC := Some (num_of_Z 20);
     windSpeedMs := Some (num_of_Z 10);
     windDirectionDeg := Some (num_of_Z 90) |}.

(** A provider answer for one point: 20 degrees, wind 36 (km/h unless the
    request asked otherwise) from the east. *)
Definition currentWeather : JsVal :=
  JObj [("temperature", JNum (num_of_Z 20));
        ("windspeed", JNum (num_of_Z 36));
        ("winddirection", JNum (num_of_Z 90))].

Definition pointAnswer : JsVal := JObj [("current_weather", currentWeather)].

(** Fifty-one balloons [balloon-0 .. balloon-50] along the equator. *)
Definition fiftyOne : jsobj (number * number) :=
  map (fun i => (balloon_name i, (S754_zero false, num_of_Z (Z.of_nat i)))) (seq 0 51).

(** A cell around (10, 20) holding two balloons. *)
Definition cellA : Weather.Cell :=
  {| Weather.key := "10.0,20.0";
     Weather.cell_lat := num_of_Z 10;
     Weather.cell_lon := num_of_Z 20;
     Weather.balloonIds := ["balloon-0"; "balloon-1"]%string |}.

(** The start of a request: the clock at 0, nothing done yet. *)
Definition freshWorld : World := {| clock := 0; trace := [] |}.

(** No cache configured; the provider answers every request with HTTP 429;
    timers and requests take their nominal time. *)
Definition rateLimitedProvider : Env :=
  {| REDIS_URL := None;
     REDIS_WEATHER_TTL_SECONDS := None;
     redis_mget := fun _ => None;
     redis_exec := fun _ => false;
     open_meteo := fun _ => MeteoHttp 429 None;
     latency := fun _ => 0 |}.

(** The loop variables when the window opened at time 0 is used up. *)
Definition exhausted : Weather.LoopState :=
  {| Weather.requestsInWindow := 500; Weather.windowStart := 0;
     Weather.cellWeather := ∅ |}.

(** The upstream serves [[[10.2, 20.4, 5.0], [10.4, 20.1, 5.0]]] for hour 0
    and fails for the other hours: two balloons in the cell (10, 20). *)
Definition twoBalloons (h : nat) : Route.TreasureReply :=
  match h with
  | O => Route.TreasureHttp 200
           (Some (JArr [JArr [JNum (tenths 102); JNum (tenths 204); JNum (num_of_Z 5)];
                        JArr [JNum (tenths 104); JNum (tenths 201); JNum (num_of_Z 5)]]))
  | _ => Route.TreasureNetworkError
  end.


(** No cache is configured; the provider answers as above. *)
Definition noCache : Env :=
  {| REDIS_URL := None;
     REDIS_WEATHER_TTL_SECONDS := None;
     redis_mget := fun _ => None;
     redis_exec := fun _ => false;
     open_meteo := fun _ => MeteoHttp 200 (Some (JArr [pointAnswer]));
     latency := fun _ => 0 |}.

(** The response to [twoBalloons] at time 0 when the provider's one reading
    reaches both balloons, and the handler's log of it. *)
Definition sharedPayload : Weather.Payload :=
  let balloons := Route.GET_balloons (H := Runtime.builtins) (fun _ => 0) twoBalloons in
  {| Weather.generatedAt := 0;
     Weather.payload_points := concat (map points (obj_values balloons));
     Weather.payload_balloons := balloons;
     Weather.latestWeather :=
       {[ "balloon-0"%string := Weather.FromProvider convertedReading;
          "balloon-1"%string := Weather.FromProvider convertedReading ]} |}.

Definition oneFetch : World :=
  {| clock := 0; trace := [EvFetch ["10.0000"%string] ["20.0000"%string] 0] |}.

(** A grid size of 1.1 and a position on the integer 4953959590107113. *)
Definition grid_1_1 : number := tenths 11.
Definition farEast : number := num_of_Z 4953959590107113.

End Inputs.

(** ** Vocabulary of the properties *)

Section Vocabulary.
Import Weather Route.
Context `{JsBuiltins}.

(** A stored track carries its key as [id], has a point, and its points
    carry the same id. *)
Definition track_ok (kv : string * BalloonTrack) : Prop :=
  id (snd kv) = fst kv
  /\ points (snd kv) <> []
  /\ Forall (fun p => balloonId p = fst kv) (points (snd kv)).

(** The order a sort by [key] establishes. *)
Definition key_le {A : Type} (key : A -> Z) (x y : A) : Prop := key x <= key y.


(** The log entry of a request for [cells]. *)
Definition fetchEvent (cells : list Cell) (attempt : nat) : Event :=
  EvFetch (map (fun c => toFixed 4 (cell_lat c)) cells)
          (map (fun c => toFixed 4 (cell_lon c)) cells) attempt.

(** What a call logs when every attempt from [attempt] on is retried, with
    [remaining] retries left. *)
Fixpoint retryEvents (cells : list Cell) (attempt remaining : nat) : list Event :=
  match remaining with
  | O => [fetchEvent cells attempt]
  | S r =>
      fetchEvent cells attempt
        :: EvSleep (500 * (Z.of_nat attempt + 1))
        :: retryEvents cells (S attempt) r
  end.


Definition fetchesOf (evs : list Event) : nat :=
  length (List.filter (fun ev => match ev with EvFetch _ _ _ => true | _ => false end) evs).

(** The commands sent to the cache. *)
Definition isRedisEvent (ev : Event) : bool :=
  match ev with
  | EvMget _ | EvPipeline _ _ => true
  | _ => false
  end.

Definition notRedis (ev : Event) : Prop := isRedisEvent ev = false.

(** A run from [w] to [w'] that only added events satisfying [P]. *)
Definition extends_with (P : Event -> Prop) (w w' : World) : Prop :=
  exists evs, trace w' = trace w ++ evs /\ Forall P evs.

(** No cache service is configured: [REDIS_URL] is unset or empty. *)
Definition cacheNotConfigured (env : Env) : Prop :=
  REDIS_URL env = None \/ REDIS_URL env = Some ""%string.

(** The key of the cell that a track's latest point ([points[0]]) rounds
    to; [None] for a track without points. *)
Definition latestCellKey (track : BalloonTrack) : option string :=
  match points track with
  | [] => None
  | latest :: _ =>
      Some (cellKeyOf (roundToGrid (lat latest) GRID_DEGREES)
                      (roundToGrid (lon latest) GRID_DEGREES))
  end.

(** The reading the fan-out finds for a cell key: an entry of [cellWeather]
    that is truthy. *)
Definition resolved (cellWeather : gmap string Reading) (k : string) : option Reading :=
  match cellWeather !! k with
  | Some wx => if reading_truthy wx then Some wx else None
  | None => None
  end.

(** The balloon ids filed under a key of [cellsMap]. *)
Definition members (cellsMap : jsobj Cell) (k : string) : list string :=
  match obj_get k cellsMap with
  | Some c => balloonIds c
  | None => []
  end.

Definition inCell (k : string) (track : BalloonTrack) : bool :=
  bool_decide (latestCellKey track = Some k).

(** Every cell of [cellsMap] is stored under its own key. *)
Definition keyed (cellsMap : jsobj Cell) : Prop :=
  Forall (fun kv => key (snd kv) = fst kv) cellsMap.

(** A mantissa with no bits shifted out yet. *)
Definition exact_record (m : Z) : shr_record :=
  {| shr_m := m; shr_r := false; shr_s := false |}.

(** The number for the integer [p] or [-p] of at most 53 bits. *)
Definition int_float (sgn : bool) (p : positive) : number :=
  match 53 - Zpos (digits2_pos p) with
  | Zpos k => S754_finite sgn (Pos.iter xO p k) (- Zpos k)
  | _ => S754_finite sgn p 0
  end.

(** Ids that are not names inherited from [Object.prototype]; every id
    [balloon-<n>] is one. *)
Definition ordinary {V} (l : jsobj V) : Prop :=
  Forall (fun k => LibWeather.inherited k = false) (obj_keys l).

(** What the two loops of [fetchWeatherForBalloons] do to the own properties
    of [results] when the ids are ordinary. *)
Definition putQueried (replies : nat -> MeteoReply)
    (m : gmap string BalloonWeather) (k : nat) (entry : string * (number * number))
    : gmap string BalloonWeather :=
  <[fst entry := default LibWeather.nullWeather
                   (LibWeather.fetchWeatherForCoord (replies k))]> m.

Definition putSkipped (m : gmap string BalloonWeather)
    (entry : string * (number * number)) : gmap string BalloonWeather :=
  match m !! fst entry with
  | Some _ => m
  | None => <[fst entry := LibWeather.nullWeather]> m
  end.

End Vocabulary.

(** ** Vocabulary of the further properties *)

Section TrackVocabulary.
Import Route.
Context `{JsBuiltins}.

(** The point that [buildBalloonHistory] of route.ts makes of the record
    [entry] at position [idx] of the snapshot of [hour]; [None] for a record
    it skips. *)
Definition recordPoint (timestamp : Z) (hour idx : nat) (entry : JsVal)
    : option BalloonPoint :=
  match entry with
  | JArr (latRaw :: lonRaw :: rest) =>
      if Number_isNaN (toNum latRaw) || Number_isNaN (toNum lonRaw)
         || negb (Number_isFinite (toNum latRaw)) || negb (Number_isFinite (toNum lonRaw))
      then None
      else Some {| balloonId := balloon_name idx;
                   timestamp := timestamp;
                   lat := toNum latRaw;
                   lon := toNum lonRaw;
                   alt := match rest with
                          | [] | JNull :: _ => None
                          | altRaw :: _ =>
                              if Number_isFinite (toNum altRaw)
                              then Some (toNum altRaw) else None
                          end;
                   snapshotIndex := hour |}
  | _ => None
  end.

(** The points of the records of one snapshot, from position [idx] on, and
    of the snapshots from [hour] on, in the order the loops visit them. *)
Fixpoint pointsFrom (timestamp : Z) (hour idx : nat) (entries : list JsVal)
    : list BalloonPoint :=
  match entries with
  | [] => []
  | entry :: rest =>
      option_list (recordPoint timestamp hour idx entry)
        ++ pointsFrom timestamp hour (S idx) rest
  end.

Fixpoint allPointsFrom (now : nat -> Z) (hour : nat)
    (snapshots : list (option (list JsVal))) : list BalloonPoint :=
  match snapshots with
  | [] => []
  | snapshot :: rest =>
      match snapshot with
      | None => []
      | Some entries =>
          pointsFrom (now hour - Z.of_nat hour * 60 * 60 * 1000) hour 0 entries
      end ++ allPointsFrom now (S hour) rest
  end.

(** [Object.values(balloons).flatMap((track) => track.points)] *)
Definition flatPoints (balloons : jsobj BalloonTrack) : list BalloonPoint :=
  concat (map points (obj_values balloons)).

End TrackVocabulary.

(** While the records of [hour] are read up to position [idx]: the points
    of a track are in strictly ascending order of [snapshotIndex], all
    before [hour] except for a point of [hour] itself in the track of a record
    already read. *)
Definition track_upto (hour idx : nat) (kv : string * BalloonTrack) : Prop :=
  StronglySorted lt (map snapshotIndex (points (snd kv)))
  /\ Forall (fun p => (snapshotIndex p < hour)%nat
                      \/ (snapshotIndex p = hour
                          /\ exists j, (j < idx)%nat /\ fst kv = balloon_name j))
            (points (snd kv)).

(** ** Further inputs *)

Module MoreInputs.

(** No cache is configured; the provider answers every request with HTTP
    404. *)
Definition notFound : Env :=
  {| REDIS_URL := None;
     REDIS_WEATHER_TTL_SECONDS := None;
     redis_mget := fun _ => None;
     redis_exec := fun _ => false;
     open_meteo := fun _ => MeteoHttp 404 None;
     latency := fun _ => 0 |}.

(** A cache is configured and answers every bulk read with the string
    [null] for each key; the provider answers each request with one
    reading. *)
Definition cachedNull : Env :=
  {| REDIS_URL := Some "redis://cache:6379"%string;
     REDIS_WEATHER_TTL_SECONDS := None;
     redis_mget := fun keys => Some (map (fun _ => Some "null"%string) keys);
     redis_exec := fun _ => true;
     open_meteo := fun _ => MeteoHttp 200 (Some (JArr [Inputs.pointAnswer]));
     latency := fun _ => 0 |}.

(** The upstream fails for every hour. *)
Definition noSnapshots (h : nat) : Route.TreasureReply := Route.TreasureNetworkError.

Definition cacheClient : Weather.Redis := Weather.RedisClient "redis://cache:6379".

(** The loop variables at the start of a request at time 0, and at the end
    of one that found the string [null] cached for [cellA]. *)
Definition loopStart : Weather.LoopState :=
  {| Weather.requestsInWindow := 0; Weather.windowStart := 0;
     Weather.cellWeather := ∅ |}.

Definition servedFromCache : Weather.LoopState :=
  {| Weather.requestsInWindow := 0; Weather.windowStart := 0;
     Weather.cellWeather := {[ "10.0,20.0"%string := Weather.FromCache JNull ]} |}.

Definition oneBulkRead : World :=
  {| clock := 0; trace := [EvMget ["wx:10.0:20.0"%string]] |}.

(** The cached reading of the cell (10, 20) when the provider's answer
    [currentWeather] was stored for it. *)
Definition cellReadings : gmap string Weather.Reading :=
  {[ "10.0,20.0"%string := Weather.FromProvider Inputs.convertedReading ]}.

(** The loop variables after one batch for [cellA] was answered. *)
Definition afterOneBatch : Weather.LoopState :=
  {| Weather.requestsInWindow := 1; Weather.windowStart := 0;
     Weather.cellWeather := cellReadings |}.

(** The first fifty of [fiftyOne], then a balloon whose id is [toString]. *)
Definition fiftyAndToString : jsobj (number * number) :=
  take 50 Inputs.fiftyOne ++ [("toString"%string, (S754_zero false, S754_zero false))].

(** A clock that advances by a second from one reading to the next. *)
Definition tickingClock (reading : nat) : Z := 1000 * Z.of_nat reading.

End MoreInputs.

Section CacheVocabulary.
Import Weather.
Context `{JsBuiltins}.

(** What the cache holds for the cell at position [idx] of the lookup, if
    it can be used: the parsed string; [None] for an absent, [null], empty
    or unparsable one. *)
Definition cachedValue (cached : list (option string)) (idx : nat) : option JsVal :=
  match cached !! idx with
  | Some (Some raw) => if String.eqb raw "" then None else JSON_parse raw
  | _ => None
  end.

(** A command to the cache that the cache rejects. *)
Definition rejected (env : Env) (ev : Event) : bool :=
  match ev with
  | EvMget keys => bool_decide (redis_mget env keys = None)
  | EvPipeline writes _ => negb (redis_exec env writes)
  | _ => false
  end.

End CacheVocabulary.

(** The log of a run that stops at the first rejected cache command: no
    command of a completed run was rejected; a failed run ends with the
    rejected command. *)
Definition stopsAtRejection (env : Env) (failed : bool) (evs : list Event) : Prop :=
  if failed
  then exists evs0 ev, evs = evs0 ++ [ev] /\ rejected env ev = true
                       /\ Forall (fun ev => rejected env ev = false) evs0
  else Forall (fun ev => rejected env ev = false) evs.

Definition failed {A} (out : Outcome A) : bool :=
  match out with Ok _ => false | Throw _ => true end.

Section HistoryVocabulary.
Import Windborne.

(** [a <= b] on numbers; false when either is NaN. *)
Definition num_le : number -> number -> bool := SFleb.

(** A position on the globe: latitude within -90..90 and longitude within
    -180..180.  NaN is in no range. *)
Definition inRange (p : BalloonPoint) : Prop :=
  num_le (neg n90) (lat p) = true /\ num_le (lat p) n90 = true
  /\ num_le (neg n180) (lon p) = true /\ num_le (lon p) n180 = true.

(** A record as [JSON.parse] can deliver it: a number in it is never NaN. *)
Definition parsedRecord (entry : JsVal) : Prop :=
  match entry with
  | JArr (JNum la :: JNum lo :: _) => Number_isNaN la = false /\ Number_isNaN lo = false
  | _ => True
  end.

(** A snapshot body as [JSON.parse] can deliver it. *)
Definition parsedSnapshot (raw : JsVal) : Prop :=
  match raw with
  | JArr entries => Forall parsedRecord entries
  | _ => True
  end.

(** The points filed under [k], none when there is no such track. *)
Definition trackPoints (balloons : jsobj BalloonTrack) (k : string) : list BalloonPoint :=
  match obj_get k balloons with
  | Some t => points t
  | None => []
  end.

(** The points of balloon [k] among [l], in the order of [l]. *)
Definition pointsOf (k : string) (l : list BalloonPoint) : list BalloonPoint :=
  List.filter (fun p => String.eqb (balloonId p) k) l.

End HistoryVocabulary.

(** ** lib/redis.ts: the module-level client

    [let client: Redis | null = null] lives as long as the server process;
    [getRedisClient] reads [process.env.REDIS_URL] at every call.  A client
    remembers the URL it was constructed with. *)

Module RedisModule.

(** The module variable [client]. *)
Definition ModuleState : Type := option Weather.Redis.

Definition initial : ModuleState := None.

(** [getRedisClient()] with [url] the value of [REDIS_URL] at the call:
    what it returns and the module variable afterwards. *)
Definition getRedisClient (url : option string) (client : ModuleState)
    : option Weather.Redis * ModuleState :=
  match url with
  | None => (None, client)
  | Some u =>
      if String.eqb u "" then (None, client)
      else
        match client with
        | Some c => (Some c, client)
        | None => (Some (Weather.RedisClient u), Some (Weather.RedisClient u))
        end
  end.

(** A sequence of calls, one per element of [urls]. *)
Fixpoint calls (urls : list (option string)) (client : ModuleState)
    : list (option Weather.Redis) * ModuleState :=
  match urls with
  | [] => ([], client)
  | url :: rest =>
      let '(r, client1) := getRedisClient url client in
      let '(rs, client2) := calls rest client1 in
      (r :: rs, client2)
  end.

(** Whether [REDIS_URL] holds a usable value. *)
Definition configured (url : option string) : bool :=
  match url with
  | None => false
  | Some u => negb (String.eqb u "")
  end.

End RedisModule.

Section ComparisonVocabulary.

(** What identifies a point when the two track builders are compared: the
    balloon, the place, the snapshot and the time. *)
Definition placeOf (p : BalloonPoint) : string * number * number * nat * Z :=
  (balloonId p, lat p, lon p, snapshotIndex p, timestamp p).

End ComparisonVocabulary.

Section AnswerVocabulary.
Import Weather.
Context `{JsBuiltins}.

(** A provider answer that has a reading for each of the first [n]
    positions of a request: a success status and a body whose items up to
    [n] each carry a truthy [current_weather]. *)
Definition answersFirst (n : nat) (reply : MeteoReply) : Prop :=
  exists status data items,
    reply = MeteoHttp status (Some data)
    /\ res_ok status = true
    /\ itemsOf data = Some items
    /\ forall j, (j < n)%nat ->
         exists cw, currentWeatherAt items j = Some cw /\ truthy cw = true.

End AnswerVocabulary.

(** * Properties *)

(** ** Dictionaries *)

Section JsObjFacts.
Context {V : Type}.
Implicit Types (o : jsobj V) (k : string) (v : V).

Lemma obj_get_In k o v : obj_get k o = Some v -> In (k, v) o.
Proof.
  unfold obj_get. induction o as [|[k' v'] o IH]; simpl; [discriminate|].
  destruct (String.eqb k k') eqn:E.
  - apply String.eqb_eq in E. intros [= ->]. left. by subst.
  - intros Hg. right. by apply IH.
Qed.

Lemma obj_set_Forall (P : string * V -> Prop) k v o :
  List.Forall P o -> P (k, v) -> List.Forall P (obj_set k v o).
Proof.
  intros Ho Hkv. induction Ho as [|[k' v'] o Hx Ho IH]; simpl.
  - by constructor.
  - destruct (String.eqb k k') eqn:E.
    + apply String.eqb_eq in E. subst. by constructor.
    + by constructor.
Qed.

Lemma obj_get_set_eq k v o : obj_get k (obj_set k v o) = Some v.
Proof.
  unfold obj_get. induction o as [|[k' v'] o IH]; simpl.
  - by rewrite String.eqb_refl.
  - destruct (String.eqb k k') eqn:E; simpl; by rewrite E.
Qed.

Lemma obj_get_set_ne k k' v o : k <> k' -> obj_get k' (obj_set k v o) = obj_get k' o.
Proof.
  unfold obj_get. intros Hne. induction o as [|[k0 v0] o IH]; simpl.
  - destruct (String.eqb k' k) eqn:E; [|done].
    apply String.eqb_eq in E. by subst.
  - destruct (String.eqb k k0) eqn:E; simpl.
    + apply String.eqb_eq in E. subst k0.
      destruct (String.eqb k' k) eqn:E'; [|done].
      apply String.eqb_eq in E'. by subst.
    + by rewrite IH.
Qed.

Lemma obj_keys_set k v o :
  obj_keys (obj_set k v o) =
    match obj_get k o with Some _ => obj_keys o | None => obj_keys o ++ [k] end.
Proof.
  unfold obj_keys, obj_get. induction o as [|[k' v'] o IH]; simpl; [done|].
  destruct (String.eqb k k') eqn:E; simpl; [done|].
  rewrite IH. by destruct (assoc_get k o).
Qed.

Lemma obj_get_None_keys k o : obj_get k o = None <-> ~ In k (obj_keys o).
Proof.
  unfold obj_keys, obj_get. induction o as [|[k' v'] o IH]; simpl; [tauto|].
  destruct (String.eqb k k') eqn:E.
  - apply String.eqb_eq in E. subst. split; [discriminate|tauto].
  - apply String.eqb_neq in E. rewrite IH. split; [intros ? [?|?]|]; tauto || congruence.
Qed.

Lemma obj_set_NoDup k v o : NoDup (obj_keys o) -> NoDup (obj_keys (obj_set k v o)).
Proof.
  intros Hnd. rewrite obj_keys_set. destruct (obj_get k o) eqn:E; [done|].
  apply NoDup_app. split_and!; [done| |apply NoDup_singleton].
  intros x Hx ->%list_elem_of_singleton.
  apply obj_get_None_keys in E. apply E. by apply list_elem_of_In.
Qed.

End JsObjFacts.

(** [foldi] keeps an invariant that each step keeps. *)
Lemma foldi_invariant {A St} (Inv : St -> Prop) (f : St -> nat -> A -> St) l :
  (forall s i x, Inv s -> Inv (f s i x)) ->
  forall i s, Inv s -> Inv (foldi f i l s).
Proof.
  intros Hstep. induction l as [|x l IH]; simpl; [done|].
  intros i s Hs. apply IH. by apply Hstep.
Qed.

(** ** Sorting *)

Lemma StronglySorted_weaken {A} (R R' : A -> A -> Prop) (l : list A) :
  (forall x y, R x y -> R' x y) -> StronglySorted R l -> StronglySorted R' l.
Proof.
  intros HR. induction 1 as [|x l Hl IH Hx]; constructor; [done|].
  eapply List.Forall_impl; [|exact Hx]. intros y. apply HR.
Qed.

Section ArraySortFacts.
Context {A : Type} (key : A -> Z).

Lemma sort_insert_perm x l : Permutation (x :: l) (sort_insert key x l).
Proof.
  induction l as [|y l IH]; simpl; [done|].
  destruct (key y <=? key x); [|done].
  rewrite Permutation_swap. by constructor.
Qed.

Lemma sort_insert_sorted x l :
  StronglySorted (key_le key) l -> StronglySorted (key_le key) (sort_insert key x l).
Proof.
  induction 1 as [|y l Hl IH Hy]; simpl.
  - repeat constructor.
  - destruct (key y <=? key x) eqn:E.
    + constructor; [done|].
      rewrite <- sort_insert_perm. constructor; [|done].
      unfold key_le. lia.
    + constructor; [by constructor|].
      constructor; [unfold key_le; lia|].
      eapply List.Forall_impl; [|exact Hy]. unfold key_le. intros z. simpl. lia.
Qed.

Lemma Array_sort_acc acc l :
  StronglySorted (key_le key) acc ->
  StronglySorted (key_le key) (fold_left (fun acc x => sort_insert key x acc) l acc)
  /\ Permutation (acc ++ l) (fold_left (fun acc x => sort_insert key x acc) l acc).
Proof.
  revert acc. induction l as [|x l IH]; simpl; intros acc Hacc.
  - by rewrite app_nil_r.
  - destruct (IH (sort_insert key x acc)) as [Hs Hp]; [by apply sort_insert_sorted|].
    split; [done|]. rewrite <- Hp, <- sort_insert_perm. simpl.
    symmetry. apply Permutation_middle.
Qed.

Lemma Array_sort_sorted l : StronglySorted (key_le key) (Array_sort key l).
Proof. apply Array_sort_acc. constructor. Qed.

Lemma Array_sort_perm l : Permutation l (Array_sort key l).
Proof. apply (Array_sort_acc []). constructor. Qed.

End ArraySortFacts.

(** ** Track building (route.ts) *)

Section TrackFacts.
Context `{JsBuiltins}.

Lemma addEntry_ok ts hour balloons idx entry :
  Forall track_ok balloons -> Forall track_ok (Route.addEntry ts hour balloons idx entry).
Proof.
  intros Hok. unfold Route.addEntry.
  destruct entry as [| | | |items|]; try done.
  destruct items as [|latRaw [|lonRaw rest]]; try done.
  destruct (_ || _); [done|].
  apply obj_set_Forall; [done|].
  destruct (obj_get (balloon_name idx) balloons) as [t|] eqn:Hget.
  - apply obj_get_In in Hget.
    rewrite List.Forall_forall in Hok. destruct (Hok _ Hget) as (Hid & _ & Hpts).
    simpl in *. split_and!; simpl.
    + done.
    + by destruct (points t).
    + apply Forall_app. split; [done|]. by repeat constructor.
  - split_and!; simpl; [done|done|]. by repeat constructor.
Qed.

Lemma addSnapshot_ok now balloons hour snapshot :
  Forall track_ok balloons -> Forall track_ok (Route.addSnapshot now balloons hour snapshot).
Proof.
  intros Hok. destruct snapshot as [entries|]; simpl; [|done].
  apply (foldi_invariant (Forall track_ok)); [|done].
  intros. by apply addEntry_ok.
Qed.

(** C9.  Every track that the track builder returns has at least one point,
    its points carry the track's id, and they are in ascending order of
    [snapshotIndex]. *)
Theorem tracks_nonempty_own_points_sorted (now : nat -> Z)
    (rawSnapshots : list (option (list JsVal))) :
  Forall (fun track =>
            points track <> []
            /\ Forall (fun p => balloonId p = id track) (points track)
            /\ StronglySorted (fun p q => (snapshotIndex p <= snapshotIndex q)%nat)
                 (points track))
         (obj_values (Route.buildBalloonHistory now rawSnapshots)).
Proof.
  unfold Route.buildBalloonHistory, obj_values.
  assert (Hok : Forall track_ok (foldi (Route.addSnapshot now) 0 rawSnapshots [])).
  { apply (foldi_invariant (Forall track_ok)); [|constructor].
    intros. by apply addSnapshot_ok. }
  rewrite map_map. apply List.Forall_map. simpl.
  eapply List.Forall_impl; [|exact Hok].
  intros [k t] (Hid & Hne & Hpts). simpl in *.
  set (byIndex := fun p : BalloonPoint => Z.of_nat (snapshotIndex p)).
  pose proof (Array_sort_perm byIndex (points t)) as Hperm.
  split_and!.
  - intros Hnil. rewrite Hnil in Hperm. symmetry in Hperm.
    by apply Permutation_nil in Hperm.
  - rewrite <- Hperm, Hid. done.
  - eapply StronglySorted_weaken; [|apply (Array_sort_sorted byIndex)].
    unfold key_le, byIndex. intros p q. lia.
Qed.

(** lib/windborne.ts drops a record whose latitude or longitude is out of
    range; route.ts files every record with finite coordinates. *)
Lemma extractEntry_out_of_range ts hourIndex pts idx lat lon rest :
  num_lt lat (Windborne.neg Windborne.n90) || num_lt Windborne.n90 lat
  || num_lt lon (Windborne.neg Windborne.n180) || num_lt Windborne.n180 lon = true ->
  Windborne.extractEntry ts hourIndex pts idx (JArr (JNum lat :: JNum lon :: rest)) = pts.
Proof. intros Hout. unfold Windborne.extractEntry. by rewrite Hout. Qed.

Lemma addEntry_files_finite ts hour balloons idx latN lonN rest :
  Number_isFinite latN = true -> Number_isFinite lonN = true ->
  exists track p,
    obj_get (balloon_name idx)
      (Route.addEntry ts hour balloons idx (JArr (JNum latN :: JNum lonN :: rest)))
    = Some track
    /\ last (points track) = Some p
    /\ lat p = latN /\ lon p = lonN /\ snapshotIndex p = hour.
Proof.
  intros Hlat Hlon. unfold Route.addEntry, Route.toNum.
  assert (Hnan : forall x, Number_isFinite x = true -> Number_isNaN x = false)
    by (by intros []).
  rewrite (Hnan _ Hlat), (Hnan _ Hlon), Hlat, Hlon. simpl.
  eexists _, _. rewrite obj_get_set_eq. split; [done|]. simpl.
  rewrite last_snoc. done.
Qed.

(** C1.  On the snapshot [[[10.2, 20.5, 5.0], [91, 20, 5], ["bad"]]] the
    track builder of route.ts keeps the record of latitude 91 as track
    [balloon-1]; [extractPointsFromSnapshot] of lib/windborne.ts drops it and
    keeps the valid record only. *)
Theorem route_keeps_out_of_range_latitude (now : nat -> Z) :
  Route.buildBalloonHistory now [Some Inputs.mixedSnapshot]
  = [ ("balloon-0"%string,
       {| id := "balloon-0"; points := [Inputs.goodPoint (now 0%nat)] |});
      ("balloon-1"%string,
       {| id := "balloon-1"; points := [Inputs.outOfRangePoint (now 0%nat)] |}) ]
  /\ Windborne.extractPointsFromSnapshot (now 0%nat) (JArr Inputs.mixedSnapshot) 0
     = [Inputs.goodPoint (now 0%nat)].
Proof.
  split.
  - unfold Route.buildBalloonHistory, Inputs.mixedSnapshot. cbn.
    rewrite Z.sub_0_r. reflexivity.
  - unfold Windborne.extractPointsFromSnapshot, Inputs.mixedSnapshot. cbn.
    rewrite Z.sub_0_r. reflexivity.
Qed.

(** C2.  When hour 0 fails and hour 1 is served, the handler files the
    records of hour 1 under [snapshotIndex = 0] with the timestamp of hour 0:
    the failed hour was filtered out before the track builder numbered the
    snapshots.  The track builder on the unfiltered list gives them
    [snapshotIndex = 1] and the timestamp one hour back. *)
Theorem route_failed_hour_shifts_later_hours (now : nat -> Z) :
  Route.GET_balloons now Inputs.onlyHourOne
  = [ ("balloon-0"%string,
       {| id := "balloon-0"; points := [Inputs.hourOnePoint (now 0%nat) 0] |}) ]
  /\ Route.buildBalloonHistory now (Route.rawSnapshotsOf Inputs.onlyHourOne)
     = [ ("balloon-0"%string,
          {| id := "balloon-0";
             points := [Inputs.hourOnePoint (now 1%nat - 3600000) 1] |}) ].
Proof.
  split.
  - unfold Route.GET_balloons, Route.buildBalloonHistory. cbn.
    rewrite Z.sub_0_r. reflexivity.
  - unfold Route.buildBalloonHistory. cbn. reflexivity.
Qed.

End TrackFacts.

(** ** Per-balloon weather (lib/weather.ts) *)

Section LibWeatherFacts.
Import LibWeather.
Implicit Types (results : gmap string BalloonWeather) (l : jsobj (number * number)).

Lemma putQueried_other replies l : forall i results b,
  ~ In b (obj_keys l) ->
  foldi (putQueried replies) i l results !! b = results !! b.
Proof.
  induction l as [|[k pos] l IH]; simpl; intros i results b Hb; [done|].
  rewrite IH by tauto. unfold putQueried. simpl.
  apply lookup_insert_ne. tauto.
Qed.

Lemma putQueried_at replies l : forall i results j b pos,
  NoDup (obj_keys l) ->
  l !! j = Some (b, pos) ->
  foldi (putQueried replies) i l results !! b
  = Some (default nullWeather (fetchWeatherForCoord (replies (i + j)%nat))).
Proof.
  induction l as [|[k pos0] l IH]; simpl; intros i results j b pos Hnd Hj; [done|].
  apply NoDup_cons in Hnd as [Hk Hnd].
  destruct j as [|j]; simpl in Hj.
  - injection Hj as -> ->.
    rewrite putQueried_other by (by rewrite <- list_elem_of_In).
    unfold putQueried. simpl. rewrite lookup_insert_eq. by rewrite Nat.add_0_r.
  - rewrite (IH (S i) _ j b pos Hnd Hj).
    by replace (S i + j)%nat with (i + S j)%nat by lia.
Qed.

Lemma putSkipped_kept l : forall results b wx,
  results !! b = Some wx -> fold_left putSkipped l results !! b = Some wx.
Proof.
  induction l as [|[k pos] l IH]; simpl; intros results b wx Hb; [done|].
  apply IH. unfold putSkipped. simpl.
  destruct (results !! k) eqn:Hk; [done|].
  rewrite lookup_insert_ne; [done|]. congruence.
Qed.

Lemma putSkipped_other l : forall results b,
  ~ In b (obj_keys l) -> fold_left putSkipped l results !! b = results !! b.
Proof.
  induction l as [|[k pos] l IH]; simpl; intros results b Hb; [done|].
  rewrite IH by tauto. unfold putSkipped. simpl.
  destruct (results !! k) eqn:Hk; [done|].
  apply lookup_insert_ne. tauto.
Qed.

Lemma putSkipped_fresh l : forall results b,
  In b (obj_keys l) -> results !! b = None ->
  fold_left putSkipped l results !! b = Some nullWeather.
Proof.
  induction l as [|[k pos] l IH]; simpl; intros results b Hb Hnone; [done|].
  destruct (decide (k = b)) as [->|Hne].
  - apply putSkipped_kept. unfold putSkipped. simpl.
    rewrite Hnone. apply lookup_insert_eq.
  - apply IH; [tauto|]. unfold putSkipped. simpl.
    destruct (results !! k); [done|]. by rewrite lookup_insert_ne.
Qed.

Lemma obj_keys_take_drop n l : obj_keys l = obj_keys (take n l) ++ obj_keys (drop n l).
Proof. unfold obj_keys. by rewrite <- map_app, take_drop. Qed.

Lemma lookup_key_In l j b pos : l !! j = Some (b, pos) -> In b (obj_keys l).
Proof.
  intros Hj. unfold obj_keys. apply in_map_iff. exists (b, pos). split; [done|].
  apply list_elem_of_In. by eapply list_elem_of_lookup_2.
Qed.

(** The mapping that [buildBalloonHistoryWithWeather] passes has distinct
    keys. *)
Lemma getLatestPositions_NoDup history :
  NoDup (obj_keys (Windborne.getLatestPositions history)).
Proof.
  unfold Windborne.getLatestPositions.
  generalize (obj_values (Windborne.history_balloons history)).
  assert (Hnil : NoDup (obj_keys ([] : jsobj (number * number)))) by constructor.
  revert Hnil. generalize ([] : jsobj (number * number)).
  intros acc Hacc tracks. revert acc Hacc.
  induction tracks as [|t tracks IH]; simpl; intros acc Hacc; [done|].
  apply IH. destruct (last (points t)); [|done]. by apply obj_set_NoDup.
Qed.

(** With ordinary ids the prototype of [results] is never touched and a
    lookup sees own properties only. *)
Lemma inherited_proto_name k : inherited k = false -> String.eqb k "__proto__" = false.
Proof.
  intros Hk. destruct (String.eqb k "__proto__") eqn:E; [|done].
  apply String.eqb_eq in E. by subst k.
Qed.

Lemma storeQueried_ordinary replies l : forall i m,
  ordinary l ->
  foldi (storeQueried replies) i l {| own := m; proto := None |}
  = {| own := foldi (putQueried replies) i l m; proto := None |}.
Proof.
  induction l as [|[k pos] l IH]; intros i m Hl; [done|].
  apply Forall_cons in Hl as [Hk Hl]. cbn [fst] in Hk. cbn [foldi].
  unfold storeQueried at 2, assign. cbn [fst own proto].
  rewrite (inherited_proto_name k Hk). by apply IH.
Qed.

Lemma storeSkipped_ordinary l : forall m,
  ordinary l ->
  fold_left storeSkipped l {| own := m; proto := None |}
  = {| own := fold_left putSkipped l m; proto := None |}.
Proof.
  induction l as [|[k pos] l IH]; intros m Hl; [done|].
  apply Forall_cons in Hl as [Hk Hl]. cbn [fst] in Hk. cbn [fold_left].
  unfold storeSkipped at 2, putSkipped at 2, hasTruthy, assign. cbn [fst own proto].
  destruct (m !! k) as [wx|]; [by apply IH|].
  rewrite Hk, (inherited_proto_name k Hk). by apply IH.
Qed.

Lemma ordinary_take_drop n l :
  ordinary l -> ordinary (take n l) /\ ordinary (drop n l).
Proof.
  unfold ordinary. rewrite (obj_keys_take_drop n l). apply Forall_app.
Qed.

Lemma fetchWeatherForBalloons_ordinary replies l :
  ordinary l ->
  results (fetchWeatherForBalloons replies l)
  = {| own := fold_left putSkipped (drop MAX_BALLOONS_WITH_WEATHER l)
                (foldi (putQueried replies) 0 (take MAX_BALLOONS_WITH_WEATHER l) ∅);
       proto := None |}.
Proof.
  intros Hl. destruct (ordinary_take_drop MAX_BALLOONS_WITH_WEATHER l Hl) as [Hq Hs].
  unfold fetchWeatherForBalloons, emptyObject. cbn [results].
  by rewrite storeQueried_ordinary, storeSkipped_ordinary.
Qed.

(** C10 (amended).  For ids that are not names inherited from
    [Object.prototype], the per-balloon path asks the provider about the
    first 50 entries of [latestPositions] and no other; an entry among the
    first 50 gets the provider's reading (all-null when the lookup fails),
    every entry beyond them gets the all-null reading, and the result has
    exactly one entry per balloon of the input and its prototype is
    untouched.  The keys of an object are pairwise distinct. *)
Theorem fetchWeatherForBalloons_first_50 (replies : nat -> MeteoReply)
    (latestPositions : jsobj (number * number)) :
  NoDup (obj_keys latestPositions) ->
  ordinary latestPositions ->
  let r := fetchWeatherForBalloons replies latestPositions in
  queried r = map snd (take 50 latestPositions)
  /\ (forall i b pos,
        (i < 50)%nat -> latestPositions !! i = Some (b, pos) ->
        own (results r) !! b
        = Some (default nullWeather (fetchWeatherForCoord (replies i))))
  /\ (forall i b pos,
        (50 <= i)%nat -> latestPositions !! i = Some (b, pos) ->
        own (results r) !! b = Some nullWeather)
  /\ (forall b, is_Some (own (results r) !! b) <-> In b (obj_keys latestPositions))
  /\ size (own (results r)) = length latestPositions
  /\ proto (results r) = None.
Proof.
  intros Hnd Hord r. subst r. rewrite (fetchWeatherForBalloons_ordinary _ _ Hord).
  cbn [own proto]. unfold fetchWeatherForBalloons. cbn [queried].
  change MAX_BALLOONS_WITH_WEATHER with 50%nat.
  set (toQuery := take 50 latestPositions).
  set (toSkip := drop 50 latestPositions).
  pose proof (obj_keys_take_drop 50 latestPositions) as Hkeys.
  fold toQuery toSkip in Hkeys.
  assert (Hsplit := Hnd). rewrite Hkeys in Hsplit.
  apply NoDup_app in Hsplit as (HndQ & Hdisj & HndS).
  assert (Hfirst : forall i b pos,
             (i < 50)%nat -> latestPositions !! i = Some (b, pos) ->
             fold_left putSkipped toSkip (foldi (putQueried replies) 0 toQuery ∅) !! b
             = Some (default nullWeather (fetchWeatherForCoord (replies i)))).
  { intros i b pos Hi Hlook. apply putSkipped_kept.
    rewrite (putQueried_at replies toQuery 0 ∅ i b pos HndQ); [done|].
    unfold toQuery. by rewrite lookup_take_lt. }
  assert (Hrest : forall i b pos,
             (50 <= i)%nat -> latestPositions !! i = Some (b, pos) ->
             fold_left putSkipped toSkip (foldi (putQueried replies) 0 toQuery ∅) !! b
             = Some nullWeather).
  { intros i b pos Hi Hlook.
    assert (HinS : In b (obj_keys toSkip)).
    { apply (lookup_key_In toSkip (i - 50) b pos). unfold toSkip.
      rewrite lookup_drop. by replace (50 + (i - 50))%nat with i by lia. }
    apply putSkipped_fresh; [done|].
    rewrite putQueried_other; [done|].
    intros HinQ. apply (Hdisj b); by apply list_elem_of_In. }
  assert (Hdom : forall b,
             is_Some (fold_left putSkipped toSkip
                        (foldi (putQueried replies) 0 toQuery ∅) !! b)
             <-> In b (obj_keys latestPositions)).
  { intros b. split.
    - intros Hsome. destruct (in_dec string_dec b (obj_keys latestPositions)) as [|Hout];
        [done|].
      rewrite Hkeys, in_app_iff in Hout.
      rewrite putSkipped_other, putQueried_other in Hsome by tauto.
      rewrite lookup_empty in Hsome. by destruct Hsome.
    - intros Hin. unfold obj_keys in Hin. apply in_map_iff in Hin as ([b' pos] & <- & Hin).
      apply list_elem_of_In, list_elem_of_lookup in Hin as [i Hi]. simpl.
      destruct (Nat.lt_ge_cases i 50).
      + by rewrite (Hfirst i b' pos).
      + by rewrite (Hrest i b' pos). }
  split_and!; try done.
  rewrite <- size_dom.
  assert (Heq : dom (fold_left putSkipped toSkip (foldi (putQueried replies) 0 toQuery ∅))
                = list_to_set (obj_keys latestPositions)).
  { apply set_eq. intros b. rewrite elem_of_dom, elem_of_list_to_set, Hdom.
    by rewrite list_elem_of_In. }
  rewrite Heq, size_list_to_set by done. unfold obj_keys. by rewrite length_map.
Qed.

End LibWeatherFacts.

(** Every id [balloon-<n>] is ordinary: no inherited name starts with [b]. *)
Lemma balloon_name_ordinary (idx : nat) : LibWeather.inherited (balloon_name idx) = false.
Proof. reflexivity. Qed.

Lemma fetchWeatherForBalloons_first_50_witness :
  NoDup (obj_keys Inputs.fiftyOne)
  /\ ordinary Inputs.fiftyOne
  /\ let r := LibWeather.fetchWeatherForBalloons
                (fun _ => MeteoHttp 200 (Some Inputs.pointAnswer)) Inputs.fiftyOne in
     LibWeather.queried r = map snd (take 50 Inputs.fiftyOne)
     /\ (forall i b pos,
           (i < 50)%nat -> Inputs.fiftyOne !! i = Some (b, pos) ->
           LibWeather.own (LibWeather.results r) !! b
           = Some (default LibWeather.nullWeather
                     (LibWeather.fetchWeatherForCoord (MeteoHttp 200 (Some Inputs.pointAnswer)))))
     /\ (forall i b pos,
           (50 <= i)%nat -> Inputs.fiftyOne !! i = Some (b, pos) ->
           LibWeather.own (LibWeather.results r) !! b = Some LibWeather.nullWeather)
     /\ (forall b, is_Some (LibWeather.own (LibWeather.results r) !! b)
                   <-> In b (obj_keys Inputs.fiftyOne))
     /\ size (LibWeather.own (LibWeather.results r)) = length Inputs.fiftyOne
     /\ LibWeather.proto (LibWeather.results r) = None.
Proof.
  assert (Hnd : NoDup (obj_keys Inputs.fiftyOne)).
  { apply (bool_decide_unpack _). vm_compute. exact I. }
  assert (Hord : ordinary Inputs.fiftyOne).
  { unfold ordinary, Inputs.fiftyOne, obj_keys. rewrite map_map. apply List.Forall_map.
    apply List.Forall_forall. intros i _. apply balloon_name_ordinary. }
  split; [exact Hnd|]. split; [exact Hord|].
  exact (fetchWeatherForBalloons_first_50
           (fun _ => MeteoHttp 200 (Some Inputs.pointAnswer)) Inputs.fiftyOne Hnd Hord).
Defined.

(** C10 as stated fails: with [toString] as the 51st id the skip loop reads
    the inherited function, finds it truthy and assigns nothing, so that
    balloon has no entry and the result has 50 entries for 51 balloons. *)
Lemma skipped_toString_gets_no_entry :
  NoDup (obj_keys MoreInputs.fiftyAndToString)
  /\ length MoreInputs.fiftyAndToString = 51%nat
  /\ In "toString"%string (obj_keys MoreInputs.fiftyAndToString)
  /\ LibWeather.own
       (LibWeather.results
          (LibWeather.fetchWeatherForBalloons
             (fun _ => MeteoHttp 200 (Some Inputs.pointAnswer)) MoreInputs.fiftyAndToString))
     !! "toString"%string = None
  /\ size (LibWeather.own
             (LibWeather.results
                (LibWeather.fetchWeatherForBalloons
                   (fun _ => MeteoHttp 200 (Some Inputs.pointAnswer))
                   MoreInputs.fiftyAndToString))) = 50%nat.
Proof.
  split_and!.
  - apply (bool_decide_unpack _). vm_compute. exact I.
  - reflexivity.
  - apply (bool_decide_unpack _). vm_compute. exact I.
  - vm_compute. reflexivity.
  - vm_compute. reflexivity.
Qed.

(** ** The weather batch fetcher (route.ts) *)

Section UnitConversion.
Import Weather.
Context `{JsBuiltins}.

(** C8.  The batch fetcher stores the provider's wind speed divided by the
    number 3.6, and 36 divided by 3.6 is exactly 10: a provider answer with
    wind speed 36 gives the cell a reading with [windSpeedMs = 10], and this
    is the reading written to the cache. *)
Theorem wind_speed_is_stored_in_metres_per_second (cell : Cell) (cw : JsVal) :
  windSpeedMs (weatherOf cw)
  = match js_prop "windspeed" cw with
    | Some (JNum kmh) => Some (num_div kmh lit_3_6)
    | _ => None
    end
  /\ lit_3_6 = Inputs.tenths 36
  /\ num_div (num_of_Z 36) lit_3_6 = num_of_Z 10
  /\ attemptResult [cell] (MeteoHttp 200 (Some (JArr [Inputs.pointAnswer]))) 
     = Some {[ key cell := Inputs.convertedReading ]}
  /\ cacheWrites [cell] {[ key cell := Inputs.convertedReading ]}
     = [(weatherCacheKey cell, JSON_stringify Inputs.convertedReading)].
Proof.
  split_and!.
  - reflexivity.
  - vm_compute. reflexivity.
  - vm_compute. reflexivity.
  - unfold attemptResult. simpl. unfold addItem. simpl.
    do 2 f_equal.
  - unfold cacheWrites. simpl. by rewrite lookup_singleton_eq.
Qed.

End UnitConversion.

Section RetryFacts.
Import Weather.
Context `{JsBuiltins} (env : Env).


(** One step of the retry recursion. *)
Lemma fetchOpenMeteoBatch_step c cs attempt w :
  fetchOpenMeteoBatch env (c :: cs) attempt w
  = let w1 := await env (fetchEvent (c :: cs) attempt) 0 w in
    match attemptResult (c :: cs) (open_meteo env (requests_sent w)) with
    | Some result => (Ok result, w1)
    | None =>
        if lt_dec attempt maxRetries
        then fetchOpenMeteoBatch env (c :: cs) (S attempt)
               (await env (EvSleep (500 * (Z.of_nat attempt + 1)))
                  (500 * (Z.of_nat attempt + 1)) w1)
        else (Ok ∅, w1)
    end.
Proof.
  simp fetchOpenMeteoBatch. unfold fetchMeteo. simpl.
  destruct (attemptResult _ _); simpl; [done|].
  destruct (lt_dec attempt maxRetries); simpl; done.
Qed.


End RetryFacts.

Lemma requests_sent_app w evs w' :
  trace w' = trace w ++ evs -> requests_sent w' = (requests_sent w + fetchesOf evs)%nat.
Proof.
  unfold requests_sent, fetchesOf. intros ->. by rewrite List.filter_app, length_app.
Qed.

Section RetryBound.
Import Weather.
Context `{JsBuiltins} (env : Env).


End RetryBound.

Section RetryRuns.
Import Runtime.



End RetryRuns.

(** ** The rate limiter (route.ts) *)

Section RateLimiterFacts.
Import Weather Route.
Context `{JsBuiltins} (env : Env).

Lemma issueBatch_counts redis ttlSeconds batch st1 w st2 w' :
  issueBatch env redis ttlSeconds batch st1 w = (Ok st2, w') ->
  requestsInWindow st2 = requestsInWindow st1 + 1
  /\ windowStart st2 = windowStart st1.
Proof.
  unfold issueBatch, bind.
  destruct (fetchOpenMeteoBatch env batch 0 w) as [[batchResult|e] w1]; [|done].
  destruct redis as [client|]; [destruct (num_lt _ _)|];
    unfold bind, ret, pipelineExec; try destruct (redis_exec _ _);
    (intros [= <- <-] || intros [=]); done.
Qed.

Lemma rateLimit_resets st w :
  exists st1 w1,
    rateLimit env st w = (Ok st1, w1)
    /\ cellWeather st1 = cellWeather st
    /\ (MAX_REQUESTS_PER_WINDOW <= requestsInWindow st -> requestsInWindow st1 = 0)
    /\ (requestsInWindow st1 = 0 \/ requestsInWindow st1 = requestsInWindow st).
Proof.
  unfold rateLimit, bind, Date_now, sleep, ret. simpl.
  destruct (MAX_REQUESTS_PER_WINDOW <=? requestsInWindow st) eqn:Hfull; simpl.
  - destruct (clock w - windowStart st <? WINDOW_MS) eqn:Hin; simpl.
    + eexists _, _. split_and!; eauto.
    + assert (Hout : (WINDOW_MS <=? clock w - windowStart st) = true) by lia.
      rewrite Hout. eexists _, _. split_and!; eauto.
  - destruct (WINDOW_MS <=? clock w - windowStart st); eexists _, _; split_and!; eauto; lia.
Qed.

Lemma processBatch_bounded redis ttlSeconds st batch w st' w' :
  requestsInWindow st <= MAX_REQUESTS_PER_WINDOW ->
  processBatch env redis ttlSeconds st batch w = (Ok st', w') ->
  0 < MAX_REQUESTS_PER_WINDOW ->
  requestsInWindow st' <= MAX_REQUESTS_PER_WINDOW.
Proof.
  intros Hle Hrun Hpos. unfold processBatch, bind in Hrun.
  destruct (rateLimit_resets st w) as (st1 & w1 & Hgate & _ & Hfull & Hcases).
  rewrite Hgate in Hrun. apply issueBatch_counts in Hrun as [Hcount _].
  destruct Hcases as [Hzero|Hsame]; [lia|].
  destruct (Z.eq_dec (requestsInWindow st) MAX_REQUESTS_PER_WINDOW) as [Heq|Hne]; lia.
Qed.

Lemma runBatches_bounded redis ttlSeconds batches : forall st w st' w',
  requestsInWindow st <= MAX_REQUESTS_PER_WINDOW ->
  runBatches env redis ttlSeconds batches st w = (Ok st', w') ->
  requestsInWindow st' <= MAX_REQUESTS_PER_WINDOW.
Proof.
  induction batches as [|batch rest IH]; simpl; intros st w st' w' Hle Hrun.
  - unfold ret in Hrun. by injection Hrun as <- <-.
  - unfold bind in Hrun.
    destruct (processBatch env redis ttlSeconds st batch w) as [[st1|e] w1] eqn:Hstep; [|done].
    eapply IH; [|exact Hrun].
    eapply processBatch_bounded; [exact Hle|exact Hstep|done].
Qed.

(** The state after the first iterations is the state a shorter loop ends in. *)
Lemma runBatches_app redis ttlSeconds done rest st w :
  runBatches env redis ttlSeconds (done ++ rest) st w
  = bind (runBatches env redis ttlSeconds done st)
         (runBatches env redis ttlSeconds rest) w.
Proof.
  revert st w. induction done as [|batch done IH]; intros st w; simpl.
  - unfold bind, ret. reflexivity.
  - unfold bind.
    destruct (processBatch env redis ttlSeconds st batch w) as [[st1|e] w1]; [|done].
    rewrite IH. reflexivity.
Qed.

End RateLimiterFacts.

Section RateLimiter.
Import Weather Route.
Context `{JsBuiltins} (env : Env).

(** A call for a non-empty batch asks the provider at least once. *)
Lemma fetchOpenMeteoBatch_asks c cs remaining : forall attempt w,
  (maxRetries - attempt <= remaining)%nat ->
  (requests_sent w < requests_sent (snd (fetchOpenMeteoBatch env (c :: cs) attempt w)))%nat.
Proof.
  assert (Hsent : forall attempt w,
             requests_sent (await env (fetchEvent (c :: cs) attempt) 0 w)
             = S (requests_sent w)).
  { intros attempt w. rewrite (requests_sent_app w [fetchEvent (c :: cs) attempt]); [|done].
    change (fetchesOf [fetchEvent (c :: cs) attempt]) with 1%nat. lia. }
  induction remaining as [|r IH]; intros attempt w Hle;
    rewrite fetchOpenMeteoBatch_step; cbv zeta;
    (destruct (attemptResult _ _) as [result|]; [cbn [snd]; rewrite Hsent; lia|]);
    (destruct (lt_dec attempt maxRetries) as [Hlt|Hge]; [|cbn [snd]; rewrite Hsent; lia]).
  - lia.
  - set (w1 := await env (fetchEvent (c :: cs) attempt) 0 w).
    set (w2 := await env (EvSleep (500 * (Z.of_nat attempt + 1)))
                 (500 * (Z.of_nat attempt + 1)) w1).
    assert (Hslept : requests_sent w2 = S (requests_sent w)).
    { rewrite (requests_sent_app w1 [EvSleep (500 * (Z.of_nat attempt + 1))] w2); [|done].
      unfold w1. rewrite Hsent. change (fetchesOf [_]) with 0%nat. lia. }
    specialize (IH (S attempt) w2). lia.
Qed.

Lemma issueBatch_asks redis ttlSeconds c cs st1 w :
  (requests_sent w
   < requests_sent (snd (issueBatch env redis ttlSeconds (c :: cs) st1 w)))%nat.
Proof.
  pose proof (fetchOpenMeteoBatch_asks c cs maxRetries 0 w ltac:(lia)) as Hasks.
  unfold issueBatch, bind.
  destruct (fetchOpenMeteoBatch env (c :: cs) 0 w) as [[batchResult|e] w1]; [|done].
  cbn [snd] in Hasks.
  destruct redis as [client|]; [destruct (num_lt _ _)|]; unfold ret; cbn [snd]; try done.
  unfold bind, pipelineExec, ret.
  assert (Hsame : requests_sent
                    (await env (EvPipeline (cacheWrites (c :: cs) batchResult) ttlSeconds) 0 w1)
                  = requests_sent w1).
  { rewrite (requests_sent_app w1
               [EvPipeline (cacheWrites (c :: cs) batchResult) ttlSeconds]); [|done].
    change (fetchesOf [_]) with 0%nat. lia. }
  destruct (redis_exec env _); cbn [snd]; rewrite Hsame; exact Hasks.
Qed.

(** C6.  The head of the batch loop is a fixed-window limiter, and its
    counter counts the batch calls of the current window.
    (1) With the window's [MAX_REQUESTS_PER_WINDOW] calls used and less than
    [WINDOW_MS] elapsed, the next iteration sleeps for the rest of the window
    ([WINDOW_MS] minus the elapsed time: the clock moves on by that much, plus
    the delay of the timer), then sets the counter to 0 and [windowStart] to
    the clock read after the sleep; at that time the old window is over.
    (2) With [WINDOW_MS] or more elapsed it sets the counter to 0 and
    [windowStart] to the current time without sleeping.  (3) Otherwise (calls
    left, window running) it changes nothing and waits for nothing.
    (4) Either way the iteration goes on to issue its batch; that is one call
    of the batch fetcher, which asks the provider at least once for a
    non-empty batch, and it adds exactly one to the counter and leaves
    [windowStart] alone.  (5) So an iteration leaves the counter at 1 when it
    opened a window and one higher than before when it did not, and
    (6) after any number of iterations the counter is at most
    [MAX_REQUESTS_PER_WINDOW]. *)
Theorem fixed_window_rate_limiter (redis : option Redis) (ttlSeconds : number) :
  (forall st w,
      MAX_REQUESTS_PER_WINDOW <= requestsInWindow st ->
      clock w - windowStart st < WINDOW_MS ->
      let waitMs := WINDOW_MS - (clock w - windowStart st) in
      let w1 := {| clock := clock w + waitMs + latency env (length (trace w));
                   trace := trace w ++ [EvSleep waitMs] |} in
      rateLimit env st w
      = (Ok {| requestsInWindow := 0; windowStart := clock w1;
               cellWeather := cellWeather st |}, w1)
      /\ 0 < waitMs
      /\ clock w1 - windowStart st = WINDOW_MS + latency env (length (trace w)))
  /\ (forall st w,
        WINDOW_MS <= clock w - windowStart st ->
        rateLimit env st w
        = (Ok {| requestsInWindow := 0; windowStart := clock w;
                 cellWeather := cellWeather st |}, w))
  /\ (forall st w,
        requestsInWindow st < MAX_REQUESTS_PER_WINDOW ->
        clock w - windowStart st < WINDOW_MS ->
        rateLimit env st w = (Ok st, w))
  /\ (forall st batch w,
        processBatch env redis ttlSeconds st batch w
        = bind (rateLimit env st) (issueBatch env redis ttlSeconds batch) w)
  /\ (forall batch st1 w1 st2 w2,
        issueBatch env redis ttlSeconds batch st1 w1 = (Ok st2, w2) ->
        requestsInWindow st2 = requestsInWindow st1 + 1
        /\ windowStart st2 = windowStart st1
        /\ (batch <> [] -> (requests_sent w1 < requests_sent w2)%nat))
  /\ (forall st batch w st' w',
        processBatch env redis ttlSeconds st batch w = (Ok st', w') ->
        if (WINDOW_MS <=? clock w - windowStart st)
           || (MAX_REQUESTS_PER_WINDOW <=? requestsInWindow st)
        then requestsInWindow st' = 1
        else requestsInWindow st' = requestsInWindow st + 1
             /\ windowStart st' = windowStart st)
  /\ (forall batches st w st' w',
        requestsInWindow st <= MAX_REQUESTS_PER_WINDOW ->
        runBatches env redis ttlSeconds batches st w = (Ok st', w') ->
        requestsInWindow st' <= MAX_REQUESTS_PER_WINDOW).
Proof.
  assert (Hwait : forall st w,
             MAX_REQUESTS_PER_WINDOW <= requestsInWindow st ->
             clock w - windowStart st < WINDOW_MS ->
             rateLimit env st w
             = (Ok {| requestsInWindow := 0;
                      windowStart := clock w + (WINDOW_MS - (clock w - windowStart st))
                                     + latency env (length (trace w));
                      cellWeather := cellWeather st |},
                {| clock := clock w + (WINDOW_MS - (clock w - windowStart st))
                            + latency env (length (trace w));
                   trace := trace w ++ [EvSleep (WINDOW_MS - (clock w - windowStart st))] |})).
  { intros st w Hfull Hin. unfold rateLimit, bind, Date_now, sleep, ret, await.
    cbn [clock trace]. apply Z.leb_le in Hfull. apply Z.ltb_lt in Hin.
    rewrite Hfull, Hin. reflexivity. }
  assert (Hnew : forall st w,
             WINDOW_MS <= clock w - windowStart st ->
             rateLimit env st w
             = (Ok {| requestsInWindow := 0; windowStart := clock w;
                      cellWeather := cellWeather st |}, w)).
  { intros st w Hout. unfold rateLimit, bind, Date_now, sleep, ret.
    assert (Hin : (clock w - windowStart st <? WINDOW_MS) = false) by lia.
    apply Z.leb_le in Hout. rewrite Hin, Hout, andb_false_r. reflexivity. }
  assert (Hidle : forall st w,
             requestsInWindow st < MAX_REQUESTS_PER_WINDOW ->
             clock w - windowStart st < WINDOW_MS ->
             rateLimit env st w = (Ok st, w)).
  { intros st w Hleft Hin. unfold rateLimit, bind, Date_now, sleep, ret.
    assert (Hfull : (MAX_REQUESTS_PER_WINDOW <=? requestsInWindow st) = false) by lia.
    assert (Hout : (WINDOW_MS <=? clock w - windowStart st) = false) by lia.
    rewrite Hfull, Hout. reflexivity. }
  split_and!.
  - intros st w Hfull Hin. cbv zeta. cbn [clock]. split_and!; [by apply Hwait|lia|lia].
  - exact Hnew.
  - exact Hidle.
  - reflexivity.
  - intros batch st1 w1 st2 w2 Hrun.
    destruct (issueBatch_counts env _ _ _ _ _ _ _ Hrun) as [Hcount Hstart].
    split_and!; [done|done|]. intros Hne. destruct batch as [|c cs]; [done|].
    pose proof (issueBatch_asks redis ttlSeconds c cs st1 w1) as Hasks.
    by rewrite Hrun in Hasks.
  - intros st batch w st' w' Hrun. unfold processBatch, bind in Hrun.
    destruct (Z.leb_spec WINDOW_MS (clock w - windowStart st)) as [Hout|Hin]; cbn [orb].
    + rewrite (Hnew st w Hout) in Hrun.
      by apply issueBatch_counts in Hrun as [-> _].
    + destruct (Z.leb_spec MAX_REQUESTS_PER_WINDOW (requestsInWindow st)) as [Hfull|Hleft].
      * rewrite (Hwait st w Hfull Hin) in Hrun.
        by apply issueBatch_counts in Hrun as [-> _].
      * rewrite (Hidle st w Hleft Hin) in Hrun.
        by apply issueBatch_counts in Hrun.
  - intros batches st w st' w'. apply runBatches_bounded.
Qed.

End RateLimiter.

Section RateLimiterRuns.
Import Weather Route Runtime.

(** At time 1000 of a used-up window opened at 0 the limiter sleeps 59000 ms
    and opens a new window at 60000; at time 60000 it opens one at once; and
    at time 1000 of a window with one call made it does nothing. *)
Lemma fixed_window_rate_limiter_witness :
  rateLimit Inputs.rateLimitedProvider Inputs.exhausted {| clock := 1000; trace := [] |}
  = (Ok {| requestsInWindow := 0; windowStart := 60000; cellWeather := ∅ |},
     {| clock := 60000; trace := [EvSleep 59000] |})
  /\ rateLimit Inputs.rateLimitedProvider Inputs.exhausted {| clock := 60000; trace := [] |}
     = (Ok {| requestsInWindow := 0; windowStart := 60000; cellWeather := ∅ |},
        {| clock := 60000; trace := [] |})
  /\ rateLimit Inputs.rateLimitedProvider MoreInputs.afterOneBatch
       {| clock := 1000; trace := [] |}
     = (Ok MoreInputs.afterOneBatch, {| clock := 1000; trace := [] |}).
Proof.
  destruct (fixed_window_rate_limiter Inputs.rateLimitedProvider None (S754_zero false))
    as (Hwait & Hnew & Hidle & _).
  split_and!.
  - apply (Hwait Inputs.exhausted {| clock := 1000; trace := [] |}); cbn.
    + unfold MAX_REQUESTS_PER_WINDOW. lia.
    + unfold WINDOW_MS. lia.
  - apply (Hnew Inputs.exhausted {| clock := 60000; trace := [] |}); cbn.
    unfold WINDOW_MS. lia.
  - apply (Hidle MoreInputs.afterOneBatch {| clock := 1000; trace := [] |}); cbn.
    + unfold MAX_REQUESTS_PER_WINDOW. lia.
    + unfold WINDOW_MS. lia.
Defined.

End RateLimiterRuns.

(** ** The cache (lib/redis.ts, route.ts) *)




Section CacheFacts.
Import Weather Route.
Context `{JsBuiltins} (env : Env).




End CacheFacts.

Section CacheBypass.
Import Weather Route.
Context `{JsBuiltins} (env : Env).

Lemma cacheNotConfigured_client : cacheNotConfigured env -> getRedisClient env = None.
Proof. unfold getRedisClient. by intros [-> | ->]. Qed.


End CacheBypass.

Section CacheRuns.
Import Weather Route Runtime.



End CacheRuns.

(** ** Clustering and fan-out (route.ts) *)

Section FanOutFacts.
Import Weather Route.
Context `{JsBuiltins}.

Lemma addToCell_keyed cellsMap track :
  keyed cellsMap -> keyed (addToCell cellsMap track).
Proof.
  intros Hk. unfold addToCell. destruct (points track) as [|latest rest]; [done|].
  apply obj_set_Forall; [done|]. simpl.
  destruct (obj_get _ cellsMap) as [c|] eqn:Hget; [|done].
  apply obj_get_In in Hget. unfold keyed in Hk. rewrite List.Forall_forall in Hk.
  apply (Hk _ Hget).
Qed.

Lemma addToCell_NoDup cellsMap track :
  NoDup (obj_keys cellsMap) -> NoDup (obj_keys (addToCell cellsMap track)).
Proof.
  intros Hnd. unfold addToCell. destruct (points track); [done|].
  by apply obj_set_NoDup.
Qed.

Lemma addToCell_members cellsMap track k :
  members (addToCell cellsMap track) k
  = members cellsMap k ++ (if inCell k track then [id track] else []).
Proof.
  unfold addToCell, inCell, latestCellKey, members.
  destruct (points track) as [|latest rest].
  - rewrite bool_decide_eq_false_2 by done. by rewrite app_nil_r.
  - set (k' := cellKeyOf _ _). destruct (decide (k' = k)) as [->|Hne].
    + rewrite obj_get_set_eq, bool_decide_eq_true_2 by done. simpl.
      by destruct (obj_get k cellsMap).
    + rewrite obj_get_set_ne by done.
      rewrite bool_decide_eq_false_2 by congruence. by rewrite app_nil_r.
Qed.

Lemma cluster_invariants tracks : forall cellsMap,
  keyed cellsMap -> NoDup (obj_keys cellsMap) ->
  let final := fold_left addToCell tracks cellsMap in
  keyed final /\ NoDup (obj_keys final)
  /\ forall k, members final k
               = members cellsMap k ++ map id (List.filter (inCell k) tracks).
Proof.
  induction tracks as [|t tracks IH]; simpl; intros cellsMap Hk Hnd.
  - split_and!; [done|done|]. intros k. by rewrite app_nil_r.
  - destruct (IH (addToCell cellsMap t)) as (Hk' & Hnd' & Hmem);
      [by apply addToCell_keyed|by apply addToCell_NoDup|].
    split_and!; [done|done|]. intros k.
    rewrite Hmem, addToCell_members, <- app_assoc. f_equal.
    by destruct (inCell k t).
Qed.

Lemma obj_get_of_In {V} (o : jsobj V) k v :
  NoDup (obj_keys o) -> In (k, v) o -> obj_get k o = Some v.
Proof.
  unfold obj_get, obj_keys. induction o as [|[k' v'] o IH]; simpl; [done|].
  intros [Hk' Hnd]%NoDup_cons [[= -> ->]|Hin].
  - by rewrite String.eqb_refl.
  - destruct (String.eqb k k') eqn:E; [|by apply IH].
    apply String.eqb_eq in E. subst k'. exfalso. apply Hk'.
    apply list_elem_of_In, in_map_iff. by exists (k, v).
Qed.

(** A cell of the clustering holds exactly the ids of the tracks whose
    latest point has its key. *)
Lemma cluster_cell_members (balloons : jsobj BalloonTrack) c :
  In c (clusterLatestPointsIntoCells balloons) ->
  balloonIds c = map id (List.filter (inCell (key c)) (obj_values balloons)).
Proof.
  unfold clusterLatestPointsIntoCells.
  destruct (cluster_invariants (obj_values balloons) []) as (Hk & Hnd & Hmem);
    [constructor|constructor|]. simpl in *.
  intros Hin. unfold obj_values in Hin at 1. apply in_map_iff in Hin as ([k c'] & <- & Hin).
  simpl. unfold keyed in Hk. rewrite List.Forall_forall in Hk.
  pose proof (Hk _ Hin) as Hkey. simpl in Hkey. subst k.
  specialize (Hmem (key c')). unfold members in Hmem at 1.
  by rewrite (obj_get_of_In _ _ _ Hnd Hin) in Hmem.
Qed.

Lemma cluster_has_cell (balloons : jsobj BalloonTrack) track k :
  In track (obj_values balloons) -> latestCellKey track = Some k ->
  exists c, In c (clusterLatestPointsIntoCells balloons)
            /\ key c = k /\ In (id track) (balloonIds c).
Proof.
  intros Hin Hkey. unfold clusterLatestPointsIntoCells.
  destruct (cluster_invariants (obj_values balloons) []) as (Hk & Hnd & Hmem);
    [constructor|constructor|]. simpl in *.
  assert (Hmember : In (id track) (members (fold_left addToCell (obj_values balloons) []) k)).
  { rewrite Hmem. apply in_map, filter_In. split; [done|].
    unfold inCell. by apply bool_decide_eq_true_2. }
  unfold members in Hmember.
  destruct (obj_get k _) as [c|] eqn:Hget; [|done].
  apply obj_get_In in Hget. exists c.
  split_and!; [|by apply (proj1 (List.Forall_forall _ _) Hk _ Hget)|done].
  unfold obj_values. apply in_map_iff. by exists (k, c).
Qed.

End FanOutFacts.

Section FanOut.
Import Weather Route.
Context `{JsBuiltins}.

Lemma assign_all_lookup (wx : Reading) ids : forall (lw : gmap string Reading) b,
  fold_left (fun lw balloonId => <[balloonId := wx]> lw) ids lw !! b
  = if decide (b ∈ ids) then Some wx else lw !! b.
Proof.
  induction ids as [|b' ids IH]; intros lw b; cbn [fold_left].
  - case_decide as Hin; [|done]. by apply elem_of_nil in Hin.
  - rewrite IH. destruct (decide (b ∈ ids)) as [Hin|Hout].
    + case_decide as Hcons; [done|]. exfalso. apply Hcons. by right.
    + destruct (decide (b' = b)) as [->|Hne].
      * rewrite lookup_insert_eq. case_decide as Hcons; [done|].
        exfalso. apply Hcons. by left.
      * rewrite lookup_insert_ne by done. case_decide as Hcons; [|done].
        apply elem_of_cons in Hcons as [->|Hin]; done.
Qed.

Lemma fanOutCell_lookup cw lw c b :
  fanOutCell cw lw c !! b
  = if decide (b ∈ balloonIds c)
    then match resolved cw (key c) with Some wx => Some wx | None => lw !! b end
    else lw !! b.
Proof.
  unfold fanOutCell, resolved. destruct (cw !! key c) as [wx|].
  - destruct (reading_truthy wx).
    + rewrite assign_all_lookup. by destruct (decide _).
    + by destruct (decide _).
  - by destruct (decide _).
Qed.

Lemma fanOut_untouched cw cells b : forall lw,
  Forall (fun c => b ∉ balloonIds c) cells ->
  fold_left (fanOutCell cw) cells lw !! b = lw !! b.
Proof.
  induction cells as [|c cells IH]; simpl; intros lw Hall; [done|].
  apply Forall_cons in Hall as [Hc Hall].
  rewrite IH by done. rewrite fanOutCell_lookup. by rewrite decide_False.
Qed.

Lemma fanOut_assigned cw cells b k : forall lw,
  Forall (fun c => b ∈ balloonIds c -> key c = k) cells ->
  Exists (fun c => b ∈ balloonIds c) cells ->
  fold_left (fanOutCell cw) cells lw !! b
  = match resolved cw k with Some wx => Some wx | None => lw !! b end.
Proof.
  induction cells as [|c cells IH]; simpl; intros lw Hkeys Hex.
  - by apply Exists_nil in Hex.
  - apply Forall_cons in Hkeys as [Hc Hkeys].
    assert (Hstep : match resolved cw k with
                    | Some wx => Some wx
                    | None => fanOutCell cw lw c !! b
                    end
                    = match resolved cw k with Some wx => Some wx | None => lw !! b end).
    { rewrite fanOutCell_lookup. destruct (decide (b ∈ balloonIds c)) as [Hin|Hout].
      - rewrite (Hc Hin). by destruct (resolved cw k).
      - done. }
    destruct (decide (Exists (fun c => b ∈ balloonIds c) cells)) as [Hrest|Hnone].
    + by rewrite IH.
    + apply Exists_cons in Hex as [Hin|Hrest]; [|done].
      rewrite fanOut_untouched by (by apply not_Exists_Forall in Hnone; [|intros; apply _]).
      rewrite fanOutCell_lookup, decide_True by done. by rewrite (Hc Hin).
Qed.

(** The reading of a balloon is the resolved reading of its cell. *)
Lemma fanOut_cluster (balloons : jsobj BalloonTrack) cw track k :
  NoDup (obj_keys balloons) ->
  Forall (fun kv => id (snd kv) = fst kv) balloons ->
  In track (obj_values balloons) ->
  latestCellKey track = Some k ->
  fanOut (clusterLatestPointsIntoCells balloons) cw !! id track = resolved cw k.
Proof.
  intros Hnd Hid Hin Hkey. unfold fanOut.
  rewrite (fanOut_assigned cw _ (id track) k).
  - rewrite lookup_empty. by destruct (resolved cw k).
  - apply List.Forall_forall. intros c Hc Hmember.
    rewrite (cluster_cell_members balloons c Hc) in Hmember.
    apply list_elem_of_In, in_map_iff in Hmember as (t' & Hsame & Hfilter).
    apply filter_In in Hfilter as [Hin' Hcell].
    unfold inCell in Hcell. apply bool_decide_eq_true_1 in Hcell.
    assert (t' = track) as ->; [|congruence].
    unfold obj_values in Hin, Hin'.
    apply in_map_iff in Hin as ([k1 t1] & <- & Hin).
    apply in_map_iff in Hin' as ([k2 t2] & <- & Hin').
    rewrite List.Forall_forall in Hid.
    pose proof (Hid _ Hin) as E1. pose proof (Hid _ Hin') as E2. simpl in *.
    assert (k2 = k1) as -> by congruence.
    pose proof (obj_get_of_In _ _ _ Hnd Hin) as G1.
    pose proof (obj_get_of_In _ _ _ Hnd Hin') as G2. congruence.
  - destruct (cluster_has_cell balloons track k Hin Hkey) as (c & Hc & _ & Hmember).
    apply List.Exists_exists. exists c. split; [done|]. by apply list_elem_of_In.
Qed.

Lemma addEntry_NoDup ts hour balloons idx entry :
  NoDup (obj_keys balloons) -> NoDup (obj_keys (addEntry ts hour balloons idx entry)).
Proof.
  intros Hnd. unfold addEntry.
  destruct entry as [| | | |items|]; try done.
  destruct items as [|latRaw [|lonRaw rest]]; try done.
  destruct (_ || _); [done|]. by apply obj_set_NoDup.
Qed.

Lemma buildBalloonHistory_keys now rawSnapshots :
  let balloons := Route.buildBalloonHistory now rawSnapshots in
  NoDup (obj_keys balloons) /\ Forall (fun kv => id (snd kv) = fst kv) balloons.
Proof.
  unfold Route.buildBalloonHistory. simpl.
  set (raw := foldi (addSnapshot now) 0 rawSnapshots []).
  assert (Hnd : NoDup (obj_keys raw)).
  { apply (foldi_invariant (fun b => NoDup (obj_keys b))); [|constructor].
    intros b hour snapshot Hb. destruct snapshot as [entries|]; simpl; [|done].
    apply (foldi_invariant (fun b => NoDup (obj_keys b))); [|done].
    intros. by apply addEntry_NoDup. }
  assert (Hok : Forall track_ok raw).
  { apply (foldi_invariant (Forall track_ok)); [|constructor].
    intros. by apply addSnapshot_ok. }
  split.
  - unfold obj_keys in *. by rewrite map_map.
  - apply List.Forall_map. eapply List.Forall_impl; [|exact Hok].
    intros [k t] (Hid & _). done.
Qed.

Lemma GET_balloons_keys now treasure :
  NoDup (obj_keys (GET_balloons now treasure))
  /\ Forall (fun kv => id (snd kv) = fst kv) (GET_balloons now treasure).
Proof. unfold GET_balloons. apply buildBalloonHistory_keys. Qed.

End FanOut.

Section SharedReadings.
Import Weather Route.
Context `{JsBuiltins} (env : Env).

(** C5.  In a response of the handler, with [st] the loop variables at the
    end of the cell resolution: two balloons whose latest points round to the
    same cell key have the same entry in [latestWeather] (the same reading,
    or both none); the entry of a balloon is the reading resolved for its
    cell; and a balloon whose cell has no reading in [cellWeather] has no
    entry. *)
Theorem same_cell_same_reading (treasure : nat -> TreasureReply)
    (w w' : World) (payload : Payload) :
  GET env treasure w = (Response200 payload, w') ->
  let balloons := payload_balloons payload in
  exists st,
    resolveCells env (clusterLatestPointsIntoCells balloons) w = (Ok st, w')
    /\ (forall t1 t2 k,
          In t1 (obj_values balloons) -> In t2 (obj_values balloons) ->
          latestCellKey t1 = Some k -> latestCellKey t2 = Some k ->
          latestWeather payload !! id t1 = latestWeather payload !! id t2)
    /\ (forall t k,
          In t (obj_values balloons) -> latestCellKey t = Some k ->
          latestWeather payload !! id t = resolved (cellWeather st) k)
    /\ (forall t k,
          In t (obj_values balloons) -> latestCellKey t = Some k ->
          cellWeather st !! k = None ->
          latestWeather payload !! id t = None).
Proof.
  unfold GET, fetchWeatherForAllBalloons, bind.
  destruct (GET_balloons_keys (fun _ => clock w) treasure) as [Hnd Hid].
  set (balloons := GET_balloons (fun _ => clock w) treasure) in *.
  destruct (resolveCells env (clusterLatestPointsIntoCells balloons) w)
    as [[st|e] w1] eqn:Hrun; [|done].
  unfold ret. intros [= <- <-]. simpl. exists st. split; [done|].
  assert (Hentry : forall t k,
             In t (obj_values balloons) -> latestCellKey t = Some k ->
             fanOut (clusterLatestPointsIntoCells balloons) (cellWeather st) !! id t
             = resolved (cellWeather st) k).
  { intros t k Hin Hkey. by apply fanOut_cluster. }
  split_and!.
  - intros t1 t2 k Hin1 Hin2 Hk1 Hk2.
    by rewrite (Hentry t1 k), (Hentry t2 k).
  - done.
  - intros t k Hin Hkey Hnone. rewrite (Hentry t k) by done.
    unfold resolved. by rewrite Hnone.
Qed.

End SharedReadings.

Section SharedReadingsRuns.
Import Weather Route Runtime.

(** Two balloons in the cell (10, 20), no cache, one provider answer: both
    are given the one fetched reading. *)
Lemma same_cell_same_reading_witness :
  GET Inputs.noCache Inputs.twoBalloons Inputs.freshWorld
  = (Response200 Inputs.sharedPayload, Inputs.oneFetch)
  /\ let balloons := payload_balloons Inputs.sharedPayload in
     exists st,
       resolveCells Inputs.noCache (clusterLatestPointsIntoCells balloons) Inputs.freshWorld
       = (Ok st, Inputs.oneFetch)
       /\ (forall t1 t2 k,
             In t1 (obj_values balloons) -> In t2 (obj_values balloons) ->
             latestCellKey t1 = Some k -> latestCellKey t2 = Some k ->
             latestWeather Inputs.sharedPayload !! id t1
             = latestWeather Inputs.sharedPayload !! id t2)
       /\ (forall t k,
             In t (obj_values balloons) -> latestCellKey t = Some k ->
             latestWeather Inputs.sharedPayload !! id t = resolved (cellWeather st) k)
       /\ (forall t k,
             In t (obj_values balloons) -> latestCellKey t = Some k ->
             cellWeather st !! k = None ->
             latestWeather Inputs.sharedPayload !! id t = None).
Proof.
  assert (Hrun : GET Inputs.noCache Inputs.twoBalloons Inputs.freshWorld
                 = (Response200 Inputs.sharedPayload, Inputs.oneFetch)).
  { vm_compute. reflexivity. }
  split; [exact Hrun|].
  exact (same_cell_same_reading Inputs.noCache Inputs.twoBalloons
           Inputs.freshWorld Inputs.oneFetch Inputs.sharedPayload Hrun).
Defined.

End SharedReadingsRuns.

(** ** Binary64 arithmetic at grid size 1 *)

Section NumberFacts.

Lemma digits2_pos_size p : digits2_pos p = Pos.size p.
Proof. induction p; simpl; congruence. Qed.

Lemma fexp_eq e : fexp prec emax e = Z.max (e - 53) (-1074).
Proof. reflexivity. Qed.

Lemma bounded_spec m e :
  bounded prec emax m e = true <->
  Z.max (Zpos (digits2_pos m) + e - 53) (-1074) = e /\ e <= 971.
Proof.
  unfold bounded, canonical_mantissa. rewrite andb_true_iff, Z.eqb_eq, Z.leb_le.
  rewrite fexp_eq. reflexivity.
Qed.

Lemma shr_fexp_canonical m e :
  bounded prec emax m e = true ->
  shr_fexp prec emax (Zpos m) e loc_Exact
  = ({| shr_m := Zpos m; shr_r := false; shr_s := false |}, e).
Proof.
  intros [Hcan Hle]%bounded_spec.
  unfold shr_fexp.
  replace (fexp prec emax (Zdigits2 (Z.pos m) + e) - e) with 0; [reflexivity|].
  rewrite fexp_eq. simpl Zdigits2. lia.
Qed.

(** Rounding leaves a canonical mantissa alone. *)
Lemma binary_round_aux_canonical s m e :
  bounded prec emax m e = true ->
  binary_round_aux prec emax s (Zpos m) e loc_Exact = S754_finite s m e.
Proof.
  intros Hb. unfold binary_round_aux.
  rewrite (shr_fexp_canonical m e Hb). cbn [shr_m loc_of_shr_record round_nearest_even].
  rewrite (shr_fexp_canonical m e Hb). cbn [shr_m].
  apply bounded_spec in Hb as [_ Hle]. apply Z.leb_le in Hle.
  change (emax - prec) with 971. rewrite Hle. reflexivity.
Qed.

Lemma iter_pos_iter {A} (f : A -> A) p : forall x, SpecFloat.iter_pos f p x = Pos.iter f x p.
Proof.
  induction p; intros x; simpl; rewrite ?IHp; [|reflexivity|reflexivity].
  rewrite !Pos.iter_swap. reflexivity.
Qed.

Lemma shr_1_double p : shr_1 (exact_record (Zpos p~0)) = exact_record (Zpos p).
Proof. reflexivity. Qed.

Lemma shr_doubled m k :
  Pos.iter shr_1 (exact_record (Zpos (Pos.iter xO m k))) k = exact_record (Zpos m).
Proof.
  induction k as [|k IH] using Pos.peano_ind.
  - reflexivity.
  - rewrite Pos.iter_succ_r, Pos.iter_succ, shr_1_double. exact IH.
Qed.

Lemma digits2_pos_doubled m k :
  digits2_pos (Pos.iter xO m k) = (digits2_pos m + k)%positive.
Proof.
  induction k as [|k IH] using Pos.peano_ind.
  - simpl. lia.
  - rewrite Pos.iter_succ. simpl. rewrite IH. lia.
Qed.

Lemma shr_fexp_doubled m e k :
  bounded prec emax m e = true ->
  shr_fexp prec emax (Zpos (Pos.iter xO m k)) (e - Zpos k) loc_Exact = (exact_record (Zpos m), e).
Proof.
  intros [Hcan Hle]%bounded_spec.
  unfold shr_fexp.
  replace (fexp prec emax (Zdigits2 (Z.pos (Pos.iter xO m k)) + (e - Z.pos k)) - (e - Z.pos k))
    with (Zpos k).
  2:{ rewrite fexp_eq. simpl Zdigits2. rewrite digits2_pos_doubled. lia. }
  unfold shr. rewrite iter_pos_iter. simpl shr_record_of_loc.
  fold (exact_record (Z.pos (Pos.iter xO m k))). rewrite shr_doubled. f_equal. lia.
Qed.

Lemma binary_round_aux_doubled s m e k :
  bounded prec emax m e = true ->
  binary_round_aux prec emax s (Zpos (Pos.iter xO m k)) (e - Zpos k) loc_Exact
  = S754_finite s m e.
Proof.
  intros Hb. unfold binary_round_aux.
  rewrite (shr_fexp_doubled m e k Hb).
  cbn [exact_record shr_m loc_of_shr_record round_nearest_even].
  rewrite (shr_fexp_canonical m e Hb). cbn [shr_m].
  apply bounded_spec in Hb as [_ Hle]. apply Z.leb_le in Hle.
  change (emax - prec) with 971. rewrite Hle. reflexivity.
Qed.

(** Multiplying and dividing by 1 ([GRID_DEGREES]) is exact. *)
Lemma num_mul_one y : is_binary64 y = true -> num_mul y Route.GRID_DEGREES = y.
Proof.
  destruct y as [s|s| |s m e]; simpl; intros Hb.

  - rewrite xorb_false_r. reflexivity.
  - rewrite xorb_false_r. reflexivity.
  - reflexivity.
  - unfold num_mul, SFmul, Route.GRID_DEGREES. rewrite xorb_false_r.
    rewrite Pos.mul_comm.
    change (4503599627370496 * m)%positive with (Pos.iter xO m 52).
    change (e + -52) with (e - Zpos 52).
    apply binary_round_aux_doubled. exact Hb.
Qed.

Lemma div_eucl_exact a b : 0 < b -> Z.div_eucl (a * b) b = (a, 0).
Proof.
  intros Hb. pose proof (Z.div_mul a b ltac:(lia)) as Hq.
  pose proof (Z.mod_mul a b ltac:(lia)) as Hr.
  unfold Z.div, Z.modulo in *. destruct (Z.div_eucl (a * b) b) as [q r].
  congruence.
Qed.

Lemma SFdiv_core_one m e :
  bounded prec emax m e = true ->
  SFdiv_core_binary prec emax (Zpos m) e 4503599627370496 (-52)
  = if e =? -1074 then (Zpos m, e, loc_Exact) else (Zpos m~0, e - 1, loc_Exact).
Proof.
  intros [Hcan Hle]%bounded_spec. unfold SFdiv_core_binary.
  rewrite fexp_eq. simpl Zdigits2.
  destruct (e =? -1074) eqn:He.
  - apply Z.eqb_eq in He.
    replace (Z.min _ _) with e by lia.
    replace (e - -52 - e) with 52 by lia.
    rewrite Z.shiftl_mul_pow2 by lia.
    change (2 ^ 52) with 4503599627370496.
    rewrite div_eucl_exact by lia. reflexivity.
  - apply Z.eqb_neq in He.
    replace (Z.min _ _) with (e - 1) by lia.
    replace (e - -52 - (e - 1)) with 53 by lia.
    rewrite Z.shiftl_mul_pow2 by lia.
    replace (Z.pos m * 2 ^ 53) with (Z.pos m~0 * 4503599627370496) by lia.
    rewrite div_eucl_exact by lia. reflexivity.
Qed.

Lemma num_div_one x : is_binary64 x = true -> num_div x Route.GRID_DEGREES = x.
Proof.
  destruct x as [s|s| |s m e]; simpl; intros Hb.
  - rewrite xorb_false_r. reflexivity.
  - rewrite xorb_false_r. reflexivity.
  - reflexivity.
  - unfold num_div, SFdiv, Route.GRID_DEGREES. rewrite (SFdiv_core_one m e Hb), xorb_false_r.
    destruct (e =? -1074).
    + apply binary_round_aux_canonical. exact Hb.
    + apply (binary_round_aux_doubled s m e 1). exact Hb.
Qed.

Lemma digits2_pos_le p : Zpos p < 2 ^ 53 -> Zpos (digits2_pos p) <= 53.
Proof.
  intros Hp. rewrite digits2_pos_size.
  destruct (Z.le_gt_cases (Zpos (Pos.size p)) 53) as [|Hgt]; [assumption|exfalso].
  pose proof (Pos.size_le p) as Hle.
  apply Pos2Z.pos_le_pos in Hle. rewrite Pos2Z.inj_pow in Hle.
  assert (2 ^ 54 <= 2 ^ Zpos (Pos.size p)) by (apply Z.pow_le_mono_r; lia).
  change (Z.pos p~0) with (2 * Z.pos p) in Hle. lia.
Qed.

Lemma digits2_pos_gt p : Zpos (digits2_pos p) <= 53 -> Zpos p < 2 ^ 53.
Proof.
  rewrite digits2_pos_size. intros Hd.
  pose proof (Pos.size_gt p) as Hgt.
  apply Pos2Z.pos_lt_pos in Hgt. rewrite Pos2Z.inj_pow in Hgt.
  assert (2 ^ Zpos (Pos.size p) <= 2 ^ 53) by (apply Z.pow_le_mono_r; lia).
  lia.
Qed.

Lemma int_float_bounded sgn p :
  Zpos (digits2_pos p) <= 53 -> is_binary64 (int_float sgn p) = true.
Proof.
  intros Hd. unfold int_float.
  destruct (53 - Zpos (digits2_pos p)) as [|k|k] eqn:Hk; simpl;
    apply bounded_spec; rewrite ?digits2_pos_doubled; lia.
Qed.

Lemma binary_round_int sgn p :
  Zpos (digits2_pos p) <= 53 -> binary_round prec emax sgn p 0 = int_float sgn p.
Proof.
  intros Hd. pose proof (int_float_bounded sgn p Hd) as Hb.
  unfold binary_round, shl_align. rewrite fexp_eq.
  replace (Z.max (Z.pos (digits2_pos p) + 0 - 53) (-1074) - 0)
    with (- (53 - Z.pos (digits2_pos p))) by lia.
  unfold int_float in *.
  destruct (53 - Zpos (digits2_pos p)) as [|k|k] eqn:Hk; simpl Z.opp; cbv iota.
  - apply binary_round_aux_canonical. exact Hb.
  - replace (Z.max _ _) with (Z.neg k) by lia.
    apply binary_round_aux_canonical. exact Hb.
  - lia.
Qed.

Lemma binary_normalize_int n s :
  n <> 0 -> Z.abs n < 2 ^ 53 ->
  binary_normalize prec emax n 0 s = int_float (n <? 0) (Z.to_pos (Z.abs n)).
Proof.
  intros Hn Hlt. destruct n as [|p|p]; [lia| |]; simpl;
    apply binary_round_int, digits2_pos_le; simpl in Hlt; lia.
Qed.

Lemma Math_round_int_float sgn p :
  Zpos (digits2_pos p) <= 53 -> Math_round (int_float sgn p) = int_float sgn p.
Proof.
  intros Hd.
  destruct (53 - Zpos (digits2_pos p)) as [|k|k] eqn:Hk;
    [unfold int_float; rewrite Hk; reflexivity| |unfold int_float; rewrite Hk; reflexivity].
  assert (Hif : forall sg, int_float sg p = S754_finite sg (Pos.iter xO p k) (- Z.pos k)).
  { intros sg. unfold int_float. rewrite Hk. reflexivity. }
  rewrite Hif. unfold Math_round. replace (0 <=? - Z.pos k) with false by lia.
  replace (- - Z.pos k) with (Z.pos k) by lia.
  assert (Hshift : Z.pos (Pos.iter xO p k) = Z.pos p * 2 ^ Z.pos k).
  { clear. induction k as [|k IH] using Pos.peano_ind.
    - simpl. lia.
    - rewrite Pos.iter_succ, Pos2Z.inj_succ, Z.pow_succ_r by lia.
      change (Z.pos (Pos.iter xO p k)~0) with (2 * Z.pos (Pos.iter xO p k)). lia. }
  assert (Hn : Z.shiftr (cond_Zopp sgn (Z.pos (Pos.iter xO p k)) + 2 ^ (Z.pos k - 1)) (Z.pos k)
               = cond_Zopp sgn (Z.pos p)).
  { rewrite Z.shiftr_div_pow2 by lia. rewrite Hshift.
    assert (Hpow : 2 ^ Z.pos k = 2 * 2 ^ (Z.pos k - 1)).
    { rewrite <- Z.pow_succ_r by lia. f_equal. lia. }
    assert (Hhalf : 0 < 2 ^ (Z.pos k - 1)) by (apply Z.pow_pos_nonneg; lia).
    set (P := 2 ^ (Z.pos k - 1)) in *. rewrite Hpow.
    symmetry. apply (Z.div_unique_pos _ _ _ P); [lia|].
    destruct sgn; unfold cond_Zopp; lia. }
  rewrite Hn, <- Hif. destruct sgn; simpl; apply binary_round_int; exact Hd.
Qed.

(** [Math.round] of a number is a zero, an integer of at most 53 bits, or
    the number itself when it has no fractional bits. *)
Lemma Math_round_shape x :
  is_binary64 x = true ->
  Math_round x = x
  \/ (exists s, Math_round x = S754_zero s)
  \/ (exists sgn p, Zpos (digits2_pos p) <= 53 /\ Math_round x = int_float sgn p).
Proof.
  destruct x as [s|s| |s m e]; try (left; reflexivity).
  simpl. intros Hb. destruct (0 <=? e) eqn:He; [left; reflexivity|right].
  apply Z.leb_gt in He. apply bounded_spec in Hb as [Hcan _].
  assert (Hm : Zpos m < 2 ^ 53) by (apply digits2_pos_gt; lia).
  set (n := Z.shiftr (cond_Zopp s (Z.pos m) + 2 ^ (- e - 1)) (- e)).
  assert (Hn : Z.abs n < 2 ^ 53).
  { unfold n. rewrite Z.shiftr_div_pow2 by lia.
    assert (Hpow : 2 ^ (- e) = 2 * 2 ^ (- e - 1)).
    { rewrite <- Z.pow_succ_r by lia. f_equal. lia. }
    assert (Hhalf : 0 < 2 ^ (- e - 1)) by (apply Z.pow_pos_nonneg; lia).
    set (P := 2 ^ (- e - 1)) in *. rewrite Hpow.
    assert (2 ^ 52 * 2 = 2 ^ 53) by reflexivity.
    assert (Hlo : - 2 ^ 52 <= (cond_Zopp s (Z.pos m) + P) / (2 * P)).
    { apply Z.div_le_lower_bound; [lia|]. destruct s; unfold cond_Zopp; nia. }
    assert (Hhi : (cond_Zopp s (Z.pos m) + P) / (2 * P) < 2 ^ 52 + 1).
    { apply Z.div_lt_upper_bound; [lia|]. destruct s; unfold cond_Zopp; nia. }
    lia. }
  destruct (Z.eq_dec n 0) as [Hz|Hnz].
  - left. exists s. rewrite Hz. reflexivity.
  - right. exists (n <? 0), (Z.to_pos (Z.abs n)). split.
    + apply digits2_pos_le. lia.
    + apply binary_normalize_int; assumption.
Qed.

Lemma Math_round_valid x : is_binary64 x = true -> is_binary64 (Math_round x) = true.
Proof.
  intros Hb. destruct (Math_round_shape x Hb) as [->|[[s ->]|(sgn & p & Hd & ->)]].
  - exact Hb.
  - reflexivity.
  - apply int_float_bounded. exact Hd.
Qed.

Lemma Math_round_idempotent x :
  is_binary64 x = true -> Math_round (Math_round x) = Math_round x.
Proof.
  intros Hb. destruct (Math_round_shape x Hb) as [Hx|[[s Hx]|(sgn & p & Hd & Hx)]].
  - rewrite !Hx. reflexivity.
  - rewrite Hx. reflexivity.
  - rewrite Hx. apply Math_round_int_float. exact Hd.
Qed.

Lemma Math_round_finite x :
  is_binary64 x = true -> Number_isFinite x = true ->
  Number_isFinite (Math_round x) = true.
Proof.
  intros Hb Hfin. destruct (Math_round_shape x Hb) as [->|[[s ->]|(sgn & p & Hd & ->)]].
  - exact Hfin.
  - reflexivity.
  - unfold int_float. by destruct (53 - _).
Qed.

Lemma num_eq_refl x : Number_isFinite x = true -> num_eq x x = true.
Proof.
  destruct x as [s|s| |s m e]; try done. intros _.
  unfold num_eq, SFeqb, SFcompare.
  rewrite Z.compare_refl, Pos.compare_cont_refl. by destruct s.
Qed.

Lemma roundToGrid_one x :
  is_binary64 x = true -> Weather.roundToGrid x Route.GRID_DEGREES = Math_round x.
Proof.
  intros Hb. unfold Weather.roundToGrid.
  rewrite (num_div_one x Hb). apply num_mul_one. by apply Math_round_valid.
Qed.

(** C7 (amended).  At the grid size the pipeline uses, [GRID_DEGREES = 1],
    grid rounding is idempotent on every finite number: rounding the rounded
    value returns the same number, so the two compare equal with [==]. *)
Theorem grid_rounding_idempotent_at_one_degree (x : number) :
  is_binary64 x = true ->
  Number_isFinite x = true ->
  Weather.roundToGrid (Weather.roundToGrid x Route.GRID_DEGREES) Route.GRID_DEGREES
  = Weather.roundToGrid x Route.GRID_DEGREES
  /\ num_eq (Weather.roundToGrid (Weather.roundToGrid x Route.GRID_DEGREES)
               Route.GRID_DEGREES)
            (Weather.roundToGrid x Route.GRID_DEGREES) = true.
Proof.
  intros Hb Hfin.
  assert (Hidem : Weather.roundToGrid (Weather.roundToGrid x Route.GRID_DEGREES)
                    Route.GRID_DEGREES
                  = Weather.roundToGrid x Route.GRID_DEGREES).
  { rewrite (roundToGrid_one x Hb).
    rewrite (roundToGrid_one _ (Math_round_valid x Hb)).
    by apply Math_round_idempotent. }
  split; [exact Hidem|]. rewrite Hidem, (roundToGrid_one x Hb).
  apply num_eq_refl. by apply Math_round_finite.
Qed.

Lemma grid_rounding_idempotent_at_one_degree_witness :
  is_binary64 (Inputs.tenths 102) = true
  /\ Number_isFinite (Inputs.tenths 102) = true
  /\ Weather.roundToGrid (Weather.roundToGrid (Inputs.tenths 102) Route.GRID_DEGREES)
       Route.GRID_DEGREES
     = Weather.roundToGrid (Inputs.tenths 102) Route.GRID_DEGREES
  /\ num_eq (Weather.roundToGrid (Weather.roundToGrid (Inputs.tenths 102)
                                    Route.GRID_DEGREES) Route.GRID_DEGREES)
            (Weather.roundToGrid (Inputs.tenths 102) Route.GRID_DEGREES) = true.
Proof.
  assert (Hb : is_binary64 (Inputs.tenths 102) = true) by (vm_compute; reflexivity).
  assert (Hfin : Number_isFinite (Inputs.tenths 102) = true) by (vm_compute; reflexivity).
  split; [exact Hb|]. split; [exact Hfin|].
  exact (grid_rounding_idempotent_at_one_degree (Inputs.tenths 102) Hb Hfin).
Defined.

(** C7 as stated fails: with grid size 1.1 the finite number
    4953959590107113 rounds to 4953959590107114, and that rounds to
    4953959590107115.  (The quotients lie just below 2^52, where numbers are
    half an integer apart: each division lands on a half, [Math.round] takes
    it up, and the product is the next integer.) *)
Lemma grid_rounding_not_idempotent_at_1_1 :
  is_binary64 Inputs.farEast = true
  /\ Number_isFinite Inputs.farEast = true
  /\ is_binary64 Inputs.grid_1_1 = true
  /\ Weather.roundToGrid Inputs.farEast Inputs.grid_1_1 = num_of_Z 4953959590107114
  /\ Weather.roundToGrid (Weather.roundToGrid Inputs.farEast Inputs.grid_1_1)
       Inputs.grid_1_1
     = num_of_Z 4953959590107115
  /\ num_eq (Weather.roundToGrid (Weather.roundToGrid Inputs.farEast Inputs.grid_1_1)
               Inputs.grid_1_1)
            (Weather.roundToGrid Inputs.farEast Inputs.grid_1_1) = false.
Proof. vm_compute. repeat split. Qed.

End NumberFacts.

(** * Further properties of the sources *)

(** ** Track building (route.ts): records and points *)

Lemma balloon_name_inj i j : balloon_name i = balloon_name j -> i = j.
Proof.
  unfold balloon_name. intros Heq. simpl in Heq.
  injection Heq as Heq. 
  change (NilEmpty.string_of_uint (Nat.to_uint i)
          = NilEmpty.string_of_uint (Nat.to_uint j)) in Heq.
  apply DecimalNat.Unsigned.to_uint_inj.
  assert (Hsome : Some (Nat.to_uint i) = Some (Nat.to_uint j)).
  { rewrite <- !NilEmpty.usu. by rewrite Heq. }
  by injection Hsome.
Qed.

Section TrackExtras.
Context `{JsBuiltins}.

Lemma recordPoint_Some ts hour idx entry p :
  recordPoint ts hour idx entry = Some p ->
  balloonId p = balloon_name idx /\ snapshotIndex p = hour /\ timestamp p = ts
  /\ Number_isFinite (lat p) = true /\ Number_isFinite (lon p) = true.
Proof.
  unfold recordPoint.
  destruct entry as [| | | |items|]; try done.
  destruct items as [|latRaw [|lonRaw rest]]; try done.
  destruct (_ || _) eqn:Hbad; [done|]. intros [= <-]. simpl.
  apply orb_false_iff in Hbad as [Hbad Hlon]. apply orb_false_iff in Hbad as [_ Hlat].
  apply negb_false_iff in Hlat, Hlon. done.
Qed.

Lemma addEntry_recordPoint ts hour balloons idx entry :
  Route.addEntry ts hour balloons idx entry
  = match recordPoint ts hour idx entry with
    | None => balloons
    | Some p =>
        let track := default {| id := balloonId p; points := [] |}
                       (obj_get (balloonId p) balloons) in
        obj_set (balloonId p) {| id := id track; points := points track ++ [p] |} balloons
    end.
Proof.
  unfold Route.addEntry, recordPoint.
  destruct entry as [| | | |items|]; try done.
  destruct items as [|latRaw [|lonRaw rest]]; try done.
  destruct (_ || _); [done|]. simpl.
  destruct (obj_get (balloon_name idx) balloons); simpl;
    destruct rest as [|[] ?]; reflexivity.
Qed.

Lemma flatPoints_push k (p : BalloonPoint) (balloons : jsobj BalloonTrack) :
  let track := default {| id := k; points := [] |} (obj_get k balloons) in
  flatPoints (obj_set k {| id := id track; points := points track ++ [p] |} balloons)
  ≡ₚ flatPoints balloons ++ [p].
Proof.
  unfold flatPoints, obj_values, obj_get.
  induction balloons as [|[k' t'] balloons IH]; simpl.
  - done.
  - destruct (String.eqb k k') eqn:E; simpl.
    + rewrite <- !app_assoc. apply Permutation_app_head, Permutation_app_comm.
    + rewrite <- app_assoc. apply Permutation_app_head, IH.
Qed.

Lemma flatPoints_addEntry ts hour balloons idx entry :
  flatPoints (Route.addEntry ts hour balloons idx entry)
  ≡ₚ flatPoints balloons ++ option_list (recordPoint ts hour idx entry).
Proof.
  rewrite addEntry_recordPoint. destruct (recordPoint ts hour idx entry) as [p|]; simpl.
  - apply flatPoints_push.
  - by rewrite app_nil_r.
Qed.

Lemma flatPoints_entries ts hour entries : forall idx balloons,
  flatPoints (foldi (Route.addEntry ts hour) idx entries balloons)
  ≡ₚ flatPoints balloons ++ pointsFrom ts hour idx entries.
Proof.
  induction entries as [|entry entries IH]; simpl; intros idx balloons.
  - by rewrite app_nil_r.
  - rewrite IH, flatPoints_addEntry. by rewrite <- app_assoc.
Qed.

Lemma flatPoints_snapshots now snapshots : forall hour balloons,
  flatPoints (foldi (Route.addSnapshot now) hour snapshots balloons)
  ≡ₚ flatPoints balloons ++ allPointsFrom now hour snapshots.
Proof.
  induction snapshots as [|snapshot snapshots IH]; simpl; intros hour balloons.
  - by rewrite app_nil_r.
  - rewrite IH. destruct snapshot as [entries|]; simpl.
    + rewrite flatPoints_entries. by rewrite <- app_assoc.
    + done.
Qed.

Lemma flatPoints_sorted (balloons : jsobj BalloonTrack) :
  flatPoints (map (fun kv => (fst kv, Route.sortTrack (snd kv))) balloons)
  ≡ₚ flatPoints balloons.
Proof.
  unfold flatPoints, obj_values.
  induction balloons as [|[k t] balloons IH]; simpl; [done|].
  rewrite IH. apply Permutation_app_tail. symmetry. apply Array_sort_perm.
Qed.

(** X1.  [buildBalloonHistory] of route.ts loses no point and invents none:
    the points of all its tracks together are, up to their order, the points
    of the records it accepts (an array whose first two items convert to
    finite numbers), one point per accepted record of each available
    snapshot. *)
Theorem track_points_are_the_valid_records (now : nat -> Z)
    (rawSnapshots : list (option (list JsVal))) :
  flatPoints (Route.buildBalloonHistory now rawSnapshots)
  ≡ₚ allPointsFrom now 0 rawSnapshots.
Proof.
  unfold Route.buildBalloonHistory.
  rewrite flatPoints_sorted, flatPoints_snapshots. done.
Qed.

End TrackExtras.

Lemma StronglySorted_snoc (l : list nat) (y : nat) :
  StronglySorted lt l -> Forall (fun x => (x < y)%nat) l -> StronglySorted lt (l ++ [y]).
Proof.
  induction 1 as [|x l Hl IH Hx]; simpl; intros Hall.
  - repeat constructor.
  - apply Forall_cons in Hall as [Hxy Hall]. constructor; [by apply IH|].
    apply Forall_app. split; [done|]. by repeat constructor.
Qed.

Section StrictOrder.
Context `{JsBuiltins}.

Lemma track_upto_weaken hour idx idx' kv :
  (idx <= idx')%nat -> track_upto hour idx kv -> track_upto hour idx' kv.
Proof.
  intros Hle [Hs Hall]. split; [done|].
  eapply List.Forall_impl; [|exact Hall]. intros p [Hlt|(Heq & j & Hj & Hk)]; [by left|].
  right. split; [done|]. exists j. split; [lia|done].
Qed.

Lemma track_upto_next hour idx kv :
  track_upto hour idx kv -> track_upto (S hour) 0 kv.
Proof.
  intros [Hs Hall]. split; [done|].
  eapply List.Forall_impl; [|exact Hall]. intros p [Hlt|(Heq & _)]; left; lia.
Qed.

Lemma addEntry_track_upto ts hour balloons idx entry :
  Forall (track_upto hour idx) balloons ->
  Forall (track_upto hour (S idx)) (Route.addEntry ts hour balloons idx entry).
Proof.
  intros Hinv.
  assert (Hweak : Forall (track_upto hour (S idx)) balloons).
  { eapply List.Forall_impl; [|exact Hinv]. intros kv. apply track_upto_weaken. lia. }
  rewrite addEntry_recordPoint.
  destruct (recordPoint ts hour idx entry) as [p|] eqn:Hp; [|done].
  apply recordPoint_Some in Hp as (Hid & Hidx & _).
  cbv zeta. apply obj_set_Forall; [done|].
  rewrite Hid.
  assert (Hold : StronglySorted lt
                   (map snapshotIndex
                      (points (default {| id := balloon_name idx; points := [] |}
                                 (obj_get (balloon_name idx) balloons))))
                 /\ Forall (fun q => (snapshotIndex q < hour)%nat)
                      (points (default {| id := balloon_name idx; points := [] |}
                                 (obj_get (balloon_name idx) balloons)))).
  { destruct (obj_get (balloon_name idx) balloons) as [t|] eqn:Hget; simpl.
    - apply obj_get_In in Hget. rewrite List.Forall_forall in Hinv.
      destruct (Hinv _ Hget) as [Hs Hall]. simpl in *. split; [done|].
      eapply List.Forall_impl; [|exact Hall].
      intros q [Hlt|(_ & j & Hj & Hname)]; [done|].
      apply balloon_name_inj in Hname. lia.
    - split; constructor. }
  destruct Hold as [Hs Hall]. split; simpl.
  - rewrite map_app. simpl. apply StronglySorted_snoc; [done|].
    apply List.Forall_map. eapply List.Forall_impl; [|exact Hall].
    intros q Hq. simpl in *. lia.
  - apply Forall_app. split.
    + eapply List.Forall_impl; [|exact Hall]. intros q Hq. by left.
    + constructor; [|constructor]. right. split; [done|]. exists idx. split; [lia|done].
Qed.

Lemma entries_track_upto ts hour entries : forall idx balloons,
  Forall (track_upto hour idx) balloons ->
  Forall (track_upto hour (idx + length entries))
         (foldi (Route.addEntry ts hour) idx entries balloons).
Proof.
  induction entries as [|entry entries IH]; simpl; intros idx balloons Hinv.
  - by rewrite Nat.add_0_r.
  - replace (idx + S (length entries))%nat with (S idx + length entries)%nat by lia.
    apply IH. by apply addEntry_track_upto.
Qed.

Lemma snapshots_track_upto now snapshots : forall hour balloons,
  Forall (track_upto hour 0) balloons ->
  Forall (track_upto (hour + length snapshots) 0)
         (foldi (Route.addSnapshot now) hour snapshots balloons).
Proof.
  induction snapshots as [|snapshot snapshots IH]; simpl; intros hour balloons Hinv.
  - by rewrite Nat.add_0_r.
  - replace (hour + S (length snapshots))%nat with (S hour + length snapshots)%nat by lia.
    apply IH. destruct snapshot as [entries|]; simpl.
    + eapply List.Forall_impl; [|apply entries_track_upto, Hinv].
      intros kv. apply track_upto_next.
    + eapply List.Forall_impl; [|exact Hinv]. intros kv. apply track_upto_next.
Qed.

End StrictOrder.

(** A stable sort leaves a sorted list as it is. *)
Section SortedInput.
Context {A : Type} (key : A -> Z).

Lemma sort_insert_last x l :
  Forall (fun y => key y <= key x) l -> sort_insert key x l = l ++ [x].
Proof.
  induction 1 as [|y l Hy Hl IH]; simpl; [done|].
  apply Z.leb_le in Hy. by rewrite Hy, IH.
Qed.

Lemma Array_sort_of_sorted l : StronglySorted (key_le key) l -> Array_sort key l = l.
Proof.
  unfold Array_sort. intros Hs.
  enough (Hgen : forall acc, StronglySorted (key_le key) (acc ++ l) ->
                 fold_left (fun acc x => sort_insert key x acc) l acc = acc ++ l)
    by (apply (Hgen []); exact Hs).
  clear Hs.
  induction l as [|x l IH]; simpl; intros acc Hs.
  - by rewrite app_nil_r.
  - rewrite sort_insert_last.
    + rewrite IH; rewrite <- app_assoc; done.
    + clear IH. induction acc as [|a acc IHacc]; [constructor|].
      simpl in Hs. apply StronglySorted_inv in Hs as [Hs Ha].
      constructor; [|by apply IHacc].
      rewrite List.Forall_forall in Ha. apply Ha, in_app_iff. right. by left.
Qed.

End SortedInput.

Lemma StronglySorted_map_lt {A} (f : A -> nat) (l : list A) :
  StronglySorted lt (map f l) ->
  StronglySorted (key_le (fun x => Z.of_nat (f x))) l.
Proof.
  induction l as [|x l IH]; simpl; intros Hs; [constructor|].
  apply StronglySorted_inv in Hs as [Hs Hx]. constructor; [by apply IH|].
  apply (proj1 (List.Forall_map f _ l)) in Hx. eapply List.Forall_impl; [|exact Hx].
  unfold key_le. intros y. simpl. lia.
Qed.

Section StrictOrderResult.
Context `{JsBuiltins}.

Lemma unsorted_tracks_upto now rawSnapshots :
  Forall (track_upto (length rawSnapshots) 0)
         (foldi (Route.addSnapshot now) 0 rawSnapshots []).
Proof. apply (snapshots_track_upto now rawSnapshots 0 []). constructor. Qed.

Lemma sorted_tracks_unchanged hour idx (balloons : jsobj BalloonTrack) :
  Forall (track_upto hour idx) balloons ->
  map (fun kv => (fst kv, Route.sortTrack (snd kv))) balloons = balloons.
Proof.
  induction 1 as [|[k t] balloons [Hs _] Hinv IH]; simpl; [done|].
  rewrite IH. do 2 f_equal. unfold Route.sortTrack. destruct t as [tid pts]. simpl in *.
  f_equal. apply Array_sort_of_sorted. by apply StronglySorted_map_lt.
Qed.

(** X2.  When [buildBalloonHistory] of route.ts sorts the tracks, every track
    is already in ascending order of [snapshotIndex]: the sort changes
    nothing, and the result is the mapping as the loops over the snapshots
    left it. *)
Theorem track_sort_changes_nothing (now : nat -> Z)
    (rawSnapshots : list (option (list JsVal))) :
  Route.buildBalloonHistory now rawSnapshots
  = foldi (Route.addSnapshot now) 0 rawSnapshots [].
Proof.
  unfold Route.buildBalloonHistory.
  apply (sorted_tracks_unchanged _ _ _ (unsorted_tracks_upto now rawSnapshots)).
Qed.

(** X3.  In the result of [buildBalloonHistory] of route.ts a balloon has at
    most one point per snapshot: the [snapshotIndex] values along a track are
    strictly increasing, and each is a position of the snapshot list. *)
Theorem track_has_one_point_per_snapshot (now : nat -> Z)
    (rawSnapshots : list (option (list JsVal))) :
  Forall (fun track =>
            StronglySorted lt (map snapshotIndex (points track))
            /\ Forall (fun p => (snapshotIndex p < length rawSnapshots)%nat) (points track))
         (obj_values (Route.buildBalloonHistory now rawSnapshots)).
Proof.
  unfold Route.buildBalloonHistory.
  rewrite (sorted_tracks_unchanged _ _ _ (unsorted_tracks_upto now rawSnapshots)).
  unfold obj_values. apply List.Forall_map.
  eapply List.Forall_impl; [|apply unsorted_tracks_upto].
  intros [k t] [Hs Hall]. simpl in *. split; [done|].
  eapply List.Forall_impl; [|exact Hall].
  intros p [Hlt|(_ & j & Hj & _)]; [done|lia].
Qed.

End StrictOrderResult.

(** ** Grid cells (route.ts): clustering after track building *)


Section ClusterExtras.
Import Weather Route.
Context `{JsBuiltins}.

Lemma buildBalloonHistory_ok now rawSnapshots :
  Forall track_ok (Route.buildBalloonHistory now rawSnapshots).
Proof.
  unfold Route.buildBalloonHistory.
  rewrite (sorted_tracks_unchanged _ _ _ (unsorted_tracks_upto now rawSnapshots)).
  apply (foldi_invariant (Forall track_ok)); [|constructor].
  intros. by apply addSnapshot_ok.
Qed.

Lemma addToCell_shape cellsMap track :
  Forall (fun kv => balloonIds (snd kv) <> []
                    /\ key (snd kv) = cellKeyOf (cell_lat (snd kv)) (cell_lon (snd kv)))
         cellsMap ->
  Forall (fun kv => balloonIds (snd kv) <> []
                    /\ key (snd kv) = cellKeyOf (cell_lat (snd kv)) (cell_lon (snd kv)))
         (addToCell cellsMap track).
Proof.
  intros Hinv. unfold addToCell. destruct (points track) as [|latest rest]; [done|].
  apply obj_set_Forall; [done|]. simpl. split; [by destruct (balloonIds _)|].
  destruct (obj_get _ cellsMap) as [c|] eqn:Hget; [|done].
  apply obj_get_In in Hget. rewrite List.Forall_forall in Hinv.
  apply (Hinv _ Hget).
Qed.

Lemma In_map_NoDup_inj {A B} (f : A -> B) (l : list A) x y :
  NoDup (map f l) -> In x l -> In y l -> f x = f y -> x = y.
Proof.
  induction l as [|a l IH]; simpl; [done|].
  intros [Ha Hnd]%NoDup_cons [->|Hx] [->|Hy] Heq; try done.
  - exfalso. apply Ha. rewrite Heq. apply list_elem_of_In, in_map, Hy.
  - exfalso. apply Ha. rewrite <- Heq. apply list_elem_of_In, in_map, Hx.
  - by apply IH.
Qed.

(** X4.  The grid cells partition the balloons of a track mapping built by
    [buildBalloonHistory]: the cells have distinct keys, each formed from the
    cell's centre; no cell is empty; a cell lists exactly the balloons whose
    first point rounds to its key, each once; and every balloon is in one
    cell and no other. *)
Theorem cells_partition_the_balloons (now : nat -> Z)
    (rawSnapshots : list (option (list JsVal))) :
  let balloons := Route.buildBalloonHistory now rawSnapshots in
  let cells := clusterLatestPointsIntoCells balloons in
  NoDup (map key cells)
  /\ Forall (fun c => balloonIds c <> [] /\ NoDup (balloonIds c)
                      /\ key c = cellKeyOf (cell_lat c) (cell_lon c)) cells
  /\ (forall c b,
        In c cells ->
        (In b (balloonIds c)
         <-> exists track, In track (obj_values balloons) /\ id track = b
                           /\ latestCellKey track = Some (key c)))
  /\ (forall track,
        In track (obj_values balloons) ->
        exists c, In c cells /\ In (id track) (balloonIds c)
                  /\ forall c', In c' cells -> In (id track) (balloonIds c') -> c' = c).
Proof.
  intros balloons cells.
  destruct (buildBalloonHistory_keys now rawSnapshots) as [Hnd Hid].
  pose proof (buildBalloonHistory_ok now rawSnapshots) as Hok.
  fold balloons in Hnd, Hid, Hok.
  assert (Hids : NoDup (map id (obj_values balloons))).
  { replace (map id (obj_values balloons)) with (obj_keys balloons); [done|].
    unfold obj_keys, obj_values. rewrite map_map. apply map_ext_in.
    intros kv Hkv. rewrite List.Forall_forall in Hid. symmetry. by apply Hid. }
  destruct (cluster_invariants (obj_values balloons) []) as (Hkeyed & HndK & _);
    [constructor|constructor|]. simpl in Hkeyed, HndK.
  assert (Hkeys : NoDup (map key cells)).
  { replace (map key cells) with (obj_keys (fold_left addToCell (obj_values balloons) [])); [done|].
    unfold cells, clusterLatestPointsIntoCells, obj_keys, obj_values.
    rewrite map_map. apply map_ext_in.
    intros kv Hkv. unfold keyed in Hkeyed. rewrite List.Forall_forall in Hkeyed.
    symmetry. by apply Hkeyed. }
  assert (Hmem : forall c b,
             In c cells ->
             (In b (balloonIds c)
              <-> exists track, In track (obj_values balloons) /\ id track = b
                                /\ latestCellKey track = Some (key c))).
  { intros c b Hc. rewrite (cluster_cell_members balloons c Hc), in_map_iff.
    split.
    - intros (t & Hb & Ht). apply filter_In in Ht as [Hin Hcell].
      exists t. split_and!; [done|done|]. by apply bool_decide_eq_true_1 in Hcell.
    - intros (t & Hin & Hb & Hkey). exists t. split; [done|].
      apply filter_In. split; [done|]. by apply bool_decide_eq_true_2. }
  split_and!; [done| |done|].
  - assert (Hshape : Forall (fun kv => balloonIds (snd kv) <> []
                                /\ key (snd kv) = cellKeyOf (cell_lat (snd kv)) (cell_lon (snd kv)))
                        (fold_left addToCell (obj_values balloons) [])).
    { generalize (obj_values balloons).
      assert (Hnil : Forall (fun kv : string * Cell =>
                               balloonIds (snd kv) <> []
                               /\ key (snd kv) = cellKeyOf (cell_lat (snd kv)) (cell_lon (snd kv)))
                            []) by constructor.
      revert Hnil. generalize ([] : jsobj Cell). intros cm Hcm tracks. revert cm Hcm.
      induction tracks as [|t tracks IH]; simpl; intros cm Hcm; [done|].
      apply IH. by apply addToCell_shape. }
    apply List.Forall_forall. intros c Hc.
    assert (Hc' := Hc). unfold cells, clusterLatestPointsIntoCells, obj_values in Hc'.
    apply in_map_iff in Hc' as ([k c0] & <- & Hin).
    rewrite List.Forall_forall in Hshape. destruct (Hshape _ Hin) as [Hne Hkey].
    simpl in *. split_and!; [done| |done].
    rewrite (cluster_cell_members balloons c0 Hc).
    clear -Hids. induction (obj_values balloons) as [|t tracks IH]; simpl; [constructor|].
    apply NoDup_cons in Hids as [Ht Hids].
    destruct (inCell (key c0) t); simpl; [|by apply IH].
    apply NoDup_cons. split; [|by apply IH].
    intros Hin. apply Ht. apply list_elem_of_In in Hin. apply list_elem_of_In.
    apply in_map_iff in Hin as (t' & <- & Hin). apply filter_In in Hin as [Hin _].
    by apply in_map.
  - intros track Hin.
    assert (Hpts : points track <> []).
    { unfold obj_values in Hin. apply in_map_iff in Hin as ([k t] & <- & Hin).
      rewrite List.Forall_forall in Hok. by destruct (Hok _ Hin) as (_ & Hne & _). }
    destruct (latestCellKey track) as [k|] eqn:Hkey.
    2:{ unfold latestCellKey in Hkey. by destruct (points track). }
    destruct (cluster_has_cell balloons track k Hin Hkey) as (c & Hc & Hck & Hmember).
    exists c. split_and!; [done|done|].
    intros c' Hc' Hmember'. apply (Hmem c' (id track) Hc') in Hmember' as (t' & Hin' & Hsame & Hkey').
    assert (t' = track) as -> by (by apply (In_map_NoDup_inj id (obj_values balloons))).
    apply (In_map_NoDup_inj key cells); [done|done|done|]. congruence.
Qed.

End ClusterExtras.

(** ** The batch loop (route.ts): slicing *)

Section BatchFacts.
Import Weather Route.

Lemma slices_concat {A} (n : nat) (l : list A) (m : nat) :
  concat (map (fun k => take n (drop (k * n) l)) (seq 0 m)) = take (m * n) l.
Proof.
  induction m as [|m IH].
  - done.
  - rewrite seq_S, map_app, concat_app, IH. simpl. rewrite app_nil_r.
    rewrite take_take_drop. f_equal. lia.
Qed.

Lemma slices_count (n len : nat) :
  (0 < n)%nat ->
  (len <= (len + (n - 1)) / n * n
   /\ forall k, k < (len + (n - 1)) / n -> k * n < len)%nat.
Proof.
  intros Hn.
  pose proof (Nat.div_mod_eq (len + (n - 1)) n) as Hdiv.
  pose proof (Nat.mod_upper_bound (len + (n - 1)) n ltac:(lia)) as Hmod.
  split; [nia|]. intros k Hk. nia.
Qed.

(** X5.  The batch loop slices [missingCells] without loss or overlap:
    the batches, joined in order, are the list itself; every batch has
    between 1 and [WEATHER_BATCH_SIZE] cells, every batch but the last has
    exactly [WEATHER_BATCH_SIZE]; and there are
    ceil(length / [WEATHER_BATCH_SIZE]) of them. *)
Theorem batches_slice_the_missing_cells (missingCells : list Cell) :
  concat (batchesOf missingCells) = missingCells
  /\ Forall (fun batch => (1 <= length batch <= WEATHER_BATCH_SIZE)%nat)
            (batchesOf missingCells)
  /\ (forall k batch,
        batchesOf missingCells !! k = Some batch ->
        (S k < length (batchesOf missingCells))%nat ->
        length batch = WEATHER_BATCH_SIZE)
  /\ (length (batchesOf missingCells) * WEATHER_BATCH_SIZE
      < length missingCells + WEATHER_BATCH_SIZE
      <= S (length (batchesOf missingCells)) * WEATHER_BATCH_SIZE)%nat.
Proof.
  unfold batchesOf.
  assert (Hpos : (0 < WEATHER_BATCH_SIZE)%nat) by (unfold WEATHER_BATCH_SIZE; lia).
  destruct (slices_count WEATHER_BATCH_SIZE (length missingCells) Hpos) as [Hcover Hstart].
  set (n := WEATHER_BATCH_SIZE) in *.
  set (m := ((length missingCells + (n - 1)) / n)%nat) in *.
  split_and!.
  - rewrite slices_concat. by apply take_ge.
  - apply List.Forall_map, List.Forall_forall. intros k Hk%in_seq.
    rewrite length_take, length_drop. specialize (Hstart k). lia.
  - intros k batch Hk Hlast. rewrite length_map, length_seq in Hlast.
    rewrite list_lookup_fmap in Hk.
    rewrite lookup_seq_lt in Hk by lia. simpl in Hk. injection Hk as <-.
    rewrite length_take, length_drop. specialize (Hstart (S k) Hlast). lia.
  - rewrite length_map, length_seq.
    pose proof (Nat.div_mod_eq (length missingCells + (n - 1)) n) as Hdiv.
    pose proof (Nat.mod_upper_bound (length missingCells + (n - 1)) n ltac:(lia)) as Hmod.
    fold m in Hdiv. nia.
  - rewrite length_map, length_seq. lia.
Qed.

End BatchFacts.

(** ** The batch fetcher (route.ts): attempts and answers *)

Section RetryExtras.
Import Weather Route.
Context `{JsBuiltins} (env : Env).

Lemma retryEvents_fetches cells n : forall attempt,
  fetchesOf (retryEvents cells attempt n) = S n.
Proof.
  induction n as [|n IH]; intros attempt; [done|].
  change (fetchesOf (retryEvents cells attempt (S n)))
    with (S (fetchesOf (retryEvents cells (S attempt) n))).
  by rewrite IH.
Qed.


(** The run of a call from [attempt] on: [n] attempts are retried, the
    next one ends the call. *)
Lemma fetchOpenMeteoBatch_run c cs remaining : forall attempt w,
  (attempt + remaining = maxRetries)%nat ->
  exists n result w',
    (n <= remaining)%nat
    /\ fetchOpenMeteoBatch env (c :: cs) attempt w = (Ok result, w')
    /\ trace w' = trace w ++ retryEvents (c :: cs) attempt n
    /\ (forall j, (j < n)%nat ->
          attemptResult (c :: cs) (open_meteo env (requests_sent w + j)) = None)
    /\ match attemptResult (c :: cs) (open_meteo env (requests_sent w + n)) with
       | Some answered => result = answered
       | None => n = remaining /\ result = ∅
       end.
Proof.
  induction remaining as [|r IH]; intros attempt w Hsum;
    rewrite fetchOpenMeteoBatch_step; cbv zeta;
    destruct (attemptResult (c :: cs) (open_meteo env (requests_sent w))) as [answered|]
      eqn:Hfirst.
  - exists 0%nat, answered, (await env (fetchEvent (c :: cs) attempt) 0 w).
    rewrite Nat.add_0_r, Hfirst. split_and!; try done; lia.
  - destruct (lt_dec attempt maxRetries) as [Hlt|Hge]; [lia|].
    exists 0%nat, ∅, (await env (fetchEvent (c :: cs) attempt) 0 w).
    rewrite Nat.add_0_r, Hfirst. split_and!; try done; lia.
  - exists 0%nat, answered, (await env (fetchEvent (c :: cs) attempt) 0 w).
    rewrite Nat.add_0_r, Hfirst. split_and!; try done; lia.
  - destruct (lt_dec attempt maxRetries) as [Hlt|Hge]; [|lia].
    set (w2 := await env (EvSleep (500 * (Z.of_nat attempt + 1)))
                 (500 * (Z.of_nat attempt + 1))
                 (await env (fetchEvent (c :: cs) attempt) 0 w)).
    destruct (IH (S attempt) w2) as (n & result & w' & Hn & Hrun & Htrace & Hretried & Hlast);
      [lia|].
    assert (Hsent : requests_sent w2 = S (requests_sent w)).
    { rewrite (requests_sent_app w [fetchEvent (c :: cs) attempt;
                                     EvSleep (500 * (Z.of_nat attempt + 1))] w2).
      - change (fetchesOf _) with 1%nat. lia.
      - unfold w2. simpl. by rewrite <- app_assoc. }
    exists (S n), result, w'. split_and!; [lia|done| | |].
    + rewrite Htrace. unfold w2. simpl. by rewrite <- !app_assoc.
    + intros [|j] Hj; [by rewrite Nat.add_0_r|].
      rewrite <- Nat.add_succ_comm, <- Hsent. apply Hretried. lia.
    + rewrite <- Nat.add_succ_comm, <- Hsent.
      revert Hlast.
      destruct (attemptResult (c :: cs) (open_meteo env (requests_sent w2 + n))); [done|].
      by intros [-> ->].
Qed.


(** The keys of an attempt's result are keys of the batch. *)
Lemma addItem_keys items cells : forall idx result k,
  is_Some (foldi (addItem items) idx cells result !! k) ->
  is_Some (result !! k) \/ In k (map key cells).
Proof.
  induction cells as [|cell cells IH]; simpl; intros idx result k Hk; [by left|].
  apply IH in Hk as [Hk|Hk]; [|by right; right].
  unfold addItem in Hk. destruct (currentWeatherAt items idx) as [cw|]; [|by left].
  destruct (truthy cw); [|by left].
  destruct (decide (key cell = k)) as [->|Hne]; [right; by left|].
  rewrite lookup_insert_ne in Hk by done. by left.
Qed.

Lemma addItem_fresh items cells : forall idx result k,
  ~ In k (map key cells) ->
  foldi (addItem items) idx cells result !! k = result !! k.
Proof.
  induction cells as [|c0 cells IH]; simpl; intros idx result k Hk; [done|].
  rewrite IH by tauto. unfold addItem.
  destruct (currentWeatherAt items idx) as [cw|]; [|done].
  destruct (truthy cw); [|done]. apply lookup_insert_ne. tauto.
Qed.

Lemma addItem_lookup items cells : forall idx result j cell,
  NoDup (map key cells) ->
  cells !! j = Some cell ->
  foldi (addItem items) idx cells result !! key cell
  = match currentWeatherAt items (idx + j) with
    | Some cw => if truthy cw then Some (weatherOf cw) else result !! key cell
    | None => result !! key cell
    end.
Proof.
  induction cells as [|c0 cells IH]; simpl; intros idx result j cell Hnd Hj; [done|].
  apply NoDup_cons in Hnd as [Hfresh Hnd]. rewrite list_elem_of_In in Hfresh.
  destruct j as [|j]; simpl in Hj.
  - injection Hj as ->. rewrite Nat.add_0_r, addItem_fresh by done.
    unfold addItem. destruct (currentWeatherAt items idx) as [cw|]; [|done].
    destruct (truthy cw); [|done]. apply lookup_insert_eq.
  - rewrite (IH (S idx) _ j cell Hnd Hj), <- Nat.add_succ_comm.
    assert (Hother : addItem items result idx c0 !! key cell = result !! key cell).
    { unfold addItem. destruct (currentWeatherAt items idx) as [cw|]; [|done].
      destruct (truthy cw); [|done]. apply lookup_insert_ne.
      intros Heq. apply Hfresh. rewrite Heq. apply in_map.
      apply list_elem_of_In. by eapply list_elem_of_lookup_2. }
    by rewrite Hother.
Qed.

(** X7.  A status that is neither a success nor 429 nor 5xx (a 404, say)
    ends the call at once: one request, no pause, no retry, and the empty
    mapping as result, as if the provider had no data. *)
Theorem client_error_is_not_retried (c : Cell) (cs : list Cell) (w : World)
    (status : nat) (body : option JsVal) :
  open_meteo env (requests_sent w) = MeteoHttp status body ->
  res_ok status = false ->
  status <> 429%nat ->
  (status < 500)%nat ->
  fetchOpenMeteoBatch env (c :: cs) 0 w
  = (Ok ∅, await env (fetchEvent (c :: cs) 0) 0 w).
Proof.
  intros Hreply Hok H429 H500. rewrite fetchOpenMeteoBatch_step. cbv zeta.
  rewrite Hreply. unfold attemptResult. rewrite Hok.
  apply Nat.eqb_neq in H429. apply Nat.leb_gt in H500. by rewrite H429, H500.
Qed.

(** X8.  A successful answer is matched to the batch by position: the cell
    at position [j] gets the reading made of [items[j].current_weather] when
    that is present and truthy, and no entry otherwise (so a body with fewer
    items than cells leaves the later cells without a reading).  The result
    has no other keys, and the call takes one request. *)
Theorem answered_batch_is_matched_by_position (c : Cell) (cs : list Cell) (w : World)
    (status : nat) (data : JsVal) (items : list JsVal) :
  open_meteo env (requests_sent w) = MeteoHttp status (Some data) ->
  res_ok status = true ->
  itemsOf data = Some items ->
  NoDup (map key (c :: cs)) ->
  exists result,
    fetchOpenMeteoBatch env (c :: cs) 0 w
    = (Ok result, await env (fetchEvent (c :: cs) 0) 0 w)
    /\ (forall j cell,
          (c :: cs) !! j = Some cell ->
          result !! key cell
          = match currentWeatherAt items j with
            | Some cw => if truthy cw then Some (weatherOf cw) else None
            | None => None
            end)
    /\ (forall j cell,
          (c :: cs) !! j = Some cell -> (length items <= j)%nat -> result !! key cell = None)
    /\ (forall k, is_Some (result !! k) -> In k (map key (c :: cs))).
Proof.
  intros Hreply Hok Hitems Hnd.
  exists (foldi (addItem items) 0 (c :: cs) ∅).
  assert (Hat : forall j cell,
             (c :: cs) !! j = Some cell ->
             foldi (addItem items) 0 (c :: cs) ∅ !! key cell
             = match currentWeatherAt items j with
               | Some cw => if truthy cw then Some (weatherOf cw) else None
               | None => None
               end).
  { intros j cell Hj. rewrite (addItem_lookup items (c :: cs) 0 ∅ j cell Hnd Hj).
    simpl. rewrite lookup_empty. by destruct (currentWeatherAt items j) as [cw|]. }
  split_and!.
  - rewrite fetchOpenMeteoBatch_step. cbv zeta.
    rewrite Hreply. unfold attemptResult. rewrite Hok, Hitems.
    unfold res_ok in Hok. apply andb_true_iff in Hok as [Hlo Hhi].
    apply Nat.leb_le in Hlo, Hhi.
    assert (H429 : (status =? 429)%nat = false) by (apply Nat.eqb_neq; lia).
    assert (H500 : (500 <=? status)%nat = false) by (apply Nat.leb_gt; lia).
    by rewrite H429, H500.
  - exact Hat.
  - intros j cell Hj Hshort. rewrite (Hat j cell Hj). unfold currentWeatherAt.
    by rewrite (lookup_ge_None_2 items j Hshort).
  - intros k Hk. apply addItem_keys in Hk as [Hk|Hk]; [|done].
    rewrite lookup_empty in Hk. by destruct Hk.
Qed.

End RetryExtras.

Section RetryExtrasRuns.
Import Weather Runtime.

Lemma client_error_is_not_retried_witness :
  Weather.fetchOpenMeteoBatch MoreInputs.notFound [Inputs.cellA] 0 Inputs.freshWorld
  = (Ok ∅, await MoreInputs.notFound (fetchEvent [Inputs.cellA] 0) 0 Inputs.freshWorld).
Proof.
  apply (client_error_is_not_retried MoreInputs.notFound Inputs.cellA [] Inputs.freshWorld
           404 None); [reflexivity|reflexivity|lia|lia].
Defined.

Lemma answered_batch_is_matched_by_position_witness :
  exists result,
    Weather.fetchOpenMeteoBatch Inputs.noCache [Inputs.cellA] 0 Inputs.freshWorld
    = (Ok result, await Inputs.noCache (fetchEvent [Inputs.cellA] 0) 0 Inputs.freshWorld)
    /\ (forall j cell,
          [Inputs.cellA] !! j = Some cell ->
          result !! key cell
          = match currentWeatherAt [Inputs.pointAnswer] j with
            | Some cw => if truthy cw then Some (weatherOf cw) else None
            | None => None
            end)
    /\ (forall j cell,
          [Inputs.cellA] !! j = Some cell ->
          (length [Inputs.pointAnswer] <= j)%nat -> result !! key cell = None)
    /\ (forall k, is_Some (result !! k) -> In k (map key [Inputs.cellA])).
Proof.
  apply (answered_batch_is_matched_by_position Inputs.noCache Inputs.cellA []
           Inputs.freshWorld 200 (JArr [Inputs.pointAnswer]) [Inputs.pointAnswer]);
    [reflexivity|reflexivity|reflexivity|].
  simpl. apply NoDup_cons. split; [|apply NoDup_nil_2]. apply not_elem_of_nil.
Defined.

End RetryExtrasRuns.

(** ** The cache lookup (route.ts) *)

Lemma foldi_snoc {A St} (f : St -> nat -> A -> St) (l : list A) (x : A) : forall i s,
  foldi f i (l ++ [x]) s = f (foldi f i l s) (i + length l)%nat x.
Proof.
  induction l as [|y l IH]; simpl; intros i s.
  - by rewrite Nat.add_0_r.
  - rewrite IH. f_equal. lia.
Qed.

Section CacheLookup.
Import Weather Route.
Context `{JsBuiltins} (env : Env).

Lemma readCached_cachedValue cached cw missing idx cell :
  readCached cached (cw, missing) idx cell
  = match cachedValue cached idx with
    | Some v => (<[key cell := FromCache v]> cw, missing)
    | None => (cw, missing ++ [cell])
    end.
Proof.
  unfold readCached, cachedValue.
  destruct (cached !! idx) as [[raw|]|]; try done.
  destruct (String.eqb raw ""); [done|]. by destruct (JSON_parse raw).
Qed.

Lemma key_of_In_inj (cells : list Cell) c1 c2 :
  NoDup (map key cells) -> In c1 cells -> In c2 cells -> key c1 = key c2 -> c1 = c2.
Proof. apply In_map_NoDup_inj. Qed.

(** The split of the cells after the lookup loop. *)
Lemma readCached_split cached cells :
  NoDup (map key cells) ->
  exists cw missing,
    foldi (readCached cached) 0 cells (∅, []) = (cw, missing)
    /\ missing `sublist_of` cells
    /\ (forall k, is_Some (cw !! k) -> In k (map key cells))
    /\ (forall j cell,
          cells !! j = Some cell ->
          match cachedValue cached j with
          | Some v => cw !! key cell = Some (FromCache v) /\ ~ In cell missing
          | None => cw !! key cell = None /\ In cell missing
          end).
Proof.
  induction cells as [|x cells IH] using rev_ind; intros Hnd.
  - exists ∅, []. split_and!; [done|done| |done].
    intros k Hk. rewrite lookup_empty in Hk. by destruct Hk.
  - rewrite map_app in Hnd. apply NoDup_app in Hnd as (Hnd & Hfresh & _).
    destruct (IH Hnd) as (cw & missing & Hrun & Hsub & Hdom & Hat).
    assert (Hx : ~ In (key x) (map key cells)).
    { intros Hin%list_elem_of_In. apply (Hfresh _ Hin). simpl. by left. }
    assert (Hnew : cw !! key x = None).
    { destruct (cw !! key x) eqn:E; [|done]. exfalso. apply Hx, Hdom. by rewrite E. }
    assert (Hmiss : forall c, In c missing -> In c cells).
    { intros c Hc%list_elem_of_In. eapply list_elem_of_In, elem_of_sublist; eauto. }
    rewrite foldi_snoc, Hrun, readCached_cachedValue. simpl.
    destruct (cachedValue cached (length cells)) as [v|] eqn:Hv.
    + exists (<[key x := FromCache v]> cw), missing. split_and!; [done| | |].
      * by apply sublist_inserts_r.
      * intros k Hk. rewrite map_app. apply in_or_app.
        destruct (decide (key x = k)) as [<-|Hne]; [right; by left|].
        rewrite lookup_insert_ne in Hk by done. left. by apply Hdom.
      * intros j cell Hj. apply lookup_app_Some in Hj as [Hj|[Hlen Hj]].
        -- specialize (Hat j cell Hj).
           assert (Hne : key x <> key cell).
           { intros Heq. apply Hx. rewrite Heq. apply in_map.
             apply list_elem_of_In. by eapply list_elem_of_lookup_2. }
           rewrite lookup_insert_ne by done. exact Hat.
        -- destruct (j - length cells)%nat as [|?] eqn:Hd; [|done].
           simpl in Hj. injection Hj as <-.
           assert (j = length cells) as -> by lia. rewrite Hv.
           rewrite lookup_insert_eq. split; [done|].
           intros Hin. apply Hx, in_map, Hmiss, Hin.
    + exists cw, (missing ++ [x]). split_and!; [done| | |].
      * by apply sublist_app.
      * intros k Hk. rewrite map_app. apply in_or_app. left. by apply Hdom.
      * intros j cell Hj. apply lookup_app_Some in Hj as [Hj|[Hlen Hj]].
        -- specialize (Hat j cell Hj).
           assert (Hne : cell <> x).
           { intros ->. apply Hx, in_map.
             apply list_elem_of_In. by eapply list_elem_of_lookup_2. }
           destruct (cachedValue cached j) as [v|].
           ++ destruct Hat as [Hcw Hout]. split; [done|].
              intros [Hin|[Hin|[]]]%in_app_or; [done|by symmetry in Hin].
           ++ destruct Hat as [Hcw Hin]. split; [done|]. apply in_or_app. by left.
        -- destruct (j - length cells)%nat as [|?] eqn:Hd; [|done].
           simpl in Hj. injection Hj as <-.
           assert (j = length cells) as -> by lia. rewrite Hv.
           split; [done|]. apply in_or_app. right. by left.
Qed.

(** X9.  With a cache client, the lookup sends one bulk read for the keys of
    all cells and splits the cells by the answer: a cell whose cached string
    is present, non-empty and parses is served from the cache and is not
    fetched; every other cell goes to [missingCells], in the order of the
    cells.  No cell is in both parts, none in neither. *)
Theorem cache_lookup_splits_the_cells (client : Redis) (cells : list Cell)
    (cached : list (option string)) (w : World) :
  redis_mget env (map weatherCacheKey cells) = Some cached ->
  NoDup (map key cells) ->
  exists cellWeather missingCells,
    lookupCache env (Some client) cells w
    = (Ok (cellWeather, missingCells),
       await env (EvMget (map weatherCacheKey cells)) 0 w)
    /\ missingCells `sublist_of` cells
    /\ (forall k, is_Some (cellWeather !! k) -> In k (map key cells))
    /\ (forall j cell,
          cells !! j = Some cell ->
          match cachedValue cached j with
          | Some v => cellWeather !! key cell = Some (FromCache v) /\ ~ In cell missingCells
          | None => cellWeather !! key cell = None /\ In cell missingCells
          end).
Proof.
  intros Hmget Hnd.
  destruct (readCached_split cached cells Hnd) as (cw & missing & Hrun & Hrest).
  exists cw, missing. split; [|exact Hrest].
  unfold lookupCache, bind, mget, ret. by rewrite Hmget, Hrun.
Qed.

End CacheLookup.

(** ** What a request does to the provider and the cache (route.ts) *)

Lemma fetchesOf_app evs1 evs2 :
  fetchesOf (evs1 ++ evs2) = (fetchesOf evs1 + fetchesOf evs2)%nat.
Proof. unfold fetchesOf. by rewrite List.filter_app, length_app. Qed.

Lemma notRedis_not_rejected env evs :
  Forall notRedis evs -> Forall (fun ev => rejected env ev = false) evs.
Proof.
  apply List.Forall_impl. intros ev. unfold notRedis. by destruct ev.
Qed.

Lemma stopsAtRejection_app env evs1 evs2 failed :
  Forall (fun ev => rejected env ev = false) evs1 ->
  stopsAtRejection env failed evs2 ->
  stopsAtRejection env failed (evs1 ++ evs2).
Proof.
  intros H1 H2. destruct failed; simpl in *.
  - destruct H2 as (evs0 & ev & -> & Hrej & Hok).
    exists (evs1 ++ evs0), ev. rewrite app_assoc. split_and!; [done|done|].
    by apply Forall_app.
  - by apply Forall_app.
Qed.

Section LoopEffects.
Import Weather Route.
Context `{JsBuiltins} (env : Env).

Lemma retryEvents_notRedis cells n : forall attempt,
  Forall notRedis (retryEvents cells attempt n).
Proof.
  induction n as [|n IH]; intros attempt; simpl.
  - by constructor.
  - constructor; [done|]. constructor; [done|]. apply IH.
Qed.

Lemma attemptResult_keys cells reply result k :
  attemptResult cells reply = Some result ->
  is_Some (result !! k) -> In k (map key cells).
Proof.
  unfold attemptResult. destruct reply as [|status body]; [done|].
  destruct (_ || _); [done|]. destruct (negb _).
  { intros [= <-] Hk. rewrite lookup_empty in Hk. by destruct Hk. }
  destruct body as [data|]; [|done]. destruct (itemsOf data) as [items|]; [|done].
  intros [= <-] Hk. apply addItem_keys in Hk as [Hk|Hk]; [|done].
  rewrite lookup_empty in Hk. by destruct Hk.
Qed.

(** What a batch call does, for any batch and any provider. *)
Lemma fetchOpenMeteoBatch_effects cells w :
  exists result evs,
    fetchOpenMeteoBatch env cells 0 w
    = (Ok result, snd (fetchOpenMeteoBatch env cells 0 w))
    /\ trace (snd (fetchOpenMeteoBatch env cells 0 w)) = trace w ++ evs
    /\ (fetchesOf evs <= 6)%nat
    /\ Forall notRedis evs
    /\ (forall k, is_Some (result !! k) -> In k (map key cells)).
Proof.
  destruct cells as [|c cs].
  - simp fetchOpenMeteoBatch. exists ∅, []. simpl. rewrite app_nil_r.
    split_and!; [done|done|unfold fetchesOf; simpl; lia|done|].
    intros k Hk. rewrite lookup_empty in Hk. by destruct Hk.
  - destruct (fetchOpenMeteoBatch_run env c cs maxRetries 0 w eq_refl)
      as (n & result & w' & Hn & Hrun & Htrace & _ & Hlast).
    rewrite Hrun. simpl. exists result, (retryEvents (c :: cs) 0 n).
    split_and!; [done|done| | |].
    + rewrite retryEvents_fetches. unfold maxRetries in Hn. lia.
    + apply retryEvents_notRedis.
    + intros k Hk.
      destruct (attemptResult (c :: cs) (open_meteo env (requests_sent w + n)))
        as [answered|] eqn:Hans.
      * subst result. exact (attemptResult_keys _ _ _ _ Hans Hk).
      * destruct Hlast as [_ ->]. rewrite lookup_empty in Hk. by destruct Hk.
Qed.

Lemma rateLimit_effects st w :
  exists st1 w1 evs,
    rateLimit env st w = (Ok st1, w1)
    /\ trace w1 = trace w ++ evs
    /\ fetchesOf evs = 0%nat
    /\ Forall notRedis evs
    /\ cellWeather st1 = cellWeather st
    /\ (requestsInWindow st1 = 0 \/ st1 = st).
Proof.
  unfold rateLimit, bind, Date_now, sleep, ret. simpl.
  destruct (_ && _); [|destruct (_ <=? _)].
  - eexists _, _, [_]. split_and!; [done|done|done| |done|by left]. by constructor.
  - eexists _, _, []. rewrite app_nil_r. split_and!; [done|done|done|done|done|by left].
  - eexists _, _, []. rewrite app_nil_r. split_and!; [done|done|done|done|done|by right].
Qed.

(** The part of an iteration after the limiter. *)
Lemma issueBatch_effects redis ttlSeconds batch st1 w :
  exists evs,
    let run := issueBatch env redis ttlSeconds batch st1 w in
    trace (snd run) = trace w ++ evs
    /\ (fetchesOf evs <= 6)%nat
    /\ stopsAtRejection env (failed (fst run)) evs
    /\ (redis = None \/ num_lt (S754_zero false) ttlSeconds = false ->
        failed (fst run) = false /\ Forall notRedis evs)
    /\ (forall st2, fst run = Ok st2 ->
          requestsInWindow st2 = requestsInWindow st1 + 1
          /\ windowStart st2 = windowStart st1
          /\ exists result,
               cellWeather st2 = mergeBatch result (cellWeather st1)
               /\ forall k, is_Some (result !! k) -> In k (map key batch)).
Proof.
  destruct (fetchOpenMeteoBatch_effects batch w) as (result & evs & Hrun & Htrace & Hn & Hnr & Hkeys).
  unfold issueBatch, bind. rewrite Hrun.
  set (w1 := snd (fetchOpenMeteoBatch env batch 0 w)) in *.
  set (st2 := {| requestsInWindow := requestsInWindow st1 + 1;
                 windowStart := windowStart st1;
                 cellWeather := mergeBatch result (cellWeather st1) |}).
  assert (Hquiet :
    let run := ret st2 w1 in
    trace (snd run) = trace w ++ evs
    /\ (fetchesOf evs <= 6)%nat
    /\ stopsAtRejection env (failed (fst run)) evs
    /\ (redis = None \/ num_lt (S754_zero false) ttlSeconds = false ->
        failed (fst run) = false /\ Forall notRedis evs)
    /\ (forall st2', fst run = Ok st2' ->
          requestsInWindow st2' = requestsInWindow st1 + 1
          /\ windowStart st2' = windowStart st1
          /\ exists result,
               cellWeather st2' = mergeBatch result (cellWeather st1)
               /\ forall k, is_Some (result !! k) -> In k (map key batch))).
  { simpl. split_and!; [done|done|by apply notRedis_not_rejected|done|].
    intros st2' [= <-]. split_and!; [done|done|]. by exists result. }
  destruct redis as [client|]; [|by exists evs].
  destruct (num_lt (S754_zero false) ttlSeconds) eqn:Httl; [|by exists evs].
  unfold pipelineExec, ret.
  exists (evs ++ [EvPipeline (cacheWrites batch result) ttlSeconds]).
  destruct (redis_exec env (cacheWrites batch result)) eqn:Hexec; simpl.
  - split_and!.
    + by rewrite Htrace, app_assoc.
    + rewrite fetchesOf_app. change (fetchesOf [_]) with 0%nat. lia.
    + apply Forall_app. split; [by apply notRedis_not_rejected|].
      constructor; [|done]. simpl. by rewrite Hexec.
    + by intros [|].
    + intros st2' [= <-]. split_and!; [done|done|]. by exists result.
  - split_and!.
    + by rewrite Htrace, app_assoc.
    + rewrite fetchesOf_app. change (fetchesOf [_]) with 0%nat. lia.
    + exists evs, (EvPipeline (cacheWrites batch result) ttlSeconds).
      split_and!; [done| |by apply notRedis_not_rejected]. simpl. by rewrite Hexec.
    + by intros [|].
    + done.
Qed.

(** What the batch loop does, for any provider and any cache. *)
Lemma runBatches_effects redis ttlSeconds batches : forall st w,
  exists evs,
    let run := runBatches env redis ttlSeconds batches st w in
    trace (snd run) = trace w ++ evs
    /\ (fetchesOf evs <= 6 * length batches)%nat
    /\ stopsAtRejection env (failed (fst run)) evs
    /\ (redis = None \/ num_lt (S754_zero false) ttlSeconds = false ->
        failed (fst run) = false /\ Forall notRedis evs)
    /\ (forall st', fst run = Ok st' ->
          Z.min (requestsInWindow st) 0 <= requestsInWindow st'
            <= Z.max (requestsInWindow st) 0 + Z.of_nat (length batches)
          /\ forall k,
               match cellWeather st' !! k with
               | Some (FromCache v) => cellWeather st !! k = Some (FromCache v)
               | Some (FromProvider _) => True
               | None => cellWeather st !! k = None
               end
               /\ (~ In k (map key (concat batches)) ->
                   cellWeather st' !! k = cellWeather st !! k)).
Proof.
  induction batches as [|batch rest IH]; intros st w.
  - exists []. simpl. rewrite app_nil_r.
    split_and!; [done|change (fetchesOf []) with 0%nat; lia|done|done|].
    intros st' [= <-]. split; [lia|]. intros k. split; [|done].
    by destruct (cellWeather st !! k) as [[]|].
  - destruct (rateLimit_effects st w)
      as (st1 & w1 & evs1 & Hgate & Ht1 & Hf1 & Hnr1 & Hcw1 & Hreq1).
    destruct (issueBatch_effects redis ttlSeconds batch st1 w1)
      as (evs2 & Ht2 & Hf2 & Hstop2 & Hquiet2 & Hst2).
    assert (Hstep : runBatches env redis ttlSeconds (batch :: rest) st w
                    = match issueBatch env redis ttlSeconds batch st1 w1 with
                      | (Ok st2, w2) => runBatches env redis ttlSeconds rest st2 w2
                      | (Throw e, w2) => (Throw e, w2)
                      end).
    { cbn [runBatches]. unfold bind at 1. unfold processBatch, bind at 1.
      by rewrite Hgate. }
    cbv zeta in *. rewrite Hstep. clear Hstep.
    destruct (issueBatch env redis ttlSeconds batch st1 w1) as [[st2|e] w2]; simpl in *.
    + destruct (IH st2 w2) as (evs3 & Ht3 & Hf3 & Hstop3 & Hquiet3 & Hst3).
      cbv zeta in *.
      exists (evs1 ++ evs2 ++ evs3). split_and!.
      * by rewrite Ht3, Ht2, Ht1, <- !app_assoc.
      * rewrite !fetchesOf_app. lia.
      * apply stopsAtRejection_app; [by apply notRedis_not_rejected|].
        by apply stopsAtRejection_app.
      * intros Hcond. destruct (Hquiet2 Hcond) as [_ Hq2].
        destruct (Hquiet3 Hcond) as [Hok Hq3]. split; [done|].
        apply Forall_app. split; [done|]. by apply Forall_app.
      * intros st' Hst'. destruct (Hst3 st' Hst') as [Hcount Hcw].
        destruct (Hst2 st2 eq_refl) as (Hc2 & _ & result & Hmerge & Hkeys).
        split; [destruct Hreq1 as [Hz| ->]; lia|].
        intros k. destruct (Hcw k) as [Hfrom Hsame].
        assert (Hst2k : cellWeather st2 !! k
                        = match result !! k with
                          | Some wx => Some (FromProvider wx)
                          | None => cellWeather st !! k
                          end).
        { rewrite Hmerge, Hcw1. unfold mergeBatch.
          rewrite lookup_union, lookup_fmap.
          destruct (result !! k); simpl; [by destruct (cellWeather st !! k)|].
          by destruct (cellWeather st !! k). }
        split.
        -- destruct (cellWeather st' !! k) as [[wx|v]|]; [done| |];
             rewrite Hst2k in Hfrom; by destruct (result !! k).
        -- intros Hout. rewrite map_app in Hout.
           rewrite Hsame by (intros Hin; apply Hout, in_or_app; by right).
           rewrite Hst2k. destruct (result !! k) eqn:Hres; [|done].
           exfalso. apply Hout, in_or_app. left. apply Hkeys. by rewrite Hres.
    + exists (evs1 ++ evs2). split_and!.
      * by rewrite Ht2, Ht1, <- !app_assoc.
      * rewrite !fetchesOf_app. lia.
      * apply (stopsAtRejection_app env evs1 evs2 true);
          [by apply notRedis_not_rejected|done].
      * intros Hcond. by destruct (Hquiet2 Hcond).
      * done.
Qed.

End LoopEffects.

Section RequestEffects.
Import Weather Route.
Context `{JsBuiltins} (env : Env).

Lemma batchesOf_length (l : list Cell) :
  length (batchesOf l)
  = ((length l + (WEATHER_BATCH_SIZE - 1)) / WEATHER_BATCH_SIZE)%nat.
Proof. unfold batchesOf. by rewrite length_map, length_seq. Qed.

Lemma batchesOf_concat (l : list Cell) : concat (batchesOf l) = l.
Proof.
  unfold batchesOf. rewrite slices_concat. apply take_ge.
  apply (slices_count WEATHER_BATCH_SIZE (length l)). unfold WEATHER_BATCH_SIZE. lia.
Qed.

Lemma readCached_length cached cells : forall idx cw missing,
  (length (snd (foldi (readCached cached) idx cells (cw, missing)))
   <= length missing + length cells)%nat.
Proof.
  induction cells as [|c cells IH]; intros idx cw missing; cbn [foldi length snd]; [lia|].
  rewrite readCached_cachedValue. destruct (cachedValue cached idx).
  - etrans; [apply IH|]. lia.
  - etrans; [apply IH|]. rewrite length_app. simpl. lia.
Qed.

Lemma readCached_all_hits cached cells : forall idx cw missing,
  (forall j, (j < length cells)%nat -> is_Some (cachedValue cached (idx + j))) ->
  snd (foldi (readCached cached) idx cells (cw, missing)) = missing.
Proof.
  induction cells as [|c cells IH]; intros idx cw missing Hall; cbn [foldi length] in *;
    [done|].
  rewrite readCached_cachedValue.
  destruct (Hall 0%nat ltac:(lia)) as [v Hv]. rewrite Nat.add_0_r in Hv. rewrite Hv.
  apply IH. intros j Hj. rewrite Nat.add_succ_comm. apply Hall. lia.
Qed.

(** What the cache lookup does. *)
Lemma lookupCache_effects redis cells w :
  exists evs,
    let run := lookupCache env redis cells w in
    trace (snd run) = trace w ++ evs
    /\ fetchesOf evs = 0%nat
    /\ stopsAtRejection env (failed (fst run)) evs
    /\ (forall looked, fst run = Ok looked -> (length (snd looked) <= length cells)%nat).
Proof.
  unfold lookupCache. destruct redis as [client|].
  - unfold bind, mget, ret.
    exists [EvMget (map weatherCacheKey cells)].
    destruct (redis_mget env (map weatherCacheKey cells)) as [cached|] eqn:Hmget; simpl.
    + split_and!; [done|done| |].
      * constructor; [|done]. simpl. by rewrite Hmget.
      * intros looked [= <-]. apply (readCached_length cached cells 0 ∅ []).
    + split_and!; [done|done| |done].
      exists [], (EvMget (map weatherCacheKey cells)). split_and!; [done| |done].
      simpl. by rewrite Hmget.
  - exists []. unfold ret. simpl. rewrite app_nil_r.
    split_and!; [done|done|done|]. by intros looked [= <-].
Qed.

Lemma resolveCells_step cells w :
  resolveCells env cells w
  = match lookupCache env (getRedisClient env) cells w with
    | (Ok looked, w1) =>
        runBatches env (getRedisClient env) (ttlSecondsOf env) (batchesOf (snd looked))
          {| requestsInWindow := 0; windowStart := clock w1; cellWeather := fst looked |} w1
    | (Throw e, w1) => (Throw e, w1)
    end.
Proof.
  unfold resolveCells, bind, Date_now.
  by destruct (lookupCache env (getRedisClient env) cells w) as [[looked|e] w1].
Qed.

(** What the cache lookup and the batch loop do together. *)
Lemma resolveCells_effects cells w :
  exists evs,
    let run := resolveCells env cells w in
    trace (snd run) = trace w ++ evs
    /\ (fetchesOf evs <= 6 * ((length cells + (WEATHER_BATCH_SIZE - 1)) / WEATHER_BATCH_SIZE))%nat
    /\ stopsAtRejection env (failed (fst run)) evs
    /\ (forall st, fst run = Ok st ->
          0 <= requestsInWindow st
          <= Z.of_nat ((length cells + (WEATHER_BATCH_SIZE - 1)) / WEATHER_BATCH_SIZE)).
Proof.
  destruct (lookupCache_effects (getRedisClient env) cells w)
    as (evs1 & Ht1 & Hf1 & Hstop1 & Hlen).
  cbv zeta in *. rewrite resolveCells_step.
  destruct (lookupCache env (getRedisClient env) cells w) as [[looked|e] w1];
    cbn [fst snd failed] in *.
  - destruct (runBatches_effects env (getRedisClient env) (ttlSecondsOf env)
                (batchesOf (snd looked))
                {| requestsInWindow := 0; windowStart := clock w1;
                   cellWeather := fst looked |} w1)
      as (evs2 & Ht2 & Hf2 & Hstop2 & _ & Hst).
    cbv zeta in *. rewrite batchesOf_length in Hf2, Hst.
    assert (Hmono : ((length (snd looked) + (WEATHER_BATCH_SIZE - 1)) / WEATHER_BATCH_SIZE
                     <= (length cells + (WEATHER_BATCH_SIZE - 1)) / WEATHER_BATCH_SIZE)%nat).
    { apply Nat.Div0.div_le_mono. specialize (Hlen looked eq_refl). lia. }
    exists (evs1 ++ evs2). split_and!.
    + by rewrite Ht2, Ht1, app_assoc.
    + rewrite fetchesOf_app. lia.
    + by apply stopsAtRejection_app.
    + intros st Hrun. destruct (Hst st Hrun) as [Hcount _]. cbn [requestsInWindow] in Hcount.
      lia.
  - exists evs1. split_and!; [done|rewrite Hf1; lia|done|done].
Qed.

(** X10.  The handler answers 500 exactly when the cache rejects a command:
    a request that fails ends with the rejected command (the bulk read or a
    pipeline of writes), and in a request answered with 200 no command sent
    to the cache was rejected.  Nothing the provider does fails a request. *)
Theorem request_fails_exactly_when_the_cache_rejects (treasure : nat -> TreasureReply)
    (w : World) :
  exists evs,
    trace (snd (GET env treasure w)) = trace w ++ evs
    /\ match fst (GET env treasure w) with
       | Response200 _ => Forall (fun ev => rejected env ev = false) evs
       | Response500 _ =>
           exists evs0 ev,
             evs = evs0 ++ [ev] /\ isRedisEvent ev = true /\ rejected env ev = true
             /\ Forall (fun ev => rejected env ev = false) evs0
       end.
Proof.
  unfold GET, fetchWeatherForAllBalloons, bind.
  set (balloons := GET_balloons (fun _ => clock w) treasure).
  destruct (resolveCells_effects (clusterLatestPointsIntoCells balloons) w)
    as (evs & Ht & _ & Hstop & _).
  cbv zeta in *.
  destruct (resolveCells env (clusterLatestPointsIntoCells balloons) w) as [[st|e] w1];
    simpl in *; exists evs; (split; [done|]); [done|].
  destruct Hstop as (evs0 & ev & -> & Hrej & Hok). exists evs0, ev.
  split_and!; [done| |done|done]. by destruct ev.
Qed.

(** X11.  The provider is asked at most 6 times per batch of 50 cells: a
    resolution of [cells] sends at most 6 * ceil(|cells| / 50) requests,
    while the limiter's counter, which counts one per batch whatever the
    number of attempts, ends at no more than ceil(|cells| / 50). *)
Theorem six_requests_per_batch_at_most (cells : list Cell) (w : World) :
  let run := resolveCells env cells w in
  let batches := ((length cells + (WEATHER_BATCH_SIZE - 1)) / WEATHER_BATCH_SIZE)%nat in
  (requests_sent (snd run) <= requests_sent w + 6 * batches)%nat
  /\ (forall st, fst run = Ok st -> 0 <= requestsInWindow st <= Z.of_nat batches).
Proof.
  destruct (resolveCells_effects cells w) as (evs & Ht & Hf & _ & Hst).
  cbv zeta in *. split; [|done].
  rewrite (requests_sent_app _ _ _ Ht). lia.
Qed.

(** X12.  When the cache has a usable string for every cell, the request
    is served from the cache alone: one bulk read, no request to the
    provider, no pause and no write, and the answer is 200 with the cached
    values fanned out. *)
Theorem fully_cached_request_asks_no_provider (treasure : nat -> TreasureReply)
    (w : World) (client : Redis) (cached : list (option string)) :
  let balloons := GET_balloons (fun _ => clock w) treasure in
  let cells := clusterLatestPointsIntoCells balloons in
  getRedisClient env = Some client ->
  redis_mget env (map weatherCacheKey cells) = Some cached ->
  (forall j, (j < length cells)%nat -> is_Some (cachedValue cached j)) ->
  exists payload w',
    GET env treasure w = (Response200 payload, w')
    /\ trace w' = trace w ++ [EvMget (map weatherCacheKey cells)]
    /\ requests_sent w' = requests_sent w
    /\ latestWeather payload
       = fanOut cells (fst (foldi (readCached cached) 0 cells (∅, []))).
Proof.
  intros balloons cells Hclient Hmget Hall.
  unfold GET, fetchWeatherForAllBalloons, bind. fold balloons. fold cells.
  rewrite resolveCells_step, Hclient. unfold lookupCache, bind, mget, ret.
  rewrite Hmget.
  rewrite (readCached_all_hits cached cells 0 ∅ []) by exact Hall.
  change (batchesOf []) with (@nil (list Cell)). cbn [runBatches]. unfold ret.
  eexists _, _. split_and!; [reflexivity|done| |done].
  unfold requests_sent. simpl. rewrite List.filter_app. simpl. by rewrite app_nil_r.
Qed.

(** X13.  A time-to-live that is not above zero (zero, negative, or NaN as
    for an unparsable setting) turns the cache writes off: whatever the
    client, the batch loop completes and sends no command to the cache. *)
Theorem nonpositive_ttl_disables_cache_writes (redis : option Redis)
    (ttlSeconds : number) (batches : list (list Cell)) (st : LoopState) (w : World) :
  num_lt (S754_zero false) ttlSeconds = false ->
  exists st' w',
    runBatches env redis ttlSeconds batches st w = (Ok st', w')
    /\ extends_with notRedis w w'.
Proof.
  intros Httl.
  destruct (runBatches_effects env redis ttlSeconds batches st w)
    as (evs & Ht & _ & _ & Hquiet & _).
  cbv zeta in *. destruct (Hquiet (or_intror Httl)) as [Hok Hnr].
  destruct (runBatches env redis ttlSeconds batches st w) as [[st'|e] w']; [|done].
  exists st', w'. split; [done|]. by exists evs.
Qed.

(** X14.  What the cache served is final: a cell with a usable cached string
    ends the resolution with that cached value (it is neither fetched again
    nor overwritten by another cell's answer), and a cell the cache missed
    ends with a reading from the provider or with none. *)
Theorem cached_readings_are_kept (client : Redis) (cells : list Cell)
    (cached : list (option string)) (st : LoopState) (w w' : World) :
  getRedisClient env = Some client ->
  redis_mget env (map weatherCacheKey cells) = Some cached ->
  NoDup (map key cells) ->
  resolveCells env cells w = (Ok st, w') ->
  forall j cell,
    cells !! j = Some cell ->
    match cachedValue cached j with
    | Some v => cellWeather st !! key cell = Some (FromCache v)
    | None => forall v, cellWeather st !! key cell <> Some (FromCache v)
    end.
Proof.
  intros Hclient Hmget Hnd Hrun j cell Hj.
  destruct (readCached_split cached cells Hnd) as (cw & missing & Hsplit & Hsub & _ & Hat).
  rewrite resolveCells_step, Hclient in Hrun.
  unfold lookupCache, bind, mget, ret in Hrun. rewrite Hmget, Hsplit in Hrun.
  cbn [fst snd] in Hrun.
  destruct (runBatches_effects env (Some client) (ttlSecondsOf env) (batchesOf missing)
              {| requestsInWindow := 0;
                 windowStart := clock (await env (EvMget (map weatherCacheKey cells)) 0 w);
                 cellWeather := cw |}
              (await env (EvMget (map weatherCacheKey cells)) 0 w))
    as (evs & _ & _ & _ & _ & Hst).
  cbv zeta in Hst. rewrite Hrun in Hst.
  destruct (Hst st eq_refl) as [_ Hcw]. cbn [cellWeather] in Hcw.
  destruct (Hcw (key cell)) as [Hfrom Hsame]. rewrite batchesOf_concat in Hsame.
  specialize (Hat j cell Hj). destruct (cachedValue cached j) as [v|].
  - destruct Hat as [Hhit Hout]. rewrite Hsame; [done|].
    intros Hin. apply in_map_iff in Hin as (c' & Hkey & Hin). apply Hout.
    assert (c' = cell) as <-; [|done].
    apply (key_of_In_inj cells);
      [done| |by apply list_elem_of_lookup_2, list_elem_of_In in Hj|done].
    apply list_elem_of_In. eapply elem_of_sublist; [|exact Hsub]. by apply list_elem_of_In.
  - destruct Hat as [Hmiss _]. intros v Hv. rewrite Hv in Hfrom. congruence.
Qed.

(** X15.  When no snapshot is available there are no balloons and no cells.
    Without a cache the handler then answers 200 with an empty payload and
    does nothing else; with a cache client it still sends the bulk read,
    with no keys, and answers 200 or 500 as that read resolves or rejects. *)
Theorem request_without_snapshots (treasure : nat -> TreasureReply) (w : World) :
  (forall h, fetchTreasureSnapshot (treasure h) = None) ->
  GET_balloons (fun _ => clock w) treasure = []
  /\ GET env treasure w
     = match getRedisClient env with
       | None =>
           (Response200 {| generatedAt := clock w; payload_points := [];
                           payload_balloons := []; latestWeather := ∅ |}, w)
       | Some _ =>
           let w' := await env (EvMget []) 0 w in
           match redis_mget env [] with
           | Some _ =>
               (Response200 {| generatedAt := clock w'; payload_points := [];
                               payload_balloons := []; latestWeather := ∅ |}, w')
           | None => (Response500 "Failed to build balloon history", w')
           end
       end.
Proof.
  intros Hnone.
  assert (Hballoons : GET_balloons (fun _ => clock w) treasure = []).
  { unfold GET_balloons, rawSnapshotsOf.
    replace (filterAvailable _) with (@nil (option (list JsVal))); [done|].
    symmetry. unfold filterAvailable. generalize (seq 0 HOURS_BACK).
    intros hours. induction hours as [|h hours IH]; simpl; [done|].
    by rewrite Hnone. }
  split; [done|].
  unfold GET, fetchWeatherForAllBalloons, bind. rewrite Hballoons.
  change (clusterLatestPointsIntoCells []) with (@nil Cell).
  rewrite resolveCells_step. unfold lookupCache, bind, mget, ret.
  destruct (getRedisClient env) as [client|]; simpl.
  - destruct (redis_mget env []) as [cached|]; simpl; done.
  - done.
Qed.

End RequestEffects.

Section RequestRuns.
Import Weather Route Runtime.

Lemma cache_lookup_splits_the_cells_witness :
  exists cellWeather missingCells,
    lookupCache MoreInputs.cachedNull (Some MoreInputs.cacheClient) [Inputs.cellA]
      Inputs.freshWorld
    = (Ok (cellWeather, missingCells),
       await MoreInputs.cachedNull (EvMget (map weatherCacheKey [Inputs.cellA])) 0
         Inputs.freshWorld)
    /\ missingCells `sublist_of` [Inputs.cellA]
    /\ (forall k, is_Some (cellWeather !! k) -> In k (map key [Inputs.cellA]))
    /\ (forall j cell,
          [Inputs.cellA] !! j = Some cell ->
          match cachedValue [Some "null"%string] j with
          | Some v => cellWeather !! key cell = Some (FromCache v) /\ ~ In cell missingCells
          | None => cellWeather !! key cell = None /\ In cell missingCells
          end).
Proof.
  apply (cache_lookup_splits_the_cells MoreInputs.cachedNull MoreInputs.cacheClient
           [Inputs.cellA] [Some "null"%string] Inputs.freshWorld); [reflexivity|].
  simpl. apply NoDup_cons. split; [|apply NoDup_nil_2]. apply not_elem_of_nil.
Defined.

Lemma fully_cached_request_asks_no_provider_witness :
  let balloons := GET_balloons (fun _ => clock Inputs.freshWorld) Inputs.twoBalloons in
  let cells := clusterLatestPointsIntoCells balloons in
  exists payload w',
    GET MoreInputs.cachedNull Inputs.twoBalloons Inputs.freshWorld = (Response200 payload, w')
    /\ trace w' = trace Inputs.freshWorld ++ [EvMget (map weatherCacheKey cells)]
    /\ requests_sent w' = requests_sent Inputs.freshWorld
    /\ latestWeather payload
       = fanOut cells (fst (foldi (readCached [Some "null"%string]) 0 cells (∅, []))).
Proof.
  apply (fully_cached_request_asks_no_provider MoreInputs.cachedNull Inputs.twoBalloons
           Inputs.freshWorld MoreInputs.cacheClient [Some "null"%string]).
  - reflexivity.
  - vm_compute. reflexivity.
  - intros j Hj.
    assert (Hone : length (clusterLatestPointsIntoCells
                             (GET_balloons (fun _ => clock Inputs.freshWorld)
                                Inputs.twoBalloons)) = 1%nat)
      by (vm_compute; reflexivity).
    rewrite Hone in Hj. destruct j as [|j]; [|lia]. by exists JNull.
Defined.

Lemma nonpositive_ttl_disables_cache_writes_witness :
  exists st' w',
    runBatches MoreInputs.cachedNull (Some MoreInputs.cacheClient) (S754_zero false)
      [[Inputs.cellA]] MoreInputs.loopStart Inputs.freshWorld = (Ok st', w')
    /\ extends_with notRedis Inputs.freshWorld w'.
Proof.
  apply (nonpositive_ttl_disables_cache_writes MoreInputs.cachedNull
           (Some MoreInputs.cacheClient) (S754_zero false) [[Inputs.cellA]]
           MoreInputs.loopStart Inputs.freshWorld).
  reflexivity.
Defined.

Lemma cached_readings_are_kept_witness :
  match cachedValue [Some "null"%string] 0 with
  | Some v =>
      cellWeather MoreInputs.servedFromCache !! key Inputs.cellA = Some (FromCache v)
  | None =>
      forall v, cellWeather MoreInputs.servedFromCache !! key Inputs.cellA
                <> Some (FromCache v)
  end.
Proof.
  apply (cached_readings_are_kept MoreInputs.cachedNull MoreInputs.cacheClient
           [Inputs.cellA] [Some "null"%string] MoreInputs.servedFromCache
           Inputs.freshWorld MoreInputs.oneBulkRead).
  - reflexivity.
  - reflexivity.
  - simpl. apply NoDup_cons. split; [|apply NoDup_nil_2]. apply not_elem_of_nil.
  - vm_compute. reflexivity.
  - reflexivity.
Defined.

Lemma request_without_snapshots_witness :
  GET_balloons (fun _ => clock Inputs.freshWorld) MoreInputs.noSnapshots = []
  /\ GET Inputs.noCache MoreInputs.noSnapshots Inputs.freshWorld
     = (Response200 {| generatedAt := 0; payload_points := [];
                       payload_balloons := []; latestWeather := ∅ |}, Inputs.freshWorld).
Proof.
  apply (request_without_snapshots Inputs.noCache MoreInputs.noSnapshots Inputs.freshWorld).
  intros h. reflexivity.
Defined.

End RequestRuns.

(** ** Histories (lib/windborne.ts) *)

Lemma foldi_invariant_at {A St} (Inv : nat -> St -> Prop) (f : St -> nat -> A -> St) l :
  (forall s i x, Inv i s -> Inv (S i) (f s i x)) ->
  forall i s, Inv i s -> Inv (i + length l)%nat (foldi f i l s).
Proof.
  intros Hstep. induction l as [|x l IH]; simpl; intros i s Hs.
  - by rewrite Nat.add_0_r.
  - rewrite <- Nat.add_succ_comm. apply IH. by apply Hstep.
Qed.

(** On numbers that are not NaN, [a < b] fails exactly when [b <= a]. *)
Lemma SFcompare_antisym (a b : number) :
  SFcompare b a = option_map CompOpp (SFcompare a b).
Proof.
  destruct a as [[]|[]| |[] ma ea], b as [[]|[]| |[] mb eb]; simpl; try done;
    rewrite (Z.compare_antisym ea eb);
    (destruct (ea ?= eb)%Z eqn:E; cbn [CompOpp]; [|done|done]);
    change (Pos.compare_cont Eq mb ma) with (mb ?= ma)%positive;
    change (Pos.compare_cont Eq ma mb) with (ma ?= mb)%positive;
    rewrite (Pos.compare_antisym ma mb); by destruct (ma ?= mb)%positive.
Qed.

Lemma not_lt_le (a b : number) :
  Number_isNaN a = false -> Number_isNaN b = false ->
  num_lt a b = false -> num_le b a = true.
Proof.
  intros Ha Hb. unfold num_lt, num_le, SFltb, SFleb. rewrite (SFcompare_antisym a b).
  destruct (SFcompare a b) as [[]|] eqn:E; simpl; try done.
  destruct a as [?|?| |? ? ?], b as [?|?| |? ? ?]; simpl in E; done.
Qed.

Section HistoryFacts.
Import Windborne.

Lemma extractEntry_invariant ts hourIndex pts idx entry :
  (Forall (fun p => snapshotIndex p = hourIndex /\ timestamp p = ts
                    /\ exists j, (j < idx)%nat /\ balloonId p = balloon_name j) pts
   /\ NoDup (map balloonId pts) /\ (length pts <= idx)%nat) ->
  Forall (fun p => snapshotIndex p = hourIndex /\ timestamp p = ts
                   /\ exists j, (j < S idx)%nat /\ balloonId p = balloon_name j)
         (extractEntry ts hourIndex pts idx entry)
  /\ NoDup (map balloonId (extractEntry ts hourIndex pts idx entry))
  /\ (length (extractEntry ts hourIndex pts idx entry) <= S idx)%nat.
Proof.
  intros (Hall & Hnd & Hlen).
  assert (Hweak : Forall (fun p => snapshotIndex p = hourIndex /\ timestamp p = ts
                                   /\ exists j, (j < S idx)%nat /\ balloonId p = balloon_name j)
                         pts).
  { eapply List.Forall_impl; [|exact Hall].
    intros p (Hs & Ht & j & Hj & Hid). split_and!; try done. exists j. split; [lia|done]. }
  assert (Hkeep : Forall (fun p => snapshotIndex p = hourIndex /\ timestamp p = ts
                                   /\ exists j, (j < S idx)%nat /\ balloonId p = balloon_name j)
                         pts
                  /\ NoDup (map balloonId pts) /\ (length pts <= S idx)%nat).
  { split_and!; [done|done|lia]. }
  unfold extractEntry.
  destruct entry as [| | | |items|]; try done.
  destruct items as [|[| |la| | |] [|[| |lo| | |] rest]]; try done.
  destruct (_ || _) eqn:Hout; [done|].
  split_and!.
  - apply Forall_app. split; [done|]. constructor; [|done]. simpl.
    split_and!; try done. exists idx. split; [lia|done].
  - rewrite map_app. simpl. apply NoDup_app. split_and!; [done| |].
    + intros k Hk Hk'. apply list_elem_of_In, in_map_iff in Hk as (p & <- & Hp).
      rewrite List.Forall_forall in Hall. destruct (Hall p Hp) as (_ & _ & j & Hj & Hid).
      apply list_elem_of_singleton in Hk'. rewrite Hid in Hk'.
      apply balloon_name_inj in Hk'. lia.
    + apply NoDup_singleton.
  - rewrite length_app. simpl. lia.
Qed.

(** The range test on a record that [JSON.parse] delivered. *)
Lemma extractEntry_inRange ts hourIndex pts idx entry :
  parsedRecord entry ->
  Forall inRange pts -> Forall inRange (extractEntry ts hourIndex pts idx entry).
Proof.
  intros Hparsed Hall. unfold extractEntry.
  destruct entry as [| | | |items|]; try done.
  destruct items as [|[| |la| | |] [|[| |lo| | |] rest]]; try done.
  destruct (_ || _) eqn:Hout; [done|].
  apply orb_false_iff in Hout as [Hout H4]. apply orb_false_iff in Hout as [Hout H3].
  apply orb_false_iff in Hout as [H1 H2]. destruct Hparsed as [Hla Hlo].
  apply Forall_app. split; [done|]. constructor; [|done].
  unfold inRange. cbn [lat lon]. split_and!; by apply not_lt_le.
Qed.

(** What [extractPointsFromSnapshot] returns. *)
Lemma extractPointsFromSnapshot_inv (now : Z) (raw : JsVal) (hourIndex : nat) :
  let pts := extractPointsFromSnapshot now raw hourIndex in
  Forall (fun p => snapshotIndex p = hourIndex
                   /\ timestamp p = now - Z.of_nat hourIndex * 3600000
                   /\ exists j, balloonId p = balloon_name j) pts
  /\ NoDup (map balloonId pts)
  /\ (length pts <= match raw with JArr entries => length entries | _ => 0 end)%nat.
Proof.
  unfold extractPointsFromSnapshot.
  destruct raw as [| | | |entries|]; try (split_and!; [constructor|constructor|done]).
  set (ts := now - Z.of_nat hourIndex * 3600000).
  pose proof (foldi_invariant_at
                (fun idx pts =>
                   Forall (fun p => snapshotIndex p = hourIndex /\ timestamp p = ts
                                    /\ exists j, (j < idx)%nat /\ balloonId p = balloon_name j)
                          pts
                   /\ NoDup (map balloonId pts) /\ (length pts <= idx)%nat)
                (extractEntry ts hourIndex) entries) as Hinv.
  destruct (Hinv (fun s i x => extractEntry_invariant ts hourIndex s i x) 0%nat [])
    as (Hall & Hnd & Hlen).
  { split_and!; [constructor|constructor|done]. }
  cbv zeta. split_and!; [|done|done].
  eapply List.Forall_impl; [|exact Hall]. intros p (? & ? & j & _ & ?). eauto.
Qed.

Lemma extractPointsFromSnapshot_inRange (now : Z) (raw : JsVal) (hourIndex : nat) :
  parsedSnapshot raw -> Forall inRange (extractPointsFromSnapshot now raw hourIndex).
Proof.
  unfold extractPointsFromSnapshot, parsedSnapshot.
  destruct raw as [| | | |entries|]; try (intros _; constructor).
  intros Hall. generalize 0%nat.
  assert (Hnil : Forall inRange []) by constructor. revert Hnil.
  generalize (@nil BalloonPoint). induction Hall as [|entry entries Hentry _ IH];
    intros pts Hpts idx; cbn [foldi]; [done|].
  apply IH. by apply extractEntry_inRange.
Qed.

(** X16.  On a snapshot as [JSON.parse] delivers it (no number in it is
    NaN), [extractPointsFromSnapshot] of lib/windborne.ts returns only points
    on the globe (latitude within -90..90, longitude within -180..180), all
    with the snapshot's hour as [snapshotIndex] and the snapshot's timestamp,
    at most one per record and no two for the same balloon; a body that is
    not an array gives no point. *)
Theorem extracted_points_are_on_the_globe (now : Z) (raw : JsVal) (hourIndex : nat) :
  parsedSnapshot raw ->
  let pts := extractPointsFromSnapshot now raw hourIndex in
  Forall (fun p => inRange p /\ snapshotIndex p = hourIndex
                   /\ timestamp p = now - Z.of_nat hourIndex * 3600000) pts
  /\ NoDup (map balloonId pts)
  /\ (length pts <= match raw with JArr entries => length entries | _ => 0 end)%nat.
Proof.
  intros Hparsed pts.
  destruct (extractPointsFromSnapshot_inv now raw hourIndex) as (Hall & Hnd & Hlen).
  pose proof (extractPointsFromSnapshot_inRange now raw hourIndex Hparsed) as Hrange.
  fold pts in Hall, Hnd, Hlen, Hrange. split_and!; [|done|done].
  apply List.Forall_forall. intros p Hp. rewrite List.Forall_forall in Hall, Hrange.
  destruct (Hall p Hp) as (Hs & Ht & _). split_and!; [by apply Hrange|done|done].
Qed.

Lemma extracted_points_are_on_the_globe_witness :
  let pts := extractPointsFromSnapshot 0 (JArr Inputs.mixedSnapshot) 0 in
  Forall (fun p => inRange p /\ snapshotIndex p = 0%nat
                   /\ timestamp p = 0 - Z.of_nat 0 * 3600000) pts
  /\ NoDup (map balloonId pts)
  /\ (length pts <= length Inputs.mixedSnapshot)%nat.
Proof.
  apply (extracted_points_are_on_the_globe 0 (JArr Inputs.mixedSnapshot) 0).
  repeat constructor.
Defined.

Lemma addSnapshotPoints_inRange now snapshots : forall hourIndex allPoints,
  Forall (fun raw => match raw with Some v => parsedSnapshot v | None => True end) snapshots ->
  Forall inRange allPoints ->
  Forall inRange (foldi (addSnapshotPoints now) hourIndex snapshots allPoints).
Proof.
  induction snapshots as [|raw snapshots IH]; intros hourIndex allPoints Hparsed Hall;
    cbn [foldi]; [done|].
  apply Forall_cons in Hparsed as [Hraw Hparsed]. apply IH; [done|].
  unfold addSnapshotPoints. destruct raw as [v|]; [|done]. destruct (truthy v); [|done].
  apply Forall_app. split; [done|]. by apply extractPointsFromSnapshot_inRange.
Qed.

Lemma addSnapshotPoints_named now snapshots :
  Forall (fun p => exists j, balloonId p = balloon_name j)
         (foldi (addSnapshotPoints now) 0 snapshots []).
Proof.
  apply (foldi_invariant (Forall (fun p => exists j, balloonId p = balloon_name j)));
    [|constructor].
  intros allPoints hourIndex raw Hall. unfold addSnapshotPoints.
  destruct raw as [v|]; [|done]. destruct (truthy v); [|done].
  apply Forall_app. split; [done|].
  destruct (extractPointsFromSnapshot_inv (now hourIndex) v hourIndex) as [Hpts _].
  eapply List.Forall_impl; [|exact Hpts]. by intros p (_ & _ & ?).
Qed.

Lemma groupPoint_points balloons p k :
  trackPoints (groupPoint balloons p) k
  = trackPoints balloons k ++ (if String.eqb (balloonId p) k then [p] else []).
Proof.
  unfold groupPoint, trackPoints.
  destruct (String.eqb (balloonId p) k) eqn:E.
  - apply String.eqb_eq in E. subst k. rewrite obj_get_set_eq. simpl.
    by destruct (obj_get (balloonId p) balloons).
  - apply String.eqb_neq in E. rewrite obj_get_set_ne by done. by rewrite app_nil_r.
Qed.

Lemma groupPoint_shape balloons p :
  (NoDup (obj_keys balloons)
   /\ Forall (fun kv => id (snd kv) = fst kv /\ points (snd kv) <> []) balloons) ->
  NoDup (obj_keys (groupPoint balloons p))
  /\ Forall (fun kv => id (snd kv) = fst kv /\ points (snd kv) <> []) (groupPoint balloons p).
Proof.
  intros [Hnd Hall]. unfold groupPoint. split; [by apply obj_set_NoDup|].
  apply obj_set_Forall; [done|]. simpl.
  destruct (obj_get (balloonId p) balloons) as [t|] eqn:Hget.
  - apply obj_get_In in Hget. rewrite List.Forall_forall in Hall.
    destruct (Hall _ Hget) as [Hid _]. split; [done|]. by destruct (points t).
  - done.
Qed.

Lemma groupPoint_fold l : forall balloons,
  (NoDup (obj_keys balloons)
   /\ Forall (fun kv => id (snd kv) = fst kv /\ points (snd kv) <> []) balloons) ->
  let final := fold_left groupPoint l balloons in
  NoDup (obj_keys final)
  /\ Forall (fun kv => id (snd kv) = fst kv /\ points (snd kv) <> []) final
  /\ forall k, trackPoints final k = trackPoints balloons k ++ pointsOf k l.
Proof.
  induction l as [|p l IH]; simpl; intros balloons Hinv.
  - destruct Hinv. split_and!; [done|done|]. intros k. by rewrite app_nil_r.
  - destruct (IH (groupPoint balloons p) (groupPoint_shape balloons p Hinv))
      as (Hnd & Hall & Hpts).
    split_and!; [done|done|]. intros k.
    rewrite Hpts, groupPoint_points, <- app_assoc. f_equal.
    unfold pointsOf. simpl. by destruct (String.eqb (balloonId p) k).
Qed.

Lemma StronglySorted_filter {A} (R : A -> A -> Prop) (f : A -> bool) l :
  StronglySorted R l -> StronglySorted R (List.filter f l).
Proof.
  induction 1 as [|x l Hl IH Hx]; simpl; [constructor|].
  destruct (f x); [|done]. constructor; [done|].
  apply List.Forall_forall. intros y Hy%filter_In. rewrite List.Forall_forall in Hx.
  apply Hx. tauto.
Qed.

Lemma StronglySorted_last {A} (R : A -> A -> Prop) l x :
  StronglySorted R l -> last l = Some x ->
  forall y, In y l -> y = x \/ R y x.
Proof.
  induction 1 as [|z l Hl IH Hz]; [done|]. intros Hlast y Hy.
  destruct l as [|z' l'].
  - simpl in Hlast. injection Hlast as <-. destruct Hy as [->|[]]. by left.
  - rewrite last_cons_cons in Hlast. destruct Hy as [->|Hy].
    + right. rewrite List.Forall_forall in Hz. apply Hz.
      apply list_elem_of_In. by eapply last_Some_elem_of.
    + by apply IH.
Qed.

(** The tracks of a history, read off its sorted points. *)
Lemma history_tracks now snapshots :
  let h := buildBalloonHistory now snapshots in
  NoDup (obj_keys (history_balloons h))
  /\ Forall (fun kv => id (snd kv) = fst kv /\ points (snd kv) <> []
                       /\ points (snd kv) = pointsOf (fst kv) (history_points h))
            (history_balloons h).
Proof.
  unfold buildBalloonHistory. simpl.
  set (sorted := Array_sort timestamp _).
  destruct (groupPoint_fold sorted []) as (Hnd & Hall & Hpts).
  { split; constructor. }
  cbv zeta in *. split; [done|].
  apply List.Forall_forall. intros [k t] Hin.
  rewrite List.Forall_forall in Hall. destruct (Hall _ Hin) as [Hid Hne].
  split_and!; [done|done|]. simpl.
  specialize (Hpts k). unfold trackPoints in Hpts.
  by rewrite (obj_get_of_In _ _ _ Hnd Hin) in Hpts.
Qed.

(** X17.  [buildBalloonHistory] of lib/windborne.ts, on snapshots as
    [JSON.parse] delivers them (no number in them is NaN): the points are in
    ascending order of time and all on the globe (latitude within -90..90,
    longitude within -180..180); the tracks have distinct ids, none is
    empty, and the track of a balloon holds exactly that balloon's points, in
    the order of the sorted list, so oldest first; and every point is in the
    track of its balloon. *)
Theorem history_tracks_are_oldest_first (now : nat -> Z) (snapshots : list (option JsVal)) :
  Forall (fun raw => match raw with Some v => parsedSnapshot v | None => True end) snapshots ->
  let h := buildBalloonHistory now snapshots in
  StronglySorted (key_le timestamp) (history_points h)
  /\ Forall inRange (history_points h)
  /\ NoDup (obj_keys (history_balloons h))
  /\ Forall (fun kv => id (snd kv) = fst kv /\ points (snd kv) <> []
                       /\ points (snd kv) = pointsOf (fst kv) (history_points h)
                       /\ StronglySorted (key_le timestamp) (points (snd kv)))
            (history_balloons h)
  /\ (forall p, In p (history_points h) ->
        exists track, In (balloonId p, track) (history_balloons h) /\ In p (points track)).
Proof.
  intros Hparsed h. destruct (history_tracks now snapshots) as [Hnd Hall]. fold h in Hnd, Hall.
  assert (Hsorted : StronglySorted (key_le timestamp) (history_points h))
    by apply Array_sort_sorted.
  split_and!; [done| |done| |].
  - unfold h, buildBalloonHistory. simpl.
    eapply Permutation_Forall; [apply Array_sort_perm|].
    apply addSnapshotPoints_inRange; [done|constructor].
  - eapply List.Forall_impl; [|exact Hall]. intros [k t] (Hid & Hne & Hpts).
    split_and!; [done|done|done|]. simpl in *. rewrite Hpts.
    by apply StronglySorted_filter.
  - intros p Hp.
    assert (Hkey : trackPoints (history_balloons h) (balloonId p)
                   = pointsOf (balloonId p) (history_points h)).
    { unfold h, buildBalloonHistory. simpl.
      destruct (groupPoint_fold (Array_sort timestamp
                                   (foldi (addSnapshotPoints now) 0 snapshots [])) [])
        as (_ & _ & Hpts); [split; constructor|].
      by rewrite Hpts. }
    assert (Hmember : In p (trackPoints (history_balloons h) (balloonId p))).
    { rewrite Hkey. apply filter_In. split; [done|]. apply String.eqb_refl. }
    unfold trackPoints in Hmember.
    destruct (obj_get (balloonId p) (history_balloons h)) as [t|] eqn:Hget; [|done].
    exists t. split; [by apply obj_get_In|done].
Qed.

Lemma history_tracks_are_oldest_first_witness :
  let h := buildBalloonHistory (fun _ => 0) [Some (JArr Inputs.mixedSnapshot); None] in
  StronglySorted (key_le timestamp) (history_points h)
  /\ Forall inRange (history_points h)
  /\ NoDup (obj_keys (history_balloons h))
  /\ Forall (fun kv => id (snd kv) = fst kv /\ points (snd kv) <> []
                       /\ points (snd kv) = pointsOf (fst kv) (history_points h)
                       /\ StronglySorted (key_le timestamp) (points (snd kv)))
            (history_balloons h)
  /\ (forall p, In p (history_points h) ->
        exists track, In (balloonId p, track) (history_balloons h) /\ In p (points track)).
Proof.
  apply (history_tracks_are_oldest_first (fun _ => 0)
           [Some (JArr Inputs.mixedSnapshot); None]).
  repeat constructor.
Defined.

(** The balloons of a history are named [balloon-<n>]. *)
Lemma history_balloons_named now snapshots :
  Forall (fun k => exists j, k = balloon_name j)
         (obj_keys (history_balloons (buildBalloonHistory now snapshots))).
Proof.
  destruct (history_tracks now snapshots) as [_ Hall]. cbv zeta in Hall.
  unfold obj_keys. apply List.Forall_map.
  eapply List.Forall_impl; [|exact Hall]. intros [k t] (_ & Hne & Hpts). cbn [fst snd] in *.
  destruct (points t) as [|p pts] eqn:Ht; [done|].
  assert (Hp : In p (pointsOf k (history_points (buildBalloonHistory now snapshots))))
    by (rewrite <- Hpts; by left).
  apply filter_In in Hp as [Hp Hk]. apply String.eqb_eq in Hk.
  unfold buildBalloonHistory in Hp. cbn [history_points] in Hp.
  pose proof (addSnapshotPoints_named now snapshots) as Hnamed.
  eapply Permutation_Forall in Hnamed; [|apply Array_sort_perm].
  rewrite List.Forall_forall in Hnamed. destruct (Hnamed p Hp) as [j Hj].
  exists j. congruence.
Qed.

Lemma obj_set_fresh {V} k (v : V) o : ~ In k (obj_keys o) -> obj_set k v o = o ++ [(k, v)].
Proof.
  unfold obj_keys. induction o as [|[k' v'] o IH]; simpl; intros Hk; [done|].
  destruct (String.eqb k k') eqn:E.
  - apply String.eqb_eq in E. exfalso. apply Hk. by left.
  - rewrite IH; [done|]. intros Hin. apply Hk. by right.
Qed.

Lemma getLatestPositions_entries (tracks : list BalloonTrack) :
  forall latest,
    NoDup (obj_keys latest ++ map id tracks) ->
    fold_left
      (fun latest track =>
         match last (points track) with
         | None => latest
         | Some p => obj_set (id track) (lat p, lon p) latest
         end) tracks latest
    = latest ++ omap (fun track =>
                        match last (points track) with
                        | None => None
                        | Some p => Some (id track, (lat p, lon p))
                        end) tracks.
Proof.
  induction tracks as [|t tracks IH]; simpl; intros latest Hnd.
  - by rewrite app_nil_r.
  - apply NoDup_app in Hnd as (Hl & Hdisj & Ht). apply NoDup_cons in Ht as [Hfresh Ht].
    destruct (last (points t)) as [p|].
    + rewrite IH.
      * rewrite obj_set_fresh; [by rewrite <- app_assoc|].
        intros Hin%list_elem_of_In. apply (Hdisj _ Hin). by left.
      * rewrite obj_keys_set.
        assert (Hout : obj_get (id t) latest = None).
        { apply obj_get_None_keys. intros Hin%list_elem_of_In. apply (Hdisj _ Hin). by left. }
        rewrite Hout, <- app_assoc. simpl.
        apply NoDup_app. split_and!; [done| |by apply NoDup_cons].
        intros k Hk Hk'. apply (Hdisj k Hk). done.
    + apply IH. apply NoDup_app. split_and!; [done| |done].
      intros k Hk Hk'. apply (Hdisj k Hk). by right.
Qed.

(** The positions that [getLatestPositions] reads off a history. *)
Lemma getLatestPositions_history (now : nat -> Z)
    (snapshots : list (option JsVal)) :
  let h := buildBalloonHistory now snapshots in
  let latest := getLatestPositions h in
  obj_keys latest = obj_keys (history_balloons h)
  /\ forall k pos,
       In (k, pos) latest ->
       exists p,
         In p (history_points h) /\ balloonId p = k /\ pos = (lat p, lon p)
         /\ forall q, In q (history_points h) -> balloonId q = k ->
                      timestamp q <= timestamp p.
Proof.
  intros h latest.
  destruct (history_tracks now snapshots) as [Hnd Hall]. fold h in Hnd, Hall.
  assert (Hsorted : StronglySorted (key_le timestamp) (history_points h))
    by apply Array_sort_sorted.
  assert (Hids : map id (obj_values (history_balloons h)) = obj_keys (history_balloons h)).
  { unfold obj_values, obj_keys. rewrite map_map. apply map_ext_in.
    intros kv Hkv. rewrite List.Forall_forall in Hall. by destruct (Hall _ Hkv). }
  assert (Hlatest : latest
                    = omap (fun track =>
                              match last (points track) with
                              | None => None
                              | Some p => Some (id track, (lat p, lon p))
                              end) (obj_values (history_balloons h))).
  { unfold latest, getLatestPositions. rewrite getLatestPositions_entries; [done|].
    change (NoDup (map id (obj_values (history_balloons h)))). by rewrite Hids. }
  split.
  - rewrite Hlatest. unfold obj_keys, obj_values.
    clear -Hall. induction (history_balloons h) as [|[k t] l IH]; simpl; [done|].
    apply Forall_cons in Hall as [(Hid & Hne & _) Hall]. simpl in *.
    destruct (last (points t)) eqn:Hlast.
    + simpl. rewrite Hid. f_equal. by apply IH.
    + apply last_None in Hlast. done.
  - intros k pos Hin. rewrite Hlatest in Hin.
    apply list_elem_of_In, list_elem_of_omap in Hin as (t & Ht & Hsome).
    destruct (last (points t)) as [p|] eqn:Hlast; [|done]. injection Hsome as <- <-.
    apply list_elem_of_In in Ht. unfold obj_values in Ht.
    apply in_map_iff in Ht as ([k t'] & <- & Hkv). cbn [fst snd] in *.
    rewrite List.Forall_forall in Hall. destruct (Hall _ Hkv) as (Hid & _ & Hpts).
    cbn [fst snd] in *.
    assert (Hp : In p (pointsOf k (history_points h))).
    { rewrite <- Hpts. apply list_elem_of_In. by eapply last_Some_elem_of. }
    apply filter_In in Hp as [Hp Hk]. apply String.eqb_eq in Hk.
    exists p. split_and!; [done|congruence|done|].
    intros q Hq Hqk.
    assert (Hq' : In q (points t')).
    { rewrite Hpts. apply filter_In. split; [done|]. rewrite Hqk, Hid. apply String.eqb_refl. }
    destruct (StronglySorted_last (key_le timestamp) (points t') p) with (y := q)
      as [->|Hle]; [|done|done|lia|done].
    rewrite Hpts. by apply StronglySorted_filter.
Qed.

(** X18.  [getLatestPositions] on a history of lib/windborne.ts gives every
    balloon of the history one position, in the order of the tracks, and it
    is the position of that balloon's most recent point: no point of the
    balloon has a later timestamp. *)
Theorem latest_position_is_the_most_recent (now : nat -> Z)
    (snapshots : list (option JsVal)) :
  let h := buildBalloonHistory now snapshots in
  let latest := getLatestPositions h in
  obj_keys latest = obj_keys (history_balloons h)
  /\ forall k pos,
       In (k, pos) latest ->
       exists p,
         In p (history_points h) /\ balloonId p = k /\ pos = (lat p, lon p)
         /\ forall q, In q (history_points h) -> balloonId q = k ->
                      timestamp q <= timestamp p.
Proof. apply getLatestPositions_history. Qed.

End HistoryFacts.

(** ** The per-balloon path (lib/windborne.ts, lib/weather.ts) *)

Section LibPath.
Import LibWeather Windborne.

Lemma putQueried_dom replies l : forall i (results : gmap string BalloonWeather) b,
  is_Some (foldi (putQueried replies) i l results !! b)
  <-> is_Some (results !! b) \/ In b (obj_keys l).
Proof.
  induction l as [|[k pos] l IH]; simpl; intros i results b; [tauto|].
  rewrite IH. unfold putQueried. simpl.
  destruct (decide (k = b)) as [->|Hne].
  - rewrite lookup_insert_eq. split; [intros _; right; by left|intros _; by left].
  - rewrite lookup_insert_ne by done. tauto.
Qed.

Lemma putSkipped_dom l : forall (results : gmap string BalloonWeather) b,
  is_Some (fold_left putSkipped l results !! b)
  <-> is_Some (results !! b) \/ In b (obj_keys l).
Proof.
  induction l as [|[k pos] l IH]; simpl; intros results b; [tauto|].
  rewrite IH. unfold putSkipped. simpl.
  destruct (results !! k) as [wx|] eqn:Hk.
  - split; [tauto|]. intros [Hb|[->|Hb]]; [by left|left; by rewrite Hk|by right].
  - destruct (decide (k = b)) as [->|Hne].
    + rewrite lookup_insert_eq. split; [intros _; right; by left|intros _; by left].
    + rewrite lookup_insert_ne by done. tauto.
Qed.

(** The latest positions of a history are filed under ids [balloon-<n>],
    none of which is a name inherited from [Object.prototype]. *)
Lemma getLatestPositions_ordinary now snapshots :
  ordinary (getLatestPositions (Windborne.buildBalloonHistory now snapshots)).
Proof.
  unfold ordinary. destruct (getLatestPositions_history now snapshots) as [Hkeys _].
  cbv zeta in Hkeys. rewrite Hkeys.
  eapply List.Forall_impl; [|apply history_balloons_named].
  intros k [j ->]. apply balloon_name_ordinary.
Qed.

(** X19.  On the path of lib/windborne.ts every balloon of the history gets
    a weather entry and nothing else does, while the provider is asked about
    the latest positions of the first 50 balloons only: one request each, so
    min(50, number of balloons) requests. *)
Theorem every_balloon_of_the_history_gets_an_entry (now : nat -> Z)
    (snapshots : list (option JsVal)) (replies : nat -> MeteoReply) :
  let run := buildBalloonHistoryWithWeather now snapshots replies in
  let history := fst run in
  let lookup := snd run in
  (forall b, is_Some (own (results lookup) !! b)
             <-> In b (obj_keys (history_balloons history)))
  /\ proto (results lookup) = None
  /\ queried lookup = map snd (take 50 (getLatestPositions history))
  /\ length (queried lookup) = Nat.min 50 (length (history_balloons history)).
Proof.
  unfold buildBalloonHistoryWithWeather. cbn [fst snd].
  set (history := Windborne.buildBalloonHistory now snapshots).
  destruct (getLatestPositions_history now snapshots) as [Hkeys _]. fold history in Hkeys.
  pose proof (fetchWeatherForBalloons_ordinary replies (getLatestPositions history)
                (getLatestPositions_ordinary now snapshots)) as Hrun.
  split_and!.
  - intros b. rewrite Hrun. cbn [own].
    rewrite putSkipped_dom, putQueried_dom, lookup_empty.
    pose proof (obj_keys_take_drop MAX_BALLOONS_WITH_WEATHER (getLatestPositions history))
      as Hsplit.
    rewrite <- Hkeys, Hsplit, in_app_iff. split; [|tauto]. intros [[[? Hnone]|Hq]|Hs]; [done|tauto|tauto].
  - by rewrite Hrun.
  - reflexivity.
  - unfold fetchWeatherForBalloons. cbn [queried].
    rewrite length_map, length_take.
    change MAX_BALLOONS_WITH_WEATHER with 50%nat.
    assert (Hlen : length (getLatestPositions history) = length (history_balloons history)).
    { rewrite <- (length_map fst (getLatestPositions history)).
      rewrite <- (length_map fst (history_balloons history)).
      unfold obj_keys in Hkeys. by rewrite Hkeys. }
    by rewrite Hlen.
Qed.

End LibPath.

(** ** The shared cache client (lib/redis.ts) *)

Section RedisSingleton.
Import RedisModule.

Lemma getRedisClient_result url client :
  fst (getRedisClient url client)
  = if configured url
    then Some (default (Weather.RedisClient (default ""%string url)) client)
    else None.
Proof.
  unfold getRedisClient, configured. destruct url as [u|]; [|done].
  destruct (String.eqb u ""); [done|]. by destruct client.
Qed.

Lemma getRedisClient_state url client :
  snd (getRedisClient url client)
  = if configured url
    then Some (default (Weather.RedisClient (default ""%string url)) client)
    else client.
Proof.
  unfold getRedisClient, configured. destruct url as [u|]; [|done].
  destruct (String.eqb u ""); [done|]. by destruct client.
Qed.

Lemma calls_with_client urls c :
  calls urls (Some c)
  = (map (fun url => if configured url then Some c else None) urls, Some c).
Proof.
  induction urls as [|url urls IH]; simpl; [done|].
  destruct url as [u|]; simpl; [|by rewrite IH].
  destruct (String.eqb u ""); simpl; by rewrite IH.
Qed.

(** The calls up to and after the first one that finds a usable URL. *)
Lemma calls_from_first_client (before after : list (option string)) (u : string) :
  Forall (fun url => configured url = false) before ->
  configured (Some u) = true ->
  calls (before ++ Some u :: after) initial
  = (map (fun _ => None) before
     ++ Some (Weather.RedisClient u)
     :: map (fun url => if configured url then Some (Weather.RedisClient u) else None) after,
     Some (Weather.RedisClient u)).
Proof.
  intros Hbefore Hu. unfold initial.
  induction Hbefore as [|url before Hurl _ IH]; simpl.
  - unfold configured in Hu. apply negb_true_iff in Hu. rewrite Hu.
    by rewrite calls_with_client.
  - pose proof (getRedisClient_result url None) as Hr.
    pose proof (getRedisClient_state url None) as Hs.
    destruct (getRedisClient url None) as [r client1]. simpl in Hr, Hs.
    rewrite Hurl in Hr, Hs. subst r client1. by rewrite IH.
Qed.

(** X20.  [getRedisClient] of lib/redis.ts constructs at most one client per
    process: in any sequence of calls, the calls made while [REDIS_URL] is
    unset or empty return [null] and leave the module variable alone, and
    all other calls return one and the same client, the one constructed at
    the first of them with the URL of that moment, whatever [REDIS_URL] is
    later. *)
Theorem one_client_per_process (before after : list (option string)) (u : string) :
  Forall (fun url => configured url = false) before ->
  configured (Some u) = true ->
  calls (before ++ Some u :: after) initial
  = (map (fun _ => None) before
     ++ Some (Weather.RedisClient u)
     :: map (fun url => if configured url then Some (Weather.RedisClient u) else None) after,
     Some (Weather.RedisClient u)).
Proof. apply calls_from_first_client. Qed.

(** The calls of a process that never finds a usable URL. *)
Lemma calls_without_url (urls : list (option string)) :
  Forall (fun url => configured url = false) urls ->
  calls urls initial = (map (fun _ => None) urls, None).
Proof.
  unfold initial. induction 1 as [|url urls Hurl _ IH]; simpl; [done|].
  pose proof (getRedisClient_result url None) as Hr.
  pose proof (getRedisClient_state url None) as Hs.
  destruct (getRedisClient url None) as [r client1]. simpl in Hr, Hs.
  rewrite Hurl in Hr, Hs. subst r client1. by rewrite IH.
Qed.

Lemma one_client_per_process_witness :
  calls ([None; Some ""%string] ++ Some "redis://cache:6379"%string
           :: [Some "redis://other:6379"%string; None]) initial
  = (map (fun _ => None) [None; Some ""%string]
     ++ Some (Weather.RedisClient "redis://cache:6379")
     :: map (fun url => if configured url
                        then Some (Weather.RedisClient "redis://cache:6379") else None)
          [Some "redis://other:6379"%string; None],
     Some (Weather.RedisClient "redis://cache:6379")).
Proof.
  apply (one_client_per_process [None; Some ""%string]
           [Some "redis://other:6379"%string; None] "redis://cache:6379").
  - constructor; [reflexivity|]. constructor; [reflexivity|]. constructor.
  - reflexivity.
Defined.

End RedisSingleton.

Section RedisSingletonEnv.
Import RedisModule.
Context `{JsBuiltins}.

(** X21.  With [REDIS_URL] the same at every call, each call of the module's
    [getRedisClient] returns what the handler's model of a request assumes:
    the client for that URL, or [null] when it is unset or empty. *)
Theorem constant_url_gives_the_request_client (env : Env) (n : nat) :
  fst (calls (replicate n (REDIS_URL env)) initial)
  = replicate n (Weather.getRedisClient env).
Proof.
  unfold Weather.getRedisClient.
  destruct (configured (REDIS_URL env)) eqn:Hconf.
  - destruct n as [|n]; [done|].
    destruct (REDIS_URL env) as [u|] eqn:Hurl; [|done].
    change (replicate (S n) (Some u)) with ([] ++ Some u :: replicate n (Some u)).
    rewrite calls_from_first_client by done.
    simpl in Hconf. apply negb_true_iff in Hconf. rewrite Hconf. simpl. f_equal.
    induction n as [|n IH]; simpl; [done|]. by rewrite Hconf, IH.
  - rewrite calls_without_url by (by apply Forall_replicate).
    simpl. destruct (REDIS_URL env) as [u|]; simpl in *.
    + apply negb_false_iff in Hconf. rewrite Hconf.
      induction n as [|n IH]; simpl; [done|]. by rewrite IH.
    + induction n as [|n IH]; simpl; [done|]. by rewrite IH.
Qed.

End RedisSingletonEnv.

(** ** The fan-out and the limiter (route.ts), continued *)

Section FanOutExtras.
Import Weather Route.
Context `{JsBuiltins}.

Lemma fanOut_source cw cells : forall lw b wx,
  fold_left (fanOutCell cw) cells lw !! b = Some wx ->
  lw !! b = Some wx
  \/ (reading_truthy wx = true
      /\ exists c, In c cells /\ In b (balloonIds c) /\ cw !! key c = Some wx).
Proof.
  induction cells as [|c cells IH]; simpl; intros lw b wx Hb; [by left|].
  apply IH in Hb as [Hb|(Htruthy & c' & Hc' & Hin & Hcw)].
  - rewrite fanOutCell_lookup in Hb.
    destruct (decide (b ∈ balloonIds c)) as [Hin|Hout]; [|by left].
    unfold resolved in Hb. destruct (cw !! key c) as [wx'|] eqn:Hcw; [|by left].
    destruct (reading_truthy wx') eqn:Htruthy; [|by left].
    injection Hb as ->. right. split; [done|]. exists c.
    split_and!; [by left|by apply list_elem_of_In|done].
  - right. split; [done|]. exists c'. split_and!; [by right|done|done].
Qed.

(** X22.  The fan-out gives a reading to balloons only, and only a truthy
    one: an entry of [latestWeather] belongs to a balloon of the mapping, and
    its value is the truthy entry that [cellWeather] has for the cell of that
    balloon's first point. *)
Theorem weather_entries_belong_to_balloons (balloons : jsobj BalloonTrack)
    (cellWeather : gmap string Reading) (b : string) (wx : Reading) :
  fanOut (clusterLatestPointsIntoCells balloons) cellWeather !! b = Some wx ->
  reading_truthy wx = true
  /\ exists track k,
       In track (obj_values balloons) /\ id track = b
       /\ latestCellKey track = Some k /\ cellWeather !! k = Some wx.
Proof.
  unfold fanOut. intros Hb.
  apply fanOut_source in Hb as [Hb|(Htruthy & c & Hc & Hin & Hcw)];
    [by rewrite lookup_empty in Hb|].
  split; [done|].
  rewrite (cluster_cell_members balloons c Hc) in Hin.
  apply in_map_iff in Hin as (t & Hid & Ht). apply filter_In in Ht as [Ht Hcell].
  unfold inCell in Hcell. apply bool_decide_eq_true_1 in Hcell.
  by exists t, (key c).
Qed.

End FanOutExtras.

Section FanOutExtrasRuns.
Import Weather Route Runtime.

Lemma weather_entries_belong_to_balloons_witness :
  let balloons := GET_balloons (fun _ => 0) Inputs.twoBalloons in
  reading_truthy (FromProvider Inputs.convertedReading) = true
  /\ exists track k,
       In track (obj_values balloons) /\ id track = "balloon-0"%string
       /\ latestCellKey track = Some k
       /\ MoreInputs.cellReadings !! k = Some (FromProvider Inputs.convertedReading).
Proof.
  apply (weather_entries_belong_to_balloons
           (GET_balloons (fun _ => 0) Inputs.twoBalloons) MoreInputs.cellReadings
           "balloon-0" (FromProvider Inputs.convertedReading)).
  vm_compute. reflexivity.
Defined.

End FanOutExtrasRuns.

Section LimiterExtras.
Import Weather Route.
Context `{JsBuiltins} (env : Env).

(** X23.  With fewer than [MAX_REQUESTS_PER_WINDOW] batches behind it in a
    request, the limiter never pauses: after any number of iterations below
    500 from a counter at zero, the counter is below the limit, and the head
    of the next iteration goes on at once, adding nothing to the log. *)
Theorem limiter_idle_below_capacity (redis : option Redis) (ttlSeconds : number)
    (batches : list (list Cell)) (st0 st : LoopState) (w0 w : World) :
  requestsInWindow st0 = 0 ->
  Z.of_nat (length batches) < MAX_REQUESTS_PER_WINDOW ->
  runBatches env redis ttlSeconds batches st0 w0 = (Ok st, w) ->
  0 <= requestsInWindow st < MAX_REQUESTS_PER_WINDOW
  /\ exists st1,
       rateLimit env st w = (Ok st1, w)
       /\ cellWeather st1 = cellWeather st
       /\ (requestsInWindow st1 = 0 \/ st1 = st).
Proof.
  intros Hzero Hfew Hrun.
  destruct (runBatches_effects env redis ttlSeconds batches st0 w0)
    as (evs & _ & _ & _ & _ & Hst).
  cbv zeta in Hst. rewrite Hrun in Hst.
  destruct (Hst st eq_refl) as [Hcount _]. rewrite Hzero in Hcount.
  split; [lia|].
  unfold rateLimit, bind, Date_now, sleep, ret. cbn [fst snd].
  assert (Hbelow : (MAX_REQUESTS_PER_WINDOW <=? requestsInWindow st) = false)
    by (apply Z.leb_gt; lia).
  rewrite Hbelow. cbn [andb].
  destruct (WINDOW_MS <=? clock w - windowStart st); eexists; split_and!; eauto.
Qed.

End LimiterExtras.

Section LimiterExtrasRuns.
Import Weather Route Runtime.

Lemma limiter_idle_below_capacity_witness :
  0 <= requestsInWindow MoreInputs.afterOneBatch < MAX_REQUESTS_PER_WINDOW
  /\ exists st1,
       rateLimit Inputs.noCache MoreInputs.afterOneBatch Inputs.oneFetch
       = (Ok st1, Inputs.oneFetch)
       /\ cellWeather st1 = cellWeather MoreInputs.afterOneBatch
       /\ (requestsInWindow st1 = 0 \/ st1 = MoreInputs.afterOneBatch).
Proof.
  apply (limiter_idle_below_capacity Inputs.noCache None (S754_zero false) [[Inputs.cellA]]
           MoreInputs.loopStart MoreInputs.afterOneBatch Inputs.freshWorld Inputs.oneFetch).
  - reflexivity.
  - reflexivity.
  - vm_compute. reflexivity.
Defined.

End LimiterExtrasRuns.

(** ** Snapshot numbering in the handler (route.ts) *)

Section Renumbering.
Import Route.
Context `{JsBuiltins}.

Lemma allPointsFrom_app now l1 : forall hour l2,
  allPointsFrom now hour (l1 ++ l2)
  = allPointsFrom now hour l1 ++ allPointsFrom now (hour + length l1) l2.
Proof.
  induction l1 as [|s l1 IH]; simpl; intros hour l2.
  - by rewrite Nat.add_0_r.
  - rewrite IH, <- app_assoc. do 3 f_equal. lia.
Qed.

Lemma filterAvailable_all (rawSnapshots : list (option (list JsVal))) :
  Forall is_Some rawSnapshots -> filterAvailable rawSnapshots = rawSnapshots.
Proof.
  unfold filterAvailable. induction 1 as [|s l [entries ->] _ IH]; simpl; [done|].
  by rewrite IH.
Qed.

(** X24.  The handler numbers the snapshots after dropping the failed hours:
    the records of an available hour are filed under [snapshotIndex] = the
    number of available hours before it (not the hour itself), with the
    timestamp of that many hours back.  When no hour fails the two numbers
    agree. *)
Theorem available_snapshots_are_renumbered (now : nat -> Z)
    (before after : list (option (list JsVal))) (entries : list JsVal) :
  let k := length (filterAvailable before) in
  flatPoints (buildBalloonHistory now
                (filterAvailable (before ++ Some entries :: after)))
  ≡ₚ allPointsFrom now 0 (filterAvailable before)
     ++ pointsFrom (now k - Z.of_nat k * 60 * 60 * 1000) k 0 entries
     ++ allPointsFrom now (S k) (filterAvailable after)
  /\ Forall (fun p => snapshotIndex p = k)
            (pointsFrom (now k - Z.of_nat k * 60 * 60 * 1000) k 0 entries)
  /\ (k <= length before)%nat
  /\ (Forall is_Some before -> k = length before).
Proof.
  intros k. split_and!.
  - unfold buildBalloonHistory. rewrite flatPoints_sorted, flatPoints_snapshots.
    unfold filterAvailable at 1. rewrite List.filter_app. simpl.
    fold (filterAvailable before). fold (filterAvailable after).
    rewrite allPointsFrom_app. simpl. by fold k.
  - generalize 0%nat. induction entries as [|entry entries IH]; simpl; intros idx;
      [constructor|].
    apply Forall_app. split; [|apply IH].
    destruct (recordPoint _ k idx entry) as [p|] eqn:Hp; simpl; [|constructor].
    constructor; [|constructor]. by apply recordPoint_Some in Hp as (_ & ? & _).
  - unfold k, filterAvailable. apply List.filter_length_le.
  - intros Hall. unfold k. by rewrite filterAvailable_all.
Qed.

End Renumbering.

(** ** The tracks of a response (route.ts) *)

Section ResponseTracks.
Import Route.
Context `{JsBuiltins}.

Lemma recordPoint_alt ts hour idx entry p a :
  recordPoint ts hour idx entry = Some p -> alt p = Some a -> Number_isFinite a = true.
Proof.
  unfold recordPoint.
  destruct entry as [| | | |items|]; try done.
  destruct items as [|latRaw [|lonRaw rest]]; try done.
  destruct (_ || _); [done|]. intros [= <-]. simpl.
  destruct rest as [|altRaw rest]; [done|].
  destruct altRaw; try done;
    match goal with
    | |- context [Number_isFinite ?x] => destruct (Number_isFinite x) eqn:E; [|done]
    end; by intros [= <-].
Qed.

Lemma pointsFrom_stamped ts hour entries : forall idx,
  Forall (fun p => timestamp p = ts /\ snapshotIndex p = hour
                   /\ Number_isFinite (lat p) = true /\ Number_isFinite (lon p) = true
                   /\ forall a, alt p = Some a -> Number_isFinite a = true)
         (pointsFrom ts hour idx entries).
Proof.
  induction entries as [|entry entries IH]; simpl; intros idx; [constructor|].
  apply Forall_app. split; [|apply IH].
  destruct (recordPoint ts hour idx entry) as [p|] eqn:Hp; simpl; [|constructor].
  constructor; [|constructor].
  pose proof (recordPoint_Some _ _ _ _ _ Hp) as (_ & Hs & Ht & Hlat & Hlon).
  split_and!; try done. intros a. by apply (recordPoint_alt _ _ _ _ _ _ Hp).
Qed.

Lemma allPointsFrom_stamped now snapshots : forall hour,
  Forall (fun p => timestamp p
                   = now (snapshotIndex p) - Z.of_nat (snapshotIndex p) * 60 * 60 * 1000
                   /\ Number_isFinite (lat p) = true /\ Number_isFinite (lon p) = true
                   /\ forall a, alt p = Some a -> Number_isFinite a = true)
         (allPointsFrom now hour snapshots).
Proof.
  induction snapshots as [|snapshot snapshots IH]; simpl; intros hour; [constructor|].
  apply Forall_app. split; [|apply IH].
  destruct snapshot as [entries|]; [|constructor].
  eapply List.Forall_impl; [|apply pointsFrom_stamped].
  intros p (Ht & Hs & Hrest). rewrite Hs. by split.
Qed.

(** Hours that each take less than an hour to read: the timestamps go down
    from one hour to any later one. *)
Lemma stamps_decrease (now : nat -> Z) :
  (forall h, now (S h) - now h < 3600000) ->
  forall i j, (i < j)%nat ->
    now j - Z.of_nat j * 3600000 < now i - Z.of_nat i * 3600000.
Proof.
  intros Hstep i j Hij. induction Hij as [|j Hij IH].
  - specialize (Hstep i). lia.
  - specialize (Hstep j). lia.
Qed.

(** The tracks that the track builder makes while the clock runs. *)
Lemma buildBalloonHistory_newest_first (rawSnapshots : list (option (list JsVal)))
    (now : nat -> Z) :
  (forall h, now (S h) - now h < 3600000) ->
  Forall (fun track =>
            StronglySorted (fun p q => timestamp q < timestamp p) (points track)
            /\ Forall (fun p => timestamp p
                                = now (snapshotIndex p) - Z.of_nat (snapshotIndex p) * 3600000
                                /\ Number_isFinite (lat p) = true
                                /\ Number_isFinite (lon p) = true
                                /\ forall a, alt p = Some a -> Number_isFinite a = true)
                      (points track))
         (obj_values (buildBalloonHistory now rawSnapshots)).
Proof.
  intros Hstep.
  assert (Hflat : Forall (fun p => timestamp p
                                   = now (snapshotIndex p)
                                     - Z.of_nat (snapshotIndex p) * 3600000
                                   /\ Number_isFinite (lat p) = true
                                   /\ Number_isFinite (lon p) = true
                                   /\ forall a, alt p = Some a -> Number_isFinite a = true)
                         (flatPoints (buildBalloonHistory now rawSnapshots))).
  { assert (Hperm : flatPoints (buildBalloonHistory now rawSnapshots)
                    ≡ₚ allPointsFrom now 0 rawSnapshots).
    { unfold buildBalloonHistory. by rewrite flatPoints_sorted, flatPoints_snapshots. }
    eapply Permutation_Forall; [symmetry; exact Hperm|].
    eapply List.Forall_impl; [|apply allPointsFrom_stamped].
    intros p (Ht & Hrest). split; [|done]. rewrite Ht. lia. }
  unfold flatPoints in Hflat. apply Forall_concat in Hflat.
  apply (proj1 (List.Forall_map _ _ _)) in Hflat.
  pose proof (unsorted_tracks_upto now rawSnapshots) as Hupto.
  assert (Hsame := sorted_tracks_unchanged _ _ _ Hupto).
  unfold buildBalloonHistory in Hflat |- *. rewrite Hsame in Hflat |- *.
  unfold obj_values in Hflat |- *. apply List.Forall_map.
  apply (proj1 (List.Forall_map _ _ _)) in Hflat.
  apply List.Forall_forall. intros [k t] Hkt.
  rewrite List.Forall_forall in Hflat, Hupto.
  specialize (Hflat _ Hkt). destruct (Hupto _ Hkt) as [Hsorted _].
  cbn [fst snd] in Hflat, Hsorted |- *.
  split; [|done].
  clear -Hsorted Hflat Hstep. induction (points t) as [|p pts IH]; [constructor|].
  apply Forall_cons in Hflat as [(Hp & _) Hflat]. simpl in Hsorted.
  apply StronglySorted_inv in Hsorted as [Hsorted Hlt].
  constructor; [by apply IH|].
  apply List.Forall_forall. intros q Hq.
  rewrite List.Forall_forall in Hflat. destruct (Hflat q Hq) as [Hqt _].
  apply (proj1 (List.Forall_map _ _ _)) in Hlt. rewrite List.Forall_forall in Hlt.
  specialize (Hlt q Hq). simpl in Hlt. rewrite Hp, Hqt.
  by apply stamps_decrease.
Qed.

(** X25.  The handler reads the clock once in every hour of the track
    builder.  While each hour takes less than an hour to read, every track
    of a response runs from the newest point to the oldest: the timestamps,
    each the clock of the point's hour minus [snapshotIndex] hours, strictly
    decrease along the track.  All coordinates are finite numbers, and so is
    every altitude that is not [null]. *)
Theorem response_tracks_are_newest_first (treasure : nat -> TreasureReply)
    (now : nat -> Z) :
  (forall h, now (S h) - now h < 3600000) ->
  Forall (fun track =>
            StronglySorted (fun p q => timestamp q < timestamp p) (points track)
            /\ Forall (fun p => timestamp p
                                = now (snapshotIndex p) - Z.of_nat (snapshotIndex p) * 3600000
                                /\ Number_isFinite (lat p) = true
                                /\ Number_isFinite (lon p) = true
                                /\ forall a, alt p = Some a -> Number_isFinite a = true)
                      (points track))
         (obj_values (GET_balloons now treasure)).
Proof. unfold GET_balloons. apply buildBalloonHistory_newest_first. Qed.

End ResponseTracks.

Section ResponseTracksRuns.
Import Route Runtime.

Lemma response_tracks_are_newest_first_witness :
  (forall h, MoreInputs.tickingClock (S h) - MoreInputs.tickingClock h < 3600000)
  /\ Forall (fun track =>
               StronglySorted (fun p q => timestamp q < timestamp p) (points track)
               /\ Forall (fun p => timestamp p
                                   = MoreInputs.tickingClock (snapshotIndex p)
                                     - Z.of_nat (snapshotIndex p) * 3600000
                                   /\ Number_isFinite (lat p) = true
                                   /\ Number_isFinite (lon p) = true
                                   /\ forall a, alt p = Some a -> Number_isFinite a = true)
                         (points track))
            (obj_values (GET_balloons MoreInputs.tickingClock Inputs.twoBalloons)).
Proof.
  assert (Hclock : forall h,
             MoreInputs.tickingClock (S h) - MoreInputs.tickingClock h < 3600000)
    by (intros h; unfold MoreInputs.tickingClock; lia).
  split; [exact Hclock|].
  exact (response_tracks_are_newest_first Inputs.twoBalloons MoreInputs.tickingClock Hclock).
Defined.

End ResponseTracksRuns.

(** ** The two track builders compared (lib/windborne.ts, route.ts) *)

Section TwoBuilders.
Import Windborne.
Context `{JsBuiltins}.

Lemma in_range_finite x lo hi :
  Number_isNaN x = false ->
  Number_isFinite lo = true -> Number_isFinite hi = true ->
  num_lt x lo = false -> num_lt hi x = false ->
  Number_isFinite x = true.
Proof.
  destruct x as [s|[]| |s m e]; try done.
  - intros _ Hlo _ Hlt _. by destruct lo as [?|[]| |[] ? ?].
  - intros _ _ Hhi _ Hgt. by destruct hi as [?|[]| |[] ? ?].
Qed.

(** One record, read by both builders. *)
Lemma extractEntry_recordPoint ts hour pts idx entry :
  parsedRecord entry ->
  extractEntry ts hour pts idx entry = pts
  \/ exists p q,
       extractEntry ts hour pts idx entry = pts ++ [p]
       /\ recordPoint ts hour idx entry = Some q
       /\ placeOf p = placeOf q.
Proof.
  intros Hparsed. unfold extractEntry, recordPoint.
  destruct entry as [| | | |items|]; try (by left).
  destruct items as [|[| |la| | |] [|[| |lo| | |] rest]]; try (by left).
  destruct (_ || _) eqn:Hout; [by left|]. right.
  apply orb_false_iff in Hout as [Hout H4]. apply orb_false_iff in Hout as [Hout H3].
  apply orb_false_iff in Hout as [H1 H2].
  destruct Hparsed as [Hla Hlo]. cbn [Route.toNum].
  assert (Hflat : Number_isFinite la = true)
    by (by apply (in_range_finite la (neg n90) n90)).
  assert (Hflon : Number_isFinite lo = true)
    by (by apply (in_range_finite lo (neg n180) n180)).
  rewrite Hla, Hlo, Hflat, Hflon. cbn [orb negb].
  eexists _, _. split_and!; reflexivity.
Qed.

Lemma extractEntries_pointsFrom ts hour entries : forall idx pts,
  Forall parsedRecord entries ->
  exists added,
    foldi (extractEntry ts hour) idx entries pts = pts ++ added
    /\ map placeOf added `sublist_of` map placeOf (pointsFrom ts hour idx entries).
Proof.
  induction entries as [|entry entries IH]; intros idx pts Hall; cbn [foldi pointsFrom].
  - exists []. by rewrite app_nil_r.
  - apply Forall_cons in Hall as [Hentry Hall].
    destruct (extractEntry_recordPoint ts hour pts idx entry Hentry)
      as [->|(p & q & -> & -> & Hplace)].
    + destruct (IH (S idx) pts Hall) as (added & -> & Hsub).
      exists added. split; [done|]. rewrite map_app. by apply sublist_inserts_l.
    + destruct (IH (S idx) (pts ++ [p]) Hall) as (added & -> & Hsub).
      exists (p :: added). split; [by rewrite <- app_assoc|].
      cbn [option_list app map]. rewrite Hplace. by apply sublist_skip.
Qed.

(** X26.  The builder of lib/windborne.ts is the stricter one: on a snapshot
    as [JSON.parse] delivers it, every record that
    [extractPointsFromSnapshot] turns into a point is also filed by the track
    builder of route.ts, for the same balloon, place, snapshot and time, and
    in the same order. *)
Theorem windborne_points_are_route_points (now : Z) (hour : nat) (entries : list JsVal) :
  Forall parsedRecord entries ->
  map placeOf (extractPointsFromSnapshot now (JArr entries) hour)
  `sublist_of` map placeOf (pointsFrom (now - Z.of_nat hour * 60 * 60 * 1000) hour 0 entries).
Proof.
  intros Hall. unfold extractPointsFromSnapshot.
  replace (now - Z.of_nat hour * 3600000) with (now - Z.of_nat hour * 60 * 60 * 1000) by lia.
  destruct (extractEntries_pointsFrom (now - Z.of_nat hour * 60 * 60 * 1000) hour entries
              0 [] Hall) as (added & -> & Hsub).
  done.
Qed.

End TwoBuilders.

Section TwoBuildersRuns.
Import Windborne Runtime.

Lemma windborne_points_are_route_points_witness :
  map placeOf (extractPointsFromSnapshot 0 (JArr Inputs.mixedSnapshot) 0)
  `sublist_of` map placeOf (pointsFrom (0 - Z.of_nat 0 * 60 * 60 * 1000) 0 0
                              Inputs.mixedSnapshot).
Proof.
  apply (windborne_points_are_route_points 0 0 Inputs.mixedSnapshot).
  repeat constructor.
Defined.

End TwoBuildersRuns.

(** ** End to end (route.ts) *)

Section EndToEnd.
Import Weather Route.
Context `{JsBuiltins} (env : Env).

(** A batch that the provider answers in full: one request, no retry. *)
Lemma fetchOpenMeteoBatch_answered c cs w :
  NoDup (map key (c :: cs)) ->
  answersFirst (length (c :: cs)) (open_meteo env (requests_sent w)) ->
  exists result,
    fetchOpenMeteoBatch env (c :: cs) 0 w
    = (Ok result, await env (fetchEvent (c :: cs) 0) 0 w)
    /\ forall cell, In cell (c :: cs) -> is_Some (result !! key cell).
Proof.
  intros Hnd (status & data & items & Hreply & Hok & Hitems & Hall).
  rewrite fetchOpenMeteoBatch_step. cbv zeta.
  rewrite Hreply. unfold attemptResult. rewrite Hok, Hitems.
  assert (Hok' := Hok). unfold res_ok in Hok'. apply andb_true_iff in Hok' as [Hlo Hhi].
  apply Nat.leb_le in Hlo, Hhi.
  assert (H429 : (status =? 429)%nat = false) by (apply Nat.eqb_neq; lia).
  assert (H500 : (500 <=? status)%nat = false) by (apply Nat.leb_gt; lia).
  rewrite H429, H500. cbn [orb negb].
  eexists. split; [reflexivity|].
  intros cell Hcell. apply list_elem_of_In, list_elem_of_lookup in Hcell as [j Hj].
  rewrite (addItem_lookup items (c :: cs) 0 ∅ j cell Hnd Hj). cbn [Nat.add].
  destruct (Hall j) as (cw & -> & ->); [|done].
  by apply lookup_lt_Some in Hj.
Qed.

(** The batch loop when the request of each batch, the [k]-th after the
    start, is answered with a reading for each position it asks. *)
Lemma runBatches_answered ttlSeconds batches : forall st w,
  (forall k batch, batches !! k = Some batch ->
     answersFirst (length batch) (open_meteo env (requests_sent w + k))) ->
  Forall (fun batch => NoDup (map key batch) /\ batch <> []) batches ->
  exists st' w',
    runBatches env None ttlSeconds batches st w = (Ok st', w')
    /\ (forall k wx, cellWeather st !! k = Some (FromProvider wx) ->
          exists wx', cellWeather st' !! k = Some (FromProvider wx'))
    /\ (forall cell, In cell (concat batches) ->
          exists wx, cellWeather st' !! key cell = Some (FromProvider wx)).
Proof.
  induction batches as [|batch rest IH]; intros st w Hanswers Hall.
  - exists st, w. split_and!; [done|by eauto|done].
  - apply Forall_cons in Hall as [[Hnd Hne] Hall].
    destruct batch as [|c cs]; [done|].
    destruct (rateLimit_effects env st w)
      as (st1 & w1 & evs1 & Hgate & Htrace1 & Hnone & _ & Hcw1 & _).
    assert (Hsent1 : requests_sent w1 = requests_sent w).
    { rewrite (requests_sent_app w evs1 w1 Htrace1), Hnone. lia. }
    assert (Hfirst : answersFirst (length (c :: cs)) (open_meteo env (requests_sent w1))).
    { rewrite Hsent1. rewrite <- (Nat.add_0_r (requests_sent w)). by apply Hanswers. }
    destruct (fetchOpenMeteoBatch_answered c cs w1 Hnd Hfirst) as (result & Hfetch & Hkeys).
    set (w2 := await env (fetchEvent (c :: cs) 0) 0 w1) in *.
    assert (Hsent2 : requests_sent w2 = S (requests_sent w)).
    { rewrite (requests_sent_app w1 [fetchEvent (c :: cs) 0] w2); [|done].
      rewrite Hsent1. change (fetchesOf [fetchEvent (c :: cs) 0]) with 1%nat. lia. }
    set (st2 := {| requestsInWindow := requestsInWindow st1 + 1;
                   windowStart := windowStart st1;
                   cellWeather := mergeBatch result (cellWeather st1) |}).
    assert (Hlater : forall k batch, rest !! k = Some batch ->
               answersFirst (length batch) (open_meteo env (requests_sent w2 + k))).
    { intros k batch Hk. rewrite Hsent2.
      replace (S (requests_sent w) + k)%nat with (requests_sent w + S k)%nat by lia.
      by apply Hanswers. }
    destruct (IH st2 w2 Hlater Hall) as (st' & w' & Hrun & Hkeep & Hrest).
    assert (Hstep : runBatches env None ttlSeconds ((c :: cs) :: rest) st w
                    = runBatches env None ttlSeconds rest st2 w2).
    { cbn [runBatches]. unfold bind at 1. unfold processBatch, bind at 1.
      rewrite Hgate. unfold issueBatch, bind at 1. rewrite Hfetch. reflexivity. }
    exists st', w'. rewrite Hstep. split_and!; [done| |].
    + intros k wx Hk. rewrite <- Hcw1 in Hk.
      assert (Hk2 : exists wx2, cellWeather st2 !! k = Some (FromProvider wx2)).
      { unfold st2, mergeBatch. cbn [cellWeather].
        rewrite lookup_union, lookup_fmap, Hk.
        destruct (result !! k); simpl; eauto. }
      destruct Hk2 as [wx2 Hk2]. by apply (Hkeep k wx2).
    + intros cell Hcell. cbn [concat] in Hcell. apply in_app_or in Hcell as [Hin|Hin].
      * destruct (Hkeys cell Hin) as [wx Hwx].
        apply (Hkeep (key cell) wx). unfold st2, mergeBatch. cbn [cellWeather].
        rewrite lookup_union, lookup_fmap, Hwx. simpl.
        by destruct (cellWeather st1 !! key cell).
      * by apply Hrest.
Qed.

(** No slice of the batch loop is empty, and each holds at most
    [WEATHER_BATCH_SIZE] cells. *)
Lemma batchesOf_NoDup (cells : list Cell) :
  NoDup (map key cells) ->
  Forall (fun batch => NoDup (map key batch) /\ batch <> []) (batchesOf cells).
Proof.
  intros Hnd. unfold batchesOf. apply List.Forall_map, List.Forall_forall. intros k Hk.
  apply in_seq in Hk as [_ Hk]. cbn [Nat.add] in Hk.
  split.
  - apply (sublist_NoDup _ (map key cells)); [exact Hnd|]. apply (fmap_sublist key).
    etrans; [apply sublist_take|apply sublist_drop].
  - assert (Hlt : (k * WEATHER_BATCH_SIZE < length cells)%nat).
    { unfold WEATHER_BATCH_SIZE in *. cbn [Nat.sub] in Hk.
      pose proof (Nat.div_mod_eq (length cells + 49) 50) as Hdiv.
      pose proof (Nat.mod_upper_bound (length cells + 49) 50 ltac:(lia)) as Hmod.
      lia. }
    intros Hnil. apply (f_equal length) in Hnil.
    rewrite length_take, length_drop in Hnil. unfold WEATHER_BATCH_SIZE in *.
    cbn [length] in Hnil. lia.
Qed.

(** The weather of a track mapping that the provider answers in full. *)
Lemma fetchWeatherForAllBalloons_answered (balloons : jsobj BalloonTrack) (w : World) :
  NoDup (obj_keys balloons) ->
  Forall track_ok balloons ->
  cacheNotConfigured env ->
  (forall k batch,
     batchesOf (clusterLatestPointsIntoCells balloons) !! k = Some batch ->
     answersFirst (length batch) (open_meteo env (requests_sent w + k))) ->
  exists lw w',
    fetchWeatherForAllBalloons env balloons w = (Ok lw, w')
    /\ forall track,
         In track (obj_values balloons) ->
         exists wx, lw !! id track = Some (FromProvider wx).
Proof.
  intros Hnd Hok Hconf Hanswers.
  pose proof (cacheNotConfigured_client env Hconf) as Hclient.
  assert (Hid : Forall (fun kv => id (snd kv) = fst kv) balloons).
  { eapply List.Forall_impl; [|exact Hok]. by intros kv (? & _). }
  set (cells := clusterLatestPointsIntoCells balloons) in *.
  assert (Hkeys : NoDup (map key cells)).
  { destruct (cluster_invariants (obj_values balloons) []) as (Hkeyed & HndK & _);
      [constructor|constructor|]. cbv zeta in Hkeyed, HndK.
    replace (map key cells) with (obj_keys (fold_left addToCell (obj_values balloons) []));
      [done|].
    unfold cells, clusterLatestPointsIntoCells, obj_keys, obj_values.
    rewrite map_map. apply map_ext_in.
    intros kv Hkv. unfold keyed in Hkeyed. rewrite List.Forall_forall in Hkeyed.
    symmetry. by apply Hkeyed. }
  destruct (runBatches_answered (ttlSecondsOf env) (batchesOf cells)
              {| requestsInWindow := 0; windowStart := clock w; cellWeather := ∅ |} w
              Hanswers (batchesOf_NoDup cells Hkeys))
    as (st & w' & Hrun & _ & Hall).
  rewrite batchesOf_concat in Hall.
  exists (fanOut cells (cellWeather st)), w'. split.
  { unfold fetchWeatherForAllBalloons, bind. fold cells.
    rewrite resolveCells_step, Hclient. unfold lookupCache, ret. cbn [fst snd].
    by rewrite Hrun. }
  intros track Hin.
  assert (Hpts : points track <> []).
  { unfold obj_values in Hin. apply in_map_iff in Hin as ([k t] & <- & Hin).
    rewrite List.Forall_forall in Hok. by destruct (Hok _ Hin) as (_ & Hne & _). }
  destruct (latestCellKey track) as [k|] eqn:Hkey.
  2:{ unfold latestCellKey in Hkey. by destruct (points track). }
  destruct (cluster_has_cell balloons track k Hin Hkey) as (c & Hc & Hck & _).
  destruct (Hall c Hc) as [wx Hwx]. exists wx.
  unfold cells. rewrite (fanOut_cluster balloons (cellWeather st) track k Hnd Hid Hin Hkey).
  unfold resolved. by rewrite <- Hck, Hwx.
Qed.

(** X27.  End to end, without a cache: the cells of the latest positions go
    to the provider in batches of at most 50, one request per batch.  When
    the provider answers the request of each batch with a success and a
    reading for each position of that batch, the handler answers 200 and
    every balloon of the response has a weather entry, a reading made from
    the provider's answer. *)
Theorem every_balloon_gets_weather_when_the_provider_answers
    (treasure : nat -> TreasureReply) (w : World) :
  cacheNotConfigured env ->
  (forall k batch,
     batchesOf (clusterLatestPointsIntoCells (GET_balloons (fun _ => clock w) treasure)) !! k
     = Some batch ->
     answersFirst (length batch) (open_meteo env (requests_sent w + k))) ->
  exists payload w',
    GET env treasure w = (Response200 payload, w')
    /\ payload_balloons payload = GET_balloons (fun _ => clock w) treasure
    /\ forall track,
         In track (obj_values (payload_balloons payload)) ->
         exists wx, latestWeather payload !! id track = Some (FromProvider wx).
Proof.
  intros Hconf Hanswers.
  destruct (GET_balloons_keys (fun _ => clock w) treasure) as [Hnd _].
  destruct (fetchWeatherForAllBalloons_answered
              (GET_balloons (fun _ => clock w) treasure) w Hnd
              (buildBalloonHistory_ok _ _) Hconf Hanswers)
    as (lw & w' & Hrun & Hall).
  unfold GET. rewrite Hrun. eexists _, _. split_and!; [reflexivity|reflexivity|].
  exact Hall.
Qed.

End EndToEnd.

Section EndToEndRuns.
Import Weather Route Runtime.

Lemma twoBalloons_one_cell :
  map length
    (batchesOf (clusterLatestPointsIntoCells (GET_balloons (fun _ => 0) Inputs.twoBalloons)))
  = [1%nat].
Proof. vm_compute. reflexivity. Qed.

Lemma every_balloon_gets_weather_when_the_provider_answers_witness :
  exists payload w',
    GET Inputs.noCache Inputs.twoBalloons Inputs.freshWorld = (Response200 payload, w')
    /\ payload_balloons payload = GET_balloons (fun _ => 0) Inputs.twoBalloons
    /\ forall track,
         In track (obj_values (payload_balloons payload)) ->
         exists wx, latestWeather payload !! id track = Some (FromProvider wx).
Proof.
  apply (every_balloon_gets_weather_when_the_provider_answers Inputs.noCache
           Inputs.twoBalloons Inputs.freshWorld).
  - left. reflexivity.
  - intros k batch Hk. cbn [clock Inputs.freshWorld] in Hk.
    assert (Hlen : [1%nat] !! k = Some (length batch)).
    { rewrite <- twoBalloons_one_cell.
      exact (eq_trans (list_lookup_fmap length _ k) (f_equal (fmap length) Hk)). }
    destruct k as [|k]; [|discriminate Hlen]. injection Hlen as Hlen. rewrite <- Hlen.
    exists 200%nat, (JArr [Inputs.pointAnswer]), [Inputs.pointAnswer].
    split; [reflexivity|]. split; [reflexivity|]. split; [reflexivity|].
    intros j Hj. destruct j as [|j]; [|lia].
    exists Inputs.currentWeather. split; reflexivity.
Defined.

End EndToEndRuns.

(** ** Cache writes (route.ts) *)

Section CacheWrites.
Import Weather Route.
Context `{JsBuiltins} (env : Env).

Lemma cacheWrites_spec batch (result : gmap string BalloonWeather) :
  (length (cacheWrites batch result) <= length batch)%nat
  /\ forall k s,
       In (k, s) (cacheWrites batch result)
       <-> exists cell wx,
             In cell batch /\ result !! key cell = Some wx
             /\ k = weatherCacheKey cell /\ s = JSON_stringify wx.
Proof.
  unfold cacheWrites. split.
  - induction batch as [|cell batch IH]; [done|]. cbn [omap list_omap length].
    destruct (result !! key cell); cbn [length]; lia.
  - intros k s. rewrite <- list_elem_of_In, list_elem_of_omap. split.
    + intros (cell & Hcell & Hsome). destruct (result !! key cell) as [wx|] eqn:Hwx; [|done].
      injection Hsome as <- <-. exists cell, wx. by rewrite <- list_elem_of_In.
    + intros (cell & wx & Hcell & Hwx & -> & ->). exists cell.
      rewrite list_elem_of_In. split; [done|]. by rewrite Hwx.
Qed.

(** X28.  With a cache client and a positive time-to-live, every iteration
    of the batch loop ends with one pipeline command, sent after the call of
    [fetchOpenMeteoBatch] returned (which, for a batch that is not empty,
    asked the provider).  It carries one write per cell of the batch for
    which that call returned a reading, the reading as a string under the
    cell's cache key, and it is sent even when the call returned none (then
    with no writes).  The iteration fails exactly when the pipeline is
    rejected; otherwise it counts one request and merges the readings that
    the call returned into [cellWeather]. *)
Theorem every_batch_ends_with_a_pipeline (client : Redis) (ttlSeconds : number)
    (batch : list Cell) (st1 : LoopState) (w : World) :
  num_lt (S754_zero false) ttlSeconds = true ->
  exists result w1 evs,
    let writes := cacheWrites batch result in
    fetchOpenMeteoBatch env batch 0 w = (Ok result, w1)
    /\ trace w1 = trace w ++ evs
    /\ Forall notRedis evs
    /\ (batch <> [] -> (requests_sent w < requests_sent w1)%nat)
    /\ issueBatch env (Some client) ttlSeconds batch st1 w
       = (if redis_exec env writes
          then Ok {| requestsInWindow := requestsInWindow st1 + 1;
                     windowStart := windowStart st1;
                     cellWeather := mergeBatch result (cellWeather st1) |}
          else Throw RedisRejected,
          await env (EvPipeline writes ttlSeconds) 0 w1)
    /\ (length writes <= length batch)%nat
    /\ (forall k s,
          In (k, s) writes
          <-> exists cell wx,
                In cell batch /\ result !! key cell = Some wx
                /\ k = weatherCacheKey cell /\ s = JSON_stringify wx).
Proof.
  intros Httl.
  destruct (fetchOpenMeteoBatch_effects env batch w)
    as (result & evs & Hrun & Htrace & _ & Hnr & _).
  exists result, (snd (fetchOpenMeteoBatch env batch 0 w)), evs. cbv zeta.
  destruct (cacheWrites_spec batch result) as [Hlen Hwrites].
  split_and!; [exact Hrun|exact Htrace|exact Hnr| | |exact Hlen|exact Hwrites].
  - destruct batch as [|c cs]; [done|]. intros _.
    apply (fetchOpenMeteoBatch_asks env c cs maxRetries 0 w). lia.
  - unfold issueBatch, bind. rewrite Hrun, Httl. unfold pipelineExec, ret.
    by destruct (redis_exec env (cacheWrites batch result)).
Qed.

End CacheWrites.

Section CacheWritesRuns.
Import Weather Route Runtime.

Lemma every_batch_ends_with_a_pipeline_witness :
  exists result w1 evs,
    let writes := cacheWrites [Inputs.cellA] result in
    fetchOpenMeteoBatch MoreInputs.cachedNull [Inputs.cellA] 0 Inputs.freshWorld
    = (Ok result, w1)
    /\ trace w1 = trace Inputs.freshWorld ++ evs
    /\ Forall notRedis evs
    /\ ([Inputs.cellA] <> [] -> (requests_sent Inputs.freshWorld < requests_sent w1)%nat)
    /\ issueBatch MoreInputs.cachedNull (Some MoreInputs.cacheClient)
         (num_of_Z 900) [Inputs.cellA] MoreInputs.loopStart Inputs.freshWorld
       = (if redis_exec MoreInputs.cachedNull writes
          then Ok {| requestsInWindow := requestsInWindow MoreInputs.loopStart + 1;
                     windowStart := windowStart MoreInputs.loopStart;
                     cellWeather := mergeBatch result (cellWeather MoreInputs.loopStart) |}
          else Throw RedisRejected,
          await MoreInputs.cachedNull (EvPipeline writes (num_of_Z 900)) 0 w1)
    /\ (length writes <= length [Inputs.cellA])%nat
    /\ (forall k s,
          In (k, s) writes
          <-> exists cell wx,
                In cell [Inputs.cellA] /\ result !! key cell = Some wx
                /\ k = weatherCacheKey cell /\ s = JSON_stringify wx).
Proof.
  apply (every_batch_ends_with_a_pipeline MoreInputs.cachedNull MoreInputs.cacheClient
           (num_of_Z 900) [Inputs.cellA] MoreInputs.loopStart Inputs.freshWorld).
  reflexivity.
Defined.

End CacheWritesRuns.
